(** * Queue gateway, SQS provider and RabbitMQ provider: a shallow embedding

    The development follows three source files of the repository:
    - [queue.gateway.ts]   (class [QueueGateway]): the fan-out subscription
      multiplexer, module [Gateway] below;
    - [providers/sqs.provider.ts] (class [SqsProvider]): the polling adapter,
      module [Sqs];
    - [providers/rabbitmq.provider.ts] (class [RabbitMqProvider]): the
      event-driven adapter, module [RabbitMq].

    Around them: the gateway serving a sequence of requests ([GatewayRun]),
    the providers' [publish] and teardown ([SqsPublish],
    [RabbitMqLifecycle]), the error classes of [errors/queue.errors.ts]
    ([Errors]), the exception filter of
    [filters/websocket-exception.filter.ts] ([Filter]) and
    [QueueModule.forRoot] of [queue.module.ts] ([QueueModule]).

    JavaScript [Map] and [Set] iterate in insertion order, and the gateway
    iterates both, so they are lists in insertion order here ([JsMap],
    [JsSet]).  Plain objects used as string dictionaries (message attributes,
    AMQP headers) and the providers' maps, which are only looked up by key,
    are [gmap]s.  Promises are modelled by oracles: the outcome of an awaited
    call is an argument of the function that embeds the code after the
    [await].  Logger calls are kept only where a [catch] block consists of
    them. *)

From stdpp Require Import gmap strings list.

#[local] Set Warnings "-clear-no-such-hyp".

Open Scope string_scope.
Open Scope list_scope.

(** ** JavaScript [Set<string>] in insertion order *)
Module JsSet.

Abbreviation t := (list string) (only parsing).

Definition has (x : string) (s : t) : bool := bool_decide (x ∈ s).

(** [Set.prototype.add]: a new element goes last, a known one stays put. *)
Definition add (x : string) (s : t) : t := if has x s then s else s ++ [x].

(** [Set.prototype.delete]. *)
Definition delete (x : string) (s : t) : t := filter (λ y, y ≠ x) s.

End JsSet.

(** ** JavaScript [Map<string, V>] in insertion order *)
Module JsMap.

Abbreviation t V := (list (string * V)) (only parsing).

Fixpoint get {V} (k : string) (m : t V) : option V :=
  match m with
  | [] => None
  | (k', v) :: m' => if decide (k' = k) then Some v else get k m'
  end.

(** [Map.prototype.set]: an existing key keeps its position. *)
Fixpoint set {V} (k : string) (v : V) (m : t V) : t V :=
  match m with
  | [] => [(k, v)]
  | (k', v') :: m' =>
      if decide (k' = k) then (k, v) :: m' else (k', v') :: set k v m'
  end.

Fixpoint delete {V} (k : string) (m : t V) : t V :=
  match m with
  | [] => []
  | (k', v') :: m' =>
      if decide (k' = k) then m' else (k', v') :: delete k m'
  end.

Definition keys {V} (m : t V) : list string := m.*1.
Definition values {V} (m : t V) : list V := m.*2.

End JsMap.

(** ** [interfaces/queue]: the message handed to handlers *)
Record QueueMessage := {
  id : option string;
  body : string;
  attributes : option (gmap string string);
}.

#[global] Instance QueueMessage_eq_dec : EqDecision QueueMessage.
Proof. solve_decision. Defined.

(** How an awaited call or a call that may throw ended. *)
Inductive Outcome := Returned | Threw.

#[global] Instance Outcome_eq_dec : EqDecision Outcome.
Proof. solve_decision. Defined.

(** * The gateway ([QueueGateway]) *)
Module Gateway.

(** What the gateway does to the outside: events emitted on a client's
    socket and calls on the injected [QueueService] (the facade). *)
Inductive Effect :=
| EmitSubscribed (client queueName message : string)
| EmitUnsubscribed (client queueName message : string)
| EmitPublished (client queueName message : string)
| EmitMessage (client queueName : string) (message : QueueMessage)
| ServiceSubscribe (queueName : string)
| ServiceUnsubscribe (queueName : string)
| ServicePublish (queueName : string) (message : QueueMessage).

#[global] Instance Effect_eq_dec : EqDecision Effect.
Proof. solve_decision. Defined.

(** The two private maps.  A value of [queueHandlers] is the closure built
    in [handleSubscribe]; it captures only [queueName] and [this], so the
    map is determined by its key set. *)
Record State := {
  clientSubscriptions : JsMap.t JsSet.t;
  queueHandlers : gset string;
}.

Definition initial : State :=
  {| clientSubscriptions := []; queueHandlers := ∅ |}.

Definition with_subscriptions (st : State) (cs : JsMap.t JsSet.t) : State :=
  {| clientSubscriptions := cs; queueHandlers := queueHandlers st |}.

Definition with_handlers (st : State) (hs : gset string) : State :=
  {| clientSubscriptions := clientSubscriptions st; queueHandlers := hs |}.

(** [handleConnection] *)
Definition handleConnection (st : State) (client : string) : State :=
  with_subscriptions st (JsMap.set client [] (clientSubscriptions st)).

(** [Array.from(this.clientSubscriptions.values()).some(q => q.has(queueName))] *)
Definition hasSubscribers (st : State) (queueName : string) : bool :=
  existsb (JsSet.has queueName) (JsMap.values (clientSubscriptions st)).

(** [unsubscribeFromQueue], up to the call of [queueService.unsubscribe];
    the [then]/[catch] callbacks of that promise are [unsubscribeSettled]. *)
Definition unsubscribeFromQueue (st : State) (client queueName : string)
  : State * list Effect :=
  match JsMap.get client (clientSubscriptions st) with
  | None => (st, [])
  | Some subscriptions =>
      if negb (JsSet.has queueName subscriptions) then (st, [])
      else
        let st' :=
          with_subscriptions st
            (JsMap.set client (JsSet.delete queueName subscriptions)
               (clientSubscriptions st)) in
        if negb (hasSubscribers st' queueName)
        then (st', [ServiceUnsubscribe queueName])
        else (st', [])
  end.

(** The callbacks attached to [queueService.unsubscribe(queueName)]:
    [then] deletes the handler, [catch] only logs. *)
Definition unsubscribeSettled (st : State) (queueName : string)
    (result : Outcome) : State :=
  match result with
  | Returned => with_handlers st (queueHandlers st ∖ {[queueName]})
  | Threw => st
  end.

(** The [for ... of subscriptions] loop of [handleDisconnect].  The loop
    body deletes the element it is visiting from the set it iterates; a JS
    set iterator then goes on with the next element, so every element of
    the set is visited once, in insertion order. *)
Fixpoint unsubscribeAll (st : State) (client : string)
    (queues : list string) : State * list Effect :=
  match queues with
  | [] => (st, [])
  | queueName :: rest =>
      let '(st1, e1) := unsubscribeFromQueue st client queueName in
      let '(st2, e2) := unsubscribeAll st1 client rest in
      (st2, e1 ++ e2)
  end.

(** [handleDisconnect] *)
Definition handleDisconnect (st : State) (client : string)
  : State * list Effect :=
  match JsMap.get client (clientSubscriptions st) with
  | None => (st, [])
  | Some subscriptions =>
      let '(st', effects) := unsubscribeAll st client subscriptions in
      (with_subscriptions st'
         (JsMap.delete client (clientSubscriptions st')), effects)
  end.

(** The clients the fan-out handler computes first:
    [entries().filter(([, queues]) => queues.has(queueName)).map(([id]) => id)] *)
Definition subscribedClients (st : State) (queueName : string)
  : list string :=
  (filter (λ e : string * JsSet.t, JsSet.has queueName e.2 = true)
     (clientSubscriptions st)).*1.

(** The delivery loop of the handler.  [sockets] is
    [this.server.sockets.sockets], the transport's table of connected
    sockets; [emitOk c] tells whether [socket.emit] on [c]'s socket
    returns.  There is no [try] in the loop: a throwing [emit] ends it. *)
Fixpoint deliver (sockets : gset string) (emitOk : string → bool)
    (queueName : string) (message : QueueMessage) (clients : list string)
  : list Effect * Outcome :=
  match clients with
  | [] => ([], Returned)
  | clientId :: rest =>
      if bool_decide (clientId ∈ sockets) then
        if emitOk clientId then
          let '(es, r) := deliver sockets emitOk queueName message rest in
          (EmitMessage clientId queueName message :: es, r)
        else ([], Threw)
      else deliver sockets emitOk queueName message rest
  end.

(** The handler registered for [queueName].  It reads
    [this.clientSubscriptions] when it runs, so the state is an argument. *)
Definition handler (sockets : gset string) (emitOk : string → bool)
    (st : State) (queueName : string) (message : QueueMessage)
  : list Effect * Outcome :=
  deliver sockets emitOk queueName message (subscribedClients st queueName).

(** [handleSubscribe].  [subscribeResult] is how the awaited
    [queueService.subscribe] ends when it is called.  The handler is put
    into [queueHandlers] before the call, and nothing removes it when the
    call rejects. *)
Definition handleSubscribe (st : State) (client queueName : string)
    (subscribeResult : Outcome) : State * list Effect * Outcome :=
  let subscriptions := JsMap.get client (clientSubscriptions st) in
  if from_option (JsSet.has queueName) false subscriptions then
    (st, [EmitSubscribed client queueName "Already subscribed to this queue"],
     Returned)
  else
    let addClient (s : State) : State :=
      with_subscriptions s
        (JsMap.set client
           (match subscriptions with
            | None => [queueName]
            | Some qs => JsSet.add queueName qs
            end) (clientSubscriptions s)) in
    let confirm :=
      EmitSubscribed client queueName "Successfully subscribed to queue" in
    if bool_decide (queueName ∈ queueHandlers st) then
      (addClient st, [confirm], Returned)
    else
      let st1 := with_handlers st ({[queueName]} ∪ queueHandlers st) in
      match subscribeResult with
      | Threw => (st1, [ServiceSubscribe queueName], Threw)
      | Returned =>
          (addClient st1, [ServiceSubscribe queueName; confirm], Returned)
      end.

(** [handleUnsubscribe] *)
Definition handleUnsubscribe (st : State) (client queueName : string)
  : State * list Effect :=
  let '(st', effects) := unsubscribeFromQueue st client queueName in
  (st', effects ++
        [EmitUnsubscribed client queueName
           "Successfully unsubscribed from queue"]).

(** [handlePublish] *)
Definition handlePublish (st : State) (client queueName : string)
    (message : QueueMessage) (publishResult : Outcome)
  : State * list Effect * Outcome :=
  match publishResult with
  | Threw => (st, [ServicePublish queueName message], Threw)
  | Returned =>
      (st, [ServicePublish queueName message;
            EmitPublished client queueName "Message published successfully"],
       Returned)
  end.

(** The state once the promises of the [queueService.unsubscribe] calls of a
    trace have settled as [results] says. *)
Definition settleUnsubscribes (results : string → Outcome) (st : State)
    (effects : list Effect) : State :=
  foldl (λ s e, match e with
                | ServiceUnsubscribe q => unsubscribeSettled s q (results q)
                | _ => s
                end) st effects.

(** Some connection's interest-set contains [queueName]. *)
Definition interested (st : State) (queueName : string) : Prop :=
  ∃ client queues,
    JsMap.get client (clientSubscriptions st) = Some queues
    ∧ queueName ∈ queues.

(** The registry invariant of the data model. *)
Definition consistent (st : State) : Prop :=
  ∀ queueName, queueName ∈ queueHandlers st ↔ interested st queueName.

(** The lists really are a [Map] of [Set]s: no key and no element twice. *)
Definition wf (st : State) : Prop :=
  NoDup (JsMap.keys (clientSubscriptions st))
  ∧ Forall (λ e : string * JsSet.t, NoDup e.2) (clientSubscriptions st).

(** [client]'s interest-set contains [queueName]. *)
Definition subscribed (st : State) (client queueName : string) : bool :=
  from_option (JsSet.has queueName) false
    (JsMap.get client (clientSubscriptions st)).

(** The interest-set of a connection other than [client] contains
    [queueName]. *)
Definition othersSubscribed (st : State) (client queueName : string)
  : bool :=
  existsb (λ e : string * JsSet.t,
             bool_decide (e.1 ≠ client) && JsSet.has queueName e.2)
    (clientSubscriptions st).

(** The clients of the fan-out list whose socket the transport has. *)
Definition recipients (sockets : gset string) (st : State)
    (queueName : string) : list string :=
  filter (λ c, c ∈ sockets) (subscribedClients st queueName).

(** The [queue:message] events for a list of clients. *)
Definition messageEvents (queueName : string) (message : QueueMessage)
    (clients : list string) : list Effect :=
  (λ c, EmitMessage c queueName message) <$> clients.

#[global] Instance wf_dec (st : State) : Decision (wf st).
Proof. unfold wf. apply _. Defined.

(** Number of [queue:message] events for [client] in a trace. *)
Definition deliveries (client queueName : string) (message : QueueMessage)
    (effects : list Effect) : nat :=
  length (filter (λ e, e = EmitMessage client queueName message) effects).

(** Number of [queueService.unsubscribe(queueName)] calls in a trace. *)
Definition unsubscribeCalls (queueName : string) (effects : list Effect)
  : nat :=
  length (filter (λ e, e = ServiceUnsubscribe queueName) effects).

(** Number of [queueService.subscribe] calls for [queueName] in a trace. *)
Definition subscribeCalls (queueName : string) (effects : list Effect)
  : nat :=
  length (filter (λ e, e = ServiceSubscribe queueName) effects).

End Gateway.

(** * The polling adapter ([SqsProvider]) *)
Module Sqs.

(** ** Backend data ([@aws-sdk/client-sqs]); every field is optional *)

(** A [MessageAttributeValue].  [StringValue] is [Some s] exactly when the
    object has a [StringValue] property of type string. *)
Record MessageAttributeValue := {
  DataType : option string;
  StringValue : option string;
}.

Record Message := {
  MessageId : option string;
  ReceiptHandle : option string;
  Body : option string;
  MessageAttributes : option (gmap string MessageAttributeValue);
}.

(** The flat map built by the loop over [Object.entries(MessageAttributes)]. *)
Definition flatAttributes
    (attrs : option (gmap string MessageAttributeValue))
  : gmap string string :=
  match attrs with
  | Some entries => omap StringValue entries
  | None => ∅
  end.

(** [Object.keys(attributes).length > 0 ? attributes : undefined] *)
Definition nonEmpty (attrs : gmap string string)
  : option (gmap string string) :=
  if decide (0 < size attrs) then Some attrs else None.

(** The [queueMessage] built for a backend message. *)
Definition toQueueMessage (message : Message) : QueueMessage :=
  {| id := MessageId message;
     body := default "" (Body message);
     attributes := nonEmpty (flatAttributes (MessageAttributes message)) |}.

(** [message.ReceiptHandle && typeof message.ReceiptHandle === 'string']:
    the handle when it is a non-empty string (the empty string is falsy). *)
Definition usableReceiptHandle (message : Message) : option string :=
  match ReceiptHandle message with
  | Some h => if decide (h = "") then None else Some h
  | None => None
  end.

(** ** Errors of [errors/queue.errors] *)
Inductive QueueError :=
| QueueNotFoundError (queueName : string)
| QueueCreationError (queueName : string)
| QueuePublishError (queueName : string)
| QueueSubscribeError (queueName : string).

Inductive Result := Resolved | Rejected (error : QueueError).

(** ** What the adapter does to the outside *)
Inductive Action :=
| SendGetQueueUrl (queueName : string)
| SendCreateQueue (queueName : string)
| SendReceiveMessage (queueUrl : string)
| SendDeleteMessage (queueUrl receiptHandle : string)
| InvokeHandler (handler : nat) (queueName : string) (message : QueueMessage)
| LogError (text : string).

#[global] Instance Action_eq_dec : EqDecision Action.
Proof. solve_decision. Defined.

(** ** State *)

(** The closure [pollMessages] of one [subscribe] call: it captures
    [options] (queue name and handler) and [queueUrl].  Handlers are opaque
    functions to the adapter; a number stands for the function's identity. *)
Record Closure := {
  queueName : string;
  queueUrl : string;
  handler : nat;
}.

(** A suspended activation of [pollMessages], by the [await] it is at. *)
Inductive PollCycle :=
| AwaitReceive (p : Closure)
| AwaitHandler (p : Closure) (message : Message) (rest : list Message)
| AwaitDelete (p : Closure) (message : Message) (rest : list Message).

(** The provider's three collections, and the part of the event loop the
    provider acts on: the interval timers that are set ([setInterval] hands
    out a fresh [Timeout]; a number stands for it) with the closure each one
    runs, and the suspended poll cycles. *)
Record State := {
  queueUrls : gmap string string;
  pollingIntervals : gmap string nat;
  subscribedQueues : gset string;
  timers : gmap nat Closure;
  nextTimer : nat;
  cycles : gmap nat PollCycle;
  nextCycle : nat;
}.

Definition initial : State :=
  {| queueUrls := ∅; pollingIntervals := ∅; subscribedQueues := ∅;
     timers := ∅; nextTimer := 0; cycles := ∅; nextCycle := 0 |}.

Definition with_queueUrls (st : State) (v : gmap string string) : State :=
  {| queueUrls := v; pollingIntervals := pollingIntervals st;
     subscribedQueues := subscribedQueues st; timers := timers st;
     nextTimer := nextTimer st; cycles := cycles st;
     nextCycle := nextCycle st |}.

Definition with_pollingIntervals (st : State) (v : gmap string nat) : State :=
  {| queueUrls := queueUrls st; pollingIntervals := v;
     subscribedQueues := subscribedQueues st; timers := timers st;
     nextTimer := nextTimer st; cycles := cycles st;
     nextCycle := nextCycle st |}.

Definition with_subscribedQueues (st : State) (v : gset string) : State :=
  {| queueUrls := queueUrls st; pollingIntervals := pollingIntervals st;
     subscribedQueues := v; timers := timers st;
     nextTimer := nextTimer st; cycles := cycles st;
     nextCycle := nextCycle st |}.

Definition with_timers (st : State) (v : gmap nat Closure) (n : nat)
  : State :=
  {| queueUrls := queueUrls st; pollingIntervals := pollingIntervals st;
     subscribedQueues := subscribedQueues st; timers := v;
     nextTimer := n; cycles := cycles st; nextCycle := nextCycle st |}.

Definition with_cycles (st : State) (v : gmap nat PollCycle) (n : nat)
  : State :=
  {| queueUrls := queueUrls st; pollingIntervals := pollingIntervals st;
     subscribedQueues := subscribedQueues st; timers := timers st;
     nextTimer := nextTimer st; cycles := v; nextCycle := n |}.

(** [clearInterval(t)] *)
Definition clearInterval (st : State) (t : nat) : State :=
  with_timers st (delete t (timers st)) (nextTimer st).

(** [this.subscribedQueues.has(options.queueName)] *)
Definition isSubscribed (st : State) (name : string) : bool :=
  bool_decide (name ∈ subscribedQueues st).

(** ** [ensureQueueExists] and [createQueue]

    The answers of the backend to the two commands the lookup may send. *)
Inductive GetQueueUrlAnswer :=
| GetQueueUrlOutput (QueueUrl : option string)
| QueueDoesNotExist
| GetQueueUrlFailed.

Inductive CreateQueueAnswer :=
| CreateQueueOutput (QueueUrl : option string)
| CreateQueueFailed.

Record Backend := {
  getQueueUrlAnswer : GetQueueUrlAnswer;
  createQueueAnswer : CreateQueueAnswer;
}.

(** A thrown value: one of the adapter's errors or an SDK error. *)
Inductive Thrown := OwnError (e : QueueError) | SdkError.

(** A property that is a non-empty string ([if (response.QueueUrl)]). *)
Definition truthy (s : option string) : option string :=
  match s with
  | Some u => if decide (u = "") then None else Some u
  | None => None
  end.

Definition createQueue (st : State) (name : string) (backend : Backend)
  : State * list Action * (string + Thrown) :=
  if decide (name = "") then
    (st, [], inr (OwnError (QueueCreationError "undefined")))
  else
    match createQueueAnswer backend with
    | CreateQueueOutput url =>
        match truthy url with
        | Some u =>
            (with_queueUrls st (<[name := u]> (queueUrls st)),
             [SendCreateQueue name], inl u)
        | None =>
            (st, [SendCreateQueue name],
             inr (OwnError (QueueCreationError name)))
        end
    | CreateQueueFailed =>
        (st, [SendCreateQueue name],
         inr (OwnError (QueueCreationError name)))
    end.

Definition ensureQueueExists (st : State) (name : string)
    (backend : Backend) : State * list Action * (string + Thrown) :=
  match queueUrls st !! name with
  | Some u => (st, [], inl u)
  | None =>
      match getQueueUrlAnswer backend with
      | GetQueueUrlOutput url =>
          match truthy url with
          | Some u =>
              (with_queueUrls st (<[name := u]> (queueUrls st)),
               [SendGetQueueUrl name], inl u)
          | None =>
              (st, [SendGetQueueUrl name],
               inr (OwnError (QueueNotFoundError name)))
          end
      | QueueDoesNotExist =>
          let '(st', acts, r) := createQueue st name backend in
          (st', SendGetQueueUrl name :: acts, r)
      | GetQueueUrlFailed => (st, [SendGetQueueUrl name], inr SdkError)
      end
  end.

(** ** One poll cycle *)

(** The head of [for (const message of response.Messages)] with [messages]
    left: build the queue message, check the live-set, call the handler and
    suspend at its [await]; leave the cycle when the queue is not live. *)
Definition processMessages (st : State) (p : Closure)
    (messages : list Message) : list Action * option PollCycle :=
  match messages with
  | [] => ([], None)
  | message :: rest =>
      if isSubscribed st (queueName p) then
        ([InvokeHandler (handler p) (queueName p) (toQueueMessage message)],
         Some (AwaitHandler p message rest))
      else ([], None)
  end.

(** How the promise a cycle waits for settles. *)
Inductive Settlement :=
| ReceiveSettled (messages : option (list Message))
| HandlerSettled (result : Outcome)
| DeleteSettled (result : Outcome).

Definition handlerErrorText : string := "Error processing message from queue".
Definition receiveErrorText : string := "Error receiving messages from queue".

(** The code after each [await] of [pollMessages], up to the next one.
    [ReceiveSettled None] is a rejected receive; an output without
    [Messages] is [Some []].  A settlement that does not belong to the
    suspension leaves the cycle as it is. *)
Definition resume (st : State) (c : PollCycle) (s : Settlement)
  : list Action * option PollCycle :=
  match c, s with
  | AwaitReceive p, ReceiveSettled None => ([LogError receiveErrorText], None)
  | AwaitReceive p, ReceiveSettled (Some messages) =>
      if isSubscribed st (queueName p) then processMessages st p messages
      else ([], None)
  | AwaitHandler p message rest, HandlerSettled Returned =>
      match usableReceiptHandle message with
      | Some h =>
          ([SendDeleteMessage (queueUrl p) h], Some (AwaitDelete p message rest))
      | None => processMessages st p rest
      end
  | AwaitHandler p message rest, HandlerSettled Threw =>
      let '(acts, c') := processMessages st p rest in
      (LogError handlerErrorText :: acts, c')
  | AwaitDelete p message rest, DeleteSettled Returned =>
      processMessages st p rest
  | AwaitDelete p message rest, DeleteSettled Threw =>
      let '(acts, c') := processMessages st p rest in
      (LogError handlerErrorText :: acts, c')
  | _, _ => ([], Some c)
  end.

(** [void pollMessages()]: the code up to the awaited receive. *)
Definition pollMessages (st : State) (p : Closure) : State * list Action :=
  if isSubscribed st (queueName p) then
    (with_cycles st (<[nextCycle st := AwaitReceive p]> (cycles st))
       (S (nextCycle st)),
     [SendReceiveMessage (queueUrl p)])
  else (st, []).

(** ** The public methods *)

(** The [catch] of [subscribe]: own errors pass, others are wrapped. *)
Definition subscribeError (name : string) (t : Thrown) : QueueError :=
  match t with
  | OwnError (QueuePublishError _) => QueueSubscribeError name
  | OwnError e => e
  | SdkError => QueueSubscribeError name
  end.

(** "Stop existing subscription if any" *)
Definition stopExisting (st : State) (name : string) : State :=
  match pollingIntervals st !! name with
  | Some existingInterval =>
      let st1 :=
        with_subscribedQueues st (subscribedQueues st ∖ {[name]}) in
      let st2 := clearInterval st1 existingInterval in
      with_pollingIntervals st2 (delete name (pollingIntervals st2))
  | None => st
  end.

(** [subscribe].  Everything after the awaited [getQueueUrl] runs in one
    turn of the event loop. *)
Definition subscribe (st : State) (name : string) (h : nat)
    (backend : Backend) : State * list Action * Result :=
  let '(st0, acts0, r) := ensureQueueExists st name backend in
  match r with
  | inr t => (st0, acts0, Rejected (subscribeError name t))
  | inl url =>
      let st1 := stopExisting st0 name in
      let p := {| queueName := name; queueUrl := url; handler := h |} in
      let st2 :=
        with_subscribedQueues st1 ({[name]} ∪ subscribedQueues st1) in
      let '(st3, acts3) := pollMessages st2 p in
      let interval := nextTimer st3 in
      let st4 := with_timers st3 (<[interval := p]> (timers st3)) (S interval) in
      (with_pollingIntervals st4 (<[name := interval]> (pollingIntervals st4)),
       acts0 ++ acts3, Resolved)
  end.

(** [unsubscribe]: first the live-set, then the interval. *)
Definition unsubscribe (st : State) (name : string)
  : State * list Action * Result :=
  let st1 := with_subscribedQueues st (subscribedQueues st ∖ {[name]}) in
  match pollingIntervals st1 !! name with
  | Some interval =>
      let st2 := clearInterval st1 interval in
      (with_pollingIntervals st2 (delete name (pollingIntervals st2)),
       [], Resolved)
  | None => (st1, [], Resolved)
  end.

(** [onModuleDestroy] *)
Definition onModuleDestroy (st : State) : State :=
  let st1 :=
    foldr (λ interval s, clearInterval s interval) st
      (map_to_list (pollingIntervals st)).*2 in
  with_subscribedQueues (with_pollingIntervals st1 ∅) ∅.

(** ** The event loop around the provider *)
Inductive Event :=
| Subscribe (name : string) (h : nat) (backend : Backend)
| Unsubscribe (name : string)
| ModuleDestroy
| Tick (timer : nat)
| Settle (cycle : nat) (s : Settlement).

(** One turn of the event loop.  [Tick t] is the callback of interval [t];
    a cleared interval does not fire.  [Settle i s] resumes cycle [i]. *)
Definition step (st : State) (e : Event) : State * list Action :=
  match e with
  | Subscribe name h backend => (subscribe st name h backend).1
  | Unsubscribe name => (unsubscribe st name).1
  | ModuleDestroy => (onModuleDestroy st, [])
  | Tick t =>
      match timers st !! t with
      | Some p => pollMessages st p
      | None => (st, [])
      end
  | Settle i s =>
      match cycles st !! i with
      | Some c =>
          let '(acts, c') := resume st c s in
          (with_cycles st
             (match c' with
              | Some c1 => <[i := c1]> (cycles st)
              | None => delete i (cycles st)
              end) (nextCycle st), acts)
      | None => (st, [])
      end
  end.

Fixpoint run (st : State) (events : list Event) : State * list Action :=
  match events with
  | [] => (st, [])
  | e :: rest =>
      let '(st1, a1) := step st e in
      let '(st2, a2) := run st1 rest in
      (st2, a1 ++ a2)
  end.



(** ** One cycle on its own

    The rest of a cycle when nothing else runs in between: every handler
    promise settles as [handlerResult] says and every delete as
    [deleteResult] says. *)
Fixpoint settleAll (fuel : nat) (st : State)
    (handlerResult : QueueMessage → Outcome)
    (deleteResult : string → Outcome) (c : option PollCycle)
  : list Action :=
  match fuel, c with
  | S n, Some (AwaitHandler p message rest as cyc) =>
      let '(acts, c') :=
        resume st cyc
          (HandlerSettled (handlerResult (toQueueMessage message))) in
      acts ++ settleAll n st handlerResult deleteResult c'
  | S n, Some (AwaitDelete p message rest as cyc) =>
      let '(acts, c') :=
        resume st cyc
          (DeleteSettled
             (deleteResult (default "" (usableReceiptHandle message)))) in
      acts ++ settleAll n st handlerResult deleteResult c'
  | _, _ => []
  end.

(** A received batch processed to its end. *)
Definition processBatch (fuel : nat) (st : State) (p : Closure)
    (handlerResult : QueueMessage → Outcome)
    (deleteResult : string → Outcome) (messages : list Message)
  : list Action :=
  let '(acts, c) := resume st (AwaitReceive p) (ReceiveSettled (Some messages)) in
  acts ++ settleAll fuel st handlerResult deleteResult c.

(** What the loop does for one message of a batch while the queue is live. *)
Definition perMessage (p : Closure)
    (handlerResult : QueueMessage → Outcome)
    (deleteResult : string → Outcome) (message : Message) : list Action :=
  InvokeHandler (handler p) (queueName p) (toQueueMessage message) ::
  match handlerResult (toQueueMessage message) with
  | Threw => [LogError handlerErrorText]
  | Returned =>
      match usableReceiptHandle message with
      | Some h =>
          SendDeleteMessage (queueUrl p) h ::
          match deleteResult h with
          | Returned => []
          | Threw => [LogError handlerErrorText]
          end
      | None => []
      end
  end.

(** Number of delete commands in a trace. *)
Definition isDelete (a : Action) : bool :=
  match a with SendDeleteMessage _ _ => true | _ => false end.

Definition deletes (acts : list Action) : nat :=
  length (filter (λ a, isDelete a = true) acts).

(** Every interval that is set belongs to the queue that records it. *)
Definition tracked (st : State) : Prop :=
  (∀ t p, timers st !! t = Some p →
          pollingIntervals st !! queueName p = Some t)
  ∧ (∀ t p, timers st !! t = Some p → t < nextTimer st)
  ∧ (∀ name t, pollingIntervals st !! name = Some t → t < nextTimer st).

End Sqs.

(** * The event-driven adapter ([RabbitMqProvider]) *)
Module RabbitMq.

(** A JavaScript number is opaque here; [numberToString] is [String(n)]. *)
Section WithNumbers.

Context {Number : Type} (numberToString : Number → string).

(** A header value by the [typeof] tests of the consume callback. *)
Inductive HeaderValue :=
| HString (s : string)
| HNumber (n : Number)
| HBoolean (b : bool)
| HOther.

(** A delivery ([amqp.ConsumeMessage]).  [content] is the buffer as
    [toString()] decodes it; [messageId] is [Some] exactly when
    [properties.messageId] is a string; [headers] is [Some] exactly when
    [properties.headers] is a non-null object. *)
Record ConsumeMessage := {
  content : string;
  headers : option (gmap string HeaderValue);
  messageId : option string;
  deliveryTag : nat;
}.

(** The branch of the loop over [Object.entries(headers)] for one value. *)
Definition coerce (v : HeaderValue) : option string :=
  match v with
  | HString s => Some s
  | HNumber n => Some (numberToString n)
  | HBoolean b => Some (if b then "true" else "false")
  | HOther => None
  end.

Definition flatAttributes (hs : option (gmap string HeaderValue))
  : gmap string string :=
  match hs with
  | Some entries => omap coerce entries
  | None => ∅
  end.

(** [Object.keys(attributes).length > 0 ? attributes : undefined] *)
Definition nonEmpty (attrs : gmap string string)
  : option (gmap string string) :=
  if decide (0 < size attrs) then Some attrs else None.

Definition toQueueMessage (msg : ConsumeMessage) : QueueMessage :=
  {| id := messageId msg;
     body := content msg;
     attributes := nonEmpty (flatAttributes (headers msg)) |}.

(** What the adapter does to the outside. *)
Inductive Action :=
| Connect
| CreateChannel
| AssertQueue (queueName : string)
| Cancel (consumerTag : nat)
| Consume (queueName : string)
| Ack (deliveryTag : nat)
| Nack (deliveryTag : nat) (allUpTo requeue : bool)
| InvokeHandler (handler : nat) (queueName : string) (message : QueueMessage)
| LogError (text : string).

Definition handlerErrorText : string :=
  "Error processing message from queue".

(** The callback given to [channel.consume].  [msg = None] is the [null]
    the library passes when the broker cancels the consumer.
    [handlerResult] is how the awaited handler ends, [ackResult] whether
    [channel.ack] returns: it is inside the [try], so an [ack] that
    throws is followed by the [nack] of the [catch]. *)
Definition onMessage (queueName : string) (handler : nat)
    (msg : option ConsumeMessage) (handlerResult ackResult : Outcome)
  : list Action :=
  match msg with
  | None => []
  | Some m =>
      InvokeHandler handler queueName (toQueueMessage m) ::
      match handlerResult with
      | Returned =>
          Ack (deliveryTag m) ::
          match ackResult with
          | Returned => []
          | Threw =>
              [LogError handlerErrorText; Nack (deliveryTag m) false true]
          end
      | Threw =>
          [LogError handlerErrorText; Nack (deliveryTag m) false true]
      end
  end.

End WithNumbers.

Arguments HeaderValue : clear implicits.
Arguments ConsumeMessage : clear implicits.

Definition isAck (a : Action) : bool :=
  match a with Ack _ => true | _ => false end.

Definition isNackRequeue (a : Action) : bool :=
  match a with Nack _ false true => true | _ => false end.

Definition isNack (a : Action) : bool :=
  match a with Nack _ _ _ => true | _ => false end.

Definition count (f : Action → bool) (acts : list Action) : nat :=
  length (filter (λ a, f a = true) acts).

(** ** Connection, channel and consumers

    The broker side of the one channel: the consumers that are registered
    on it, by consumer tag, with the queue and the handler of each.  The
    broker chooses the tag of a new consumer, different from the tags in
    use; a counter stands for that choice. *)
Record Channel := {
  registered : gmap nat (string * nat);
  nextTag : nat;
}.

Record State := {
  connection : bool;
  channel : option Channel;
  consumers : gmap string nat;
}.

Definition initial : State :=
  {| connection := false; channel := None; consumers := ∅ |}.

Inductive Result := Resolved | Rejected.

(** How the awaited calls of one method end. *)
Record Oracle := {
  connectResult : Outcome;
  createChannelResult : Outcome;
  assertQueueResult : Outcome;
  cancelResult : Outcome;
  consumeResult : Outcome;
}.

(** [connect] *)
Definition connect (st : State) (o : Oracle)
  : State * list Action * Result :=
  match connectResult o with
  | Threw => (st, [Connect; LogError "Failed to connect to RabbitMQ:"], Rejected)
  | Returned =>
      let st1 :=
        {| connection := true; channel := channel st;
           consumers := consumers st |} in
      match createChannelResult o with
      | Threw =>
          (st1, [Connect; CreateChannel;
                 LogError "Failed to connect to RabbitMQ:"], Rejected)
      | Returned =>
          ({| connection := true;
              channel := Some {| registered := ∅; nextTag := 0 |};
              consumers := consumers st |},
           [Connect; CreateChannel], Resolved)
      end
  end.

(** [ensureChannel] *)
Definition ensureChannel (st : State) (o : Oracle)
  : State * list Action * option Channel :=
  let '(st1, acts, r) :=
    if negb (connection st) || negb (bool_decide (is_Some (channel st)))
    then connect st o else (st, [], Resolved) in
  match r with
  | Rejected => (st1, acts, None)
  | Resolved => (st1, acts, channel st1)
  end.

(** [unsubscribe] *)
Definition unsubscribe (st : State) (queueName : string)
    (cancelOutcome : Outcome) : State * list Action * Result :=
  match consumers st !! queueName, channel st with
  | Some consumerTag, Some ch =>
      match cancelOutcome with
      | Returned =>
          ({| connection := connection st;
              channel :=
                Some {| registered := delete consumerTag (registered ch);
                        nextTag := nextTag ch |};
              consumers := delete queueName (consumers st) |},
           [Cancel consumerTag], Resolved)
      | Threw =>
          (st, [Cancel consumerTag;
                LogError "Failed to unsubscribe from queue"], Rejected)
      end
  | _, _ => (st, [], Resolved)
  end.

Definition subscribeFailedText : string := "Failed to subscribe to queue".

(** [subscribe] *)
Definition subscribe (st : State) (queueName : string) (handler : nat)
    (o : Oracle) : State * list Action * Result :=
  let '(st1, a1, ch) := ensureChannel st o in
  match ch with
  | None => (st1, a1 ++ [LogError subscribeFailedText], Rejected)
  | Some _ =>
      match assertQueueResult o with
      | Threw =>
          (st1, a1 ++ [AssertQueue queueName; LogError subscribeFailedText],
           Rejected)
      | Returned =>
          let '(st2, a2, r2) :=
            if bool_decide (is_Some (consumers st1 !! queueName))
            then unsubscribe st1 queueName (cancelResult o)
            else (st1, [], Resolved) in
          match r2 with
          | Rejected =>
              (st2, a1 ++ [AssertQueue queueName] ++ a2
                       ++ [LogError subscribeFailedText], Rejected)
          | Resolved =>
              match consumeResult o, channel st2 with
              | Returned, Some ch2 =>
                  let consumerTag := nextTag ch2 in
                  ({| connection := connection st2;
                      channel :=
                        Some {| registered :=
                                  <[consumerTag := (queueName, handler)]>
                                    (registered ch2);
                                nextTag := S consumerTag |};
                      consumers :=
                        <[queueName := consumerTag]> (consumers st2) |},
                   a1 ++ [AssertQueue queueName] ++ a2 ++ [Consume queueName],
                   Resolved)
              | _, _ =>
                  (st2, a1 ++ [AssertQueue queueName] ++ a2
                           ++ [Consume queueName; LogError subscribeFailedText],
                   Rejected)
              end
          end
      end
  end.

(** Calls of the two methods, one after the other. *)
Inductive Call :=
| CallSubscribe (queueName : string) (handler : nat) (o : Oracle)
| CallUnsubscribe (queueName : string) (cancelOutcome : Outcome).

Definition call (st : State) (c : Call) : State * list Action :=
  match c with
  | CallSubscribe q h o => (subscribe st q h o).1
  | CallUnsubscribe q r => (unsubscribe st q r).1
  end.

Fixpoint run (st : State) (calls : list Call) : State * list Action :=
  match calls with
  | [] => (st, [])
  | c :: rest =>
      let '(st1, a1) := call st c in
      let '(st2, a2) := run st1 rest in
      (st2, a1 ++ a2)
  end.

(** The consumers registered on the channel, if there is one. *)
Definition registeredConsumers (st : State) : gmap nat (string * nat) :=
  match channel st with
  | Some ch => registered ch
  | None => ∅
  end.

(** Every registered consumer is the one the provider records for its
    queue, and the tag counter is past every tag in use. *)
Definition tracked (st : State) : Prop :=
  (∀ tag q h, registeredConsumers st !! tag = Some (q, h) →
              consumers st !! q = Some tag)
  ∧ (∀ tag ch, channel st = Some ch → is_Some (registered ch !! tag) →
               tag < nextTag ch)
  ∧ (∀ q tag, consumers st !! q = Some tag →
              connection st = true
              ∧ ∃ ch, channel st = Some ch ∧ tag < nextTag ch).

End RabbitMq.

(** The attributes a subscriber is handed for the attributes a publisher
    gave: an empty object does not come back. *)
Definition seenAttributes (attrs : option (gmap string string))
  : option (gmap string string) :=
  match attrs with
  | Some entries => if decide (entries = ∅) then None else Some entries
  | None => None
  end.

(** * The gateway serving requests one after the other

    [QueueService] (queue.service.ts) only forwards [publish], [subscribe]
    and [unsubscribe] to the bound provider, so the gateway's view of it is
    the outcome of each call.  Here every call resolves, and the callbacks of
    the [queueService.unsubscribe] promises of a request have run before the
    next request is handled. *)
Module GatewayRun.

Inductive Request :=
| Connect (client : string)
| Disconnect (client : string)
| SubscribeRequest (client queueName : string)
| UnsubscribeRequest (client queueName : string)
| PublishRequest (client queueName : string) (message : QueueMessage).

Definition handle (st : Gateway.State) (r : Request)
  : Gateway.State * list Gateway.Effect :=
  match r with
  | Connect client => (Gateway.handleConnection st client, [])
  | Disconnect client =>
      let '(st', effects) := Gateway.handleDisconnect st client in
      (Gateway.settleUnsubscribes (λ _, Returned) st' effects, effects)
  | SubscribeRequest client queueName =>
      (Gateway.handleSubscribe st client queueName Returned).1
  | UnsubscribeRequest client queueName =>
      let '(st', effects) := Gateway.handleUnsubscribe st client queueName in
      (Gateway.settleUnsubscribes (λ _, Returned) st' effects, effects)
  | PublishRequest client queueName message =>
      (Gateway.handlePublish st client queueName message Returned).1
  end.

Fixpoint run (st : Gateway.State) (requests : list Request)
  : Gateway.State * list Gateway.Effect :=
  match requests with
  | [] => (st, [])
  | r :: rest =>
      let '(st1, e1) := handle st r in
      let '(st2, e2) := run st1 rest in
      (st2, e1 ++ e2)
  end.

(** The transport gives every connection an id of its own: [Connect] never
    comes for an id that has an entry in [clientSubscriptions]. *)
Definition fresh (st : Gateway.State) (r : Request) : Prop :=
  match r with
  | Connect client =>
      JsMap.get client (Gateway.clientSubscriptions st) = None
  | _ => True
  end.

Fixpoint admissible (st : Gateway.State) (requests : list Request) : Prop :=
  match requests with
  | [] => True
  | r :: rest => fresh st r ∧ admissible (handle st r).1 rest
  end.

End GatewayRun.

(** * [SqsProvider.publish] and [isQueueNotFoundError] *)
Module SqsPublish.

(** A thrown value as [isQueueNotFoundError] reads it: [Code], [name] and
    the [Code] of a nested [Error] object, each when it is there. *)
Record SdkException := {
  Code : option string;
  name : option string;
  nestedCode : option string;
}.

Definition nonExistentQueue : string :=
  "AWS.SimpleQueueService.NonExistentQueue".

(** [isQueueNotFoundError]; [None] is a thrown value that is not an object. *)
Definition isQueueNotFoundError (error : option SdkException) : bool :=
  match error with
  | None => false
  | Some e =>
      bool_decide (Code e = Some nonExistentQueue)
      || bool_decide (name e = Some "QueueDoesNotExist")
      || bool_decide (nestedCode e = Some nonExistentQueue)
  end.

(** How the awaited [SendMessageCommand] ends. *)
Inductive SendMessageAnswer :=
| SendMessageOutput
| SendMessageThrew (error : option SdkException).

(** The [reduce] over [Object.entries(options.message.attributes)]. *)
Definition encodeAttributes (attrs : option (gmap string string))
  : option (gmap string Sqs.MessageAttributeValue) :=
  (λ entries : gmap string string,
     (λ value, {| Sqs.DataType := Some "String";
                  Sqs.StringValue := Some value |}) <$> entries) <$> attrs.

Inductive Action :=
| Lookup (a : Sqs.Action)
| SendSendMessage (queueUrl messageBody : string)
    (messageAttributes : option (gmap string Sqs.MessageAttributeValue)).

(** The [catch] of [publish] for what [getQueueUrl] throws: own errors
    pass, an SDK error (which [ensureQueueExists] rethrows only when it is
    not a queue-not-found error) is wrapped. *)
Definition lookupError (queueName : string) (t : Sqs.Thrown)
  : Sqs.QueueError :=
  match t with
  | Sqs.OwnError (Sqs.QueueSubscribeError _) => Sqs.QueuePublishError queueName
  | Sqs.OwnError e => e
  | Sqs.SdkError => Sqs.QueuePublishError queueName
  end.

(** The [catch] of [publish] for what the send throws. *)
Definition sendError (queueName : string) (error : option SdkException)
  : Sqs.QueueError :=
  if isQueueNotFoundError error then Sqs.QueueNotFoundError queueName
  else Sqs.QueuePublishError queueName.

(** [publish] *)
Definition publish (st : Sqs.State) (queueName : string)
    (message : QueueMessage) (backend : Sqs.Backend)
    (answer : SendMessageAnswer) : Sqs.State * list Action * Sqs.Result :=
  let '(st', acts, r) := Sqs.ensureQueueExists st queueName backend in
  match r with
  | inr t => (st', Lookup <$> acts, Sqs.Rejected (lookupError queueName t))
  | inl queueUrl =>
      let command :=
        SendSendMessage queueUrl (body message)
          (encodeAttributes (attributes message)) in
      match answer with
      | SendMessageOutput => (st', (Lookup <$> acts) ++ [command], Sqs.Resolved)
      | SendMessageThrew error =>
          (st', (Lookup <$> acts) ++ [command],
           Sqs.Rejected (sendError queueName error))
      end
  end.

Definition isSend (a : Action) : bool :=
  match a with SendSendMessage _ _ _ => true | _ => false end.

Definition sends (acts : list Action) : nat :=
  length (filter (λ a, isSend a = true) acts).

Definition isReceive (a : Sqs.Action) : bool :=
  match a with Sqs.SendReceiveMessage _ => true | _ => false end.




End SqsPublish.

(** * [RabbitMqProvider.publish] and [disconnect] *)
Module RabbitMqLifecycle.

Inductive Action :=
| Channel (a : RabbitMq.Action)
| SendToQueue (queueName content : string) (persistent : bool)
    (headers : gmap string string)
| CloseChannel
| CloseConnection.

(** What [channel.sendToQueue] does: it returns [true] or [false], or it
    throws. *)
Inductive SendResult := Sent | NotSent | SendThrew.

Definition publishFailedText : string := "Failed to publish message to queue".

(** [publish].  [Buffer.from(body)] is the content; [attributes || {}] are
    the headers. *)
Definition publish (st : RabbitMq.State) (queueName : string)
    (message : QueueMessage) (o : RabbitMq.Oracle) (sent : SendResult)
  : RabbitMq.State * list Action * RabbitMq.Result :=
  let '(st1, a1, ch) := RabbitMq.ensureChannel st o in
  let failed := Channel (RabbitMq.LogError publishFailedText) in
  match ch with
  | None => (st1, (Channel <$> a1) ++ [failed], RabbitMq.Rejected)
  | Some _ =>
      match RabbitMq.assertQueueResult o with
      | Threw =>
          (st1, (Channel <$> a1)
                  ++ [Channel (RabbitMq.AssertQueue queueName); failed],
           RabbitMq.Rejected)
      | Returned =>
          let send :=
            SendToQueue queueName (body message) true
              (default ∅ (attributes message)) in
          match sent with
          | Sent =>
              (st1, (Channel <$> a1)
                      ++ [Channel (RabbitMq.AssertQueue queueName); send],
               RabbitMq.Resolved)
          | _ =>
              (st1, (Channel <$> a1)
                      ++ [Channel (RabbitMq.AssertQueue queueName); send;
                          failed],
               RabbitMq.Rejected)
          end
      end
  end.

(** The headers of a delivery for the headers a publish sent. *)
Definition deliveredHeaders {Number : Type} (headers : gmap string string)
  : option (gmap string (RabbitMq.HeaderValue Number)) :=
  Some (RabbitMq.HString <$> headers).

(** The loop of [disconnect] over the recorded consumers, for a channel that
    is there.  A cancel that throws is logged and the loop goes on.  (The
    source visits the consumers in the insertion order of its [Map]; the
    [gmap] gives them in key order.) *)
Fixpoint cancelAll (cancelOutcome : nat → Outcome) (ch : RabbitMq.Channel)
    (recorded : list (string * nat)) : RabbitMq.Channel * list Action :=
  match recorded with
  | [] => (ch, [])
  | (_, consumerTag) :: rest =>
      let '(ch1, a1) :=
        match cancelOutcome consumerTag with
        | Returned =>
            ({| RabbitMq.registered :=
                  delete consumerTag (RabbitMq.registered ch);
                RabbitMq.nextTag := RabbitMq.nextTag ch |},
             [Channel (RabbitMq.Cancel consumerTag)])
        | Threw =>
            (ch, [Channel (RabbitMq.Cancel consumerTag);
                  Channel (RabbitMq.LogError "Error canceling consumer")])
        end in
      let '(ch2, a2) := cancelAll cancelOutcome ch1 rest in
      (ch2, a1 ++ a2)
  end.

(** [disconnect] ([onModuleDestroy]).  Closing the channel ends every
    consumer on it.  When [channel.close] throws, the outer [catch] logs and
    [connection.close] is not reached.  Neither field is reset. *)
Definition disconnect (st : RabbitMq.State) (cancelOutcome : nat → Outcome)
    (closeChannel closeConnection : Outcome)
  : RabbitMq.State * list Action :=
  let failed := Channel (RabbitMq.LogError "Error disconnecting from RabbitMQ:") in
  match RabbitMq.channel st with
  | Some ch =>
      let '(ch1, a1) :=
        cancelAll cancelOutcome ch (map_to_list (RabbitMq.consumers st)) in
      match closeChannel with
      | Threw =>
          ({| RabbitMq.connection := RabbitMq.connection st;
              RabbitMq.channel := Some ch1;
              RabbitMq.consumers := ∅ |},
           a1 ++ [CloseChannel; failed])
      | Returned =>
          let st' :=
            {| RabbitMq.connection := RabbitMq.connection st;
               RabbitMq.channel :=
                 Some {| RabbitMq.registered := ∅;
                         RabbitMq.nextTag := RabbitMq.nextTag ch1 |};
               RabbitMq.consumers := ∅ |} in
          if RabbitMq.connection st then
            (st', a1 ++ [CloseChannel; CloseConnection]
                     ++ match closeConnection with
                        | Returned => []
                        | Threw => [failed]
                        end)
          else (st', a1 ++ [CloseChannel])
      end
  | None =>
      let st' :=
        {| RabbitMq.connection := RabbitMq.connection st;
           RabbitMq.channel := None;
           RabbitMq.consumers := ∅ |} in
      if RabbitMq.connection st then
        (st', CloseConnection ::
              match closeConnection with
              | Returned => []
              | Threw => [failed]
              end)
      else (st', [])
  end.

Definition isCancelOf (consumerTag : nat) (a : Action) : bool :=
  match a with
  | Channel (RabbitMq.Cancel t) => bool_decide (t = consumerTag)
  | _ => false
  end.

(** Number of [channel.cancel(consumerTag)] calls in a trace. *)
Definition cancels (consumerTag : nat) (acts : list Action) : nat :=
  length (filter (λ a, isCancelOf consumerTag a = true) acts).

Definition isConnect (a : RabbitMq.Action) : bool :=
  match a with RabbitMq.Connect => true | _ => false end.

End RabbitMqLifecycle.

(** * The error classes (errors/queue.errors.ts) *)
Module Errors.

Inductive Class :=
| QueueErrorClass
| QueueNotFoundErrorClass
| QueueCreationErrorClass
| QueuePublishErrorClass
| QueueSubscribeErrorClass.

Record QueueError := {
  class : Class;
  name : string;
  message : string;
  queueName : option string;
}.

(** The double quote character of the message templates. *)
Definition quote : string := String (Ascii.ascii_of_nat 34) EmptyString.

Definition quoted (s : string) : string :=
  String.append quote (String.append s quote).

(** [cause?.message || 'Unknown error']; [cause] is the message of the
    cause when there is a cause. *)
Definition causeText (cause : option string) : string :=
  match cause with
  | Some m => if decide (m = "") then "Unknown error" else m
  | None => "Unknown error"
  end.

Definition newQueueError (msg : string) (queue : option string) : QueueError :=
  {| class := QueueErrorClass; name := "QueueError"; message := msg;
     queueName := queue |}.

Definition newQueueNotFoundError (queue : string) : QueueError :=
  {| class := QueueNotFoundErrorClass; name := "QueueNotFoundError";
     message :=
       String.append "Queue " (String.append (quoted queue) " does not exist");
     queueName := Some queue |}.

Definition newQueueCreationError (queue : string) (cause : option string)
  : QueueError :=
  {| class := QueueCreationErrorClass; name := "QueueCreationError";
     message :=
       String.append "Failed to create queue "
         (String.append (quoted queue)
            (String.append ": " (causeText cause)));
     queueName := Some queue |}.

Definition newQueuePublishError (queue : string) (cause : option string)
  : QueueError :=
  {| class := QueuePublishErrorClass; name := "QueuePublishError";
     message :=
       String.append "Failed to publish message to queue "
         (String.append (quoted queue)
            (String.append ": " (causeText cause)));
     queueName := Some queue |}.

Definition newQueueSubscribeError (queue : string) (cause : option string)
  : QueueError :=
  {| class := QueueSubscribeErrorClass; name := "QueueSubscribeError";
     message :=
       String.append "Failed to subscribe to queue "
         (String.append (quoted queue)
            (String.append ": " (causeText cause)));
     queueName := Some queue |}.

(** The error object for an error of the polling adapter; [cause] is the
    message of the wrapped error, for the classes that take one. *)
Definition ofSqs (e : Sqs.QueueError) (cause : option string) : QueueError :=
  match e with
  | Sqs.QueueNotFoundError q => newQueueNotFoundError q
  | Sqs.QueueCreationError q => newQueueCreationError q cause
  | Sqs.QueuePublishError q => newQueuePublishError q cause
  | Sqs.QueueSubscribeError q => newQueueSubscribeError q cause
  end.

End Errors.

(** * [WebSocketExceptionFilter] (filters/websocket-exception.filter.ts) *)
Module Filter.

(** The [constraints] property of an object: not there, there without an
    object as value, or an object, whose values [Object.values] lists in
    property order. *)
Inductive ConstraintsProperty :=
| ConstraintsMissing
| ConstraintsUndefined
| ConstraintsObject (entries : list (string * string)).

#[local] Set Warnings "-register-all".

(** An element of the array a [ValidationPipe] throws, as the filter reads
    it: whether it has a [property] key, its [constraints], and its
    [children] (none when the property is missing or empty). *)
Inductive ValidationError :=
| ValidationErrorObject (hasProperty : bool)
    (constraints : ConstraintsProperty) (children : list ValidationError).

Definition constraintMessages (c : ConstraintsProperty) : list string :=
  match c with
  | ConstraintsObject entries => entries.*2
  | _ => []
  end.

(** The body of the loop of [formatValidationErrors] for one error. *)
Fixpoint formatValidationError (e : ValidationError) : list string :=
  match e with
  | ValidationErrorObject _ c children =>
      constraintMessages c
        ++ (fix nested (l : list ValidationError) : list string :=
              match l with
              | [] => []
              | x :: rest => formatValidationError x ++ nested rest
              end) children
  end.

(** [formatValidationErrors] *)
Fixpoint formatValidationErrors (errors : list ValidationError)
  : list string :=
  match errors with
  | [] => []
  | e :: rest => formatValidationError e ++ formatValidationErrors rest
  end.

(** [isValidationError] *)
Definition isValidationError (e : ValidationError) : bool :=
  match e with
  | ValidationErrorObject hasProperty c _ =>
      hasProperty
      && match c with ConstraintsMissing => false | _ => true end
  end.

(** The [message] property of an object error. *)
Inductive MessageProperty :=
| MessageMissing
| MessageString (s : string)
| MessageArray (l : list string).

(** What [exception.getError()] returns. *)
Inductive WsError :=
| ErrorArray (items : list ValidationError)
| ErrorString (s : string)
| ErrorObject (message : MessageProperty)
| ErrorOther.

Inductive Exception :=
| WsException (error : WsError)
| QueueException (e : Errors.QueueError).

Inductive Level := Warn | Error.

(** The payload of the [queue:error] event. *)
Record ErrorEvent := {
  error : string;
  details : option (list string);
  queueName : option string;
}.

(** [details: errorDetails.length > 0 ? errorDetails : undefined] *)
Definition nonEmptyDetails (errorDetails : list string)
  : option (list string) :=
  match errorDetails with
  | [] => None
  | _ => Some errorDetails
  end.

(** [catch]: the level of the one log line and the event emitted to the
    client. *)
Definition catch (exception : Exception) : Level * ErrorEvent :=
  match exception with
  | WsException err =>
      let '(errorMessage, errorDetails) :=
        match err with
        | ErrorArray (first :: rest) =>
            if isValidationError first
            then ("Validation failed", formatValidationErrors (first :: rest))
            else ("An error occurred", [])
        | ErrorArray [] => ("An error occurred", [])
        | ErrorString s => (s, [])
        | ErrorObject (MessageArray l) => ("Validation failed", l)
        | ErrorObject (MessageString s) =>
            (if decide (s = "") then "An error occurred" else s, [])
        | ErrorObject MessageMissing => ("An error occurred", [])
        | ErrorOther => ("An error occurred", [])
        end in
      (Warn, {| error := errorMessage;
                details := nonEmptyDetails errorDetails;
                queueName := None |})
  | QueueException e =>
      (match Errors.class e with
       | Errors.QueueNotFoundErrorClass => Warn
       | _ => Error
       end,
       {| error := Errors.message e;
          details := None;
          queueName := Errors.queueName e |})
  end.

(** Number of constraint messages in a forest of validation errors. *)
Fixpoint constraintCount (e : ValidationError) : nat :=
  match e with
  | ValidationErrorObject _ c children =>
      length (constraintMessages c)
      + (fix nested (l : list ValidationError) : nat :=
           match l with
           | [] => 0
           | x :: rest => constraintCount x + nested rest
           end) children
  end.

Fixpoint constraintCounts (errors : list ValidationError) : nat :=
  match errors with
  | [] => 0
  | e :: rest => constraintCount e + constraintCounts rest
  end.

End Filter.

(** * [QueueModule.forRoot] (queue.module.ts) *)
Module QueueModule.

Inductive QueueProvider := sqs | rabbitmq.

Record SqsConfig := {
  region : string;
  endpoint : option string;
  accessKeyId : option string;
  secretAccessKey : option string;
}.

Record RabbitMqConfig := { url : string }.

Record QueueModuleOptions := {
  provider : QueueProvider;
  sqsOption : option SqsConfig;
  rabbitmqOption : option RabbitMqConfig;
}.

Inductive Class := QueueService | QueueGateway | SqsProvider | RabbitMqProvider.

Inductive Config := SqsValue (c : SqsConfig) | RabbitMqValue (c : RabbitMqConfig).

Inductive Provider :=
| UseClass (c : Class)
| UseValue (token : string) (value : Config)
| UseExisting (token : string) (c : Class).

Record DynamicModule := {
  providers : list Provider;
  exports : list Class;
}.

(** The entry of [providerConfig] that [provider] selects: its config when
    given, its token, its class and its error message. *)
Definition selected (options : QueueModuleOptions)
  : option Config * string * Class * string :=
  match provider options with
  | sqs =>
      (SqsValue <$> sqsOption options, "SQS_CONFIG", SqsProvider,
       "SQS configuration is required when using SQS provider")
  | rabbitmq =>
      (RabbitMqValue <$> rabbitmqOption options, "RABBITMQ_CONFIG",
       RabbitMqProvider,
       "RabbitMQ configuration is required when using RabbitMQ provider")
  end.

(** [forRoot]: the module, or the message of the error it throws. *)
Definition forRoot (options : QueueModuleOptions) : DynamicModule + string :=
  let '(config, configToken, providerClass, errorMessage) :=
    selected options in
  match config with
  | None => inr errorMessage
  | Some value =>
      inl {| providers :=
               [UseClass QueueService; UseValue configToken value;
                UseClass providerClass;
                UseExisting "QUEUE_PROVIDER" providerClass;
                UseClass QueueGateway];
             exports := [QueueService] |}
  end.

End QueueModule.

(** * Facts about the containers *)
Module JsSetFacts.

Lemma has_true x (s : list string) : JsSet.has x s = true ↔ x ∈ s.
Proof. unfold JsSet.has. by rewrite bool_decide_eq_true. Qed.

Lemma has_false x (s : list string) : JsSet.has x s = false ↔ x ∉ s.
Proof. unfold JsSet.has. by rewrite bool_decide_eq_false. Qed.

Lemma elem_of_delete x y (s : list string) :
  y ∈ JsSet.delete x s ↔ y ∈ s ∧ y ≠ x.
Proof. unfold JsSet.delete. rewrite list_elem_of_filter. tauto. Qed.

Lemma has_delete_eq x (s : list string) :
  JsSet.has x (JsSet.delete x s) = false.
Proof. apply has_false. rewrite elem_of_delete. tauto. Qed.

Lemma has_delete_ne x y (s : list string) :
  y ≠ x → JsSet.has y (JsSet.delete x s) = JsSet.has y s.
Proof.
  intros Hne. unfold JsSet.has. apply bool_decide_ext.
  rewrite elem_of_delete. tauto.
Qed.

Lemma NoDup_delete x (s : list string) : NoDup s → NoDup (JsSet.delete x s).
Proof. apply NoDup_filter. Qed.

Lemma NoDup_add x (s : list string) : NoDup s → NoDup (JsSet.add x s).
Proof.
  intros Hs. unfold JsSet.add. destruct (JsSet.has x s) eqn:E; [done|].
  apply has_false in E. apply NoDup_app. split_and!; [done| |apply NoDup_singleton].
  intros y Hy Hy'. apply list_elem_of_singleton in Hy'. by subst.
Qed.

Lemma elem_of_add x y (s : list string) :
  y ∈ JsSet.add x s ↔ y = x ∨ y ∈ s.
Proof.
  unfold JsSet.add. destruct (JsSet.has x s) eqn:E.
  - apply has_true in E. split; [tauto|]. intros [->|]; done.
  - rewrite elem_of_app, list_elem_of_singleton. tauto.
Qed.

End JsSetFacts.

Module JsMapFacts.

Section WithValues.
Context {V : Type}.
Implicit Types (m : list (string * V)) (k : string) (v : V).

Lemma get_set_eq k v m : JsMap.get k (JsMap.set k v m) = Some v.
Proof.
  induction m as [|[k' v'] m IH]; simpl.
  - by rewrite decide_True.
  - destruct (decide (k' = k)) as [->|Hne]; simpl.
    + by rewrite decide_True.
    + by rewrite decide_False.
Qed.

Lemma get_set_ne k k' v m :
  k ≠ k' → JsMap.get k' (JsMap.set k v m) = JsMap.get k' m.
Proof.
  intros Hne. induction m as [|[k0 v0] m IH]; simpl.
  - by rewrite decide_False.
  - destruct (decide (k0 = k)) as [->|Hne0]; simpl.
    + by rewrite !decide_False.
    + destruct (decide (k0 = k')); [done|apply IH].
Qed.

Lemma get_None k m : JsMap.get k m = None ↔ k ∉ JsMap.keys m.
Proof.
  unfold JsMap.keys. induction m as [|[k' v'] m IH]; simpl.
  - split; [intros _; apply not_elem_of_nil|done].
  - rewrite not_elem_of_cons. destruct (decide (k' = k)) as [->|Hne].
    + split; [done|]. intros [? _]. done.
    + rewrite IH. split; [intros ?; split; [congruence|done]|tauto].
Qed.

Lemma get_Some_elem k v m : JsMap.get k m = Some v → (k, v) ∈ m.
Proof.
  induction m as [|[k' v'] m IH]; simpl; [done|].
  destruct (decide (k' = k)) as [->|Hne].
  - intros [= ->]. apply list_elem_of_here.
  - intros H. apply list_elem_of_further. by apply IH.
Qed.

Lemma elem_get_Some k v m :
  NoDup (JsMap.keys m) → (k, v) ∈ m → JsMap.get k m = Some v.
Proof.
  unfold JsMap.keys. induction m as [|[k' v'] m IH]; simpl.
  - intros _ H. by apply elem_of_nil in H.
  - intros Hnd H. apply NoDup_cons in Hnd as [Hk' Hnd].
    apply elem_of_cons in H as [[= <- <-]|H].
    + by rewrite decide_True.
    + destruct (decide (k' = k)) as [->|Hne]; [|by apply IH].
      exfalso. apply Hk'. apply list_elem_of_fmap. by exists (k, v).
Qed.

Lemma keys_set k v m :
  is_Some (JsMap.get k m) → JsMap.keys (JsMap.set k v m) = JsMap.keys m.
Proof.
  unfold JsMap.keys. induction m as [|[k' v'] m IH]; simpl.
  - by intros [? ?].
  - destruct (decide (k' = k)) as [->|Hne]; simpl; [done|].
    intros H. f_equal. by apply IH.
Qed.

Lemma keys_set_new k v m :
  JsMap.get k m = None → JsMap.keys (JsMap.set k v m) = JsMap.keys m ++ [k].
Proof.
  unfold JsMap.keys. induction m as [|[k' v'] m IH]; simpl; [done|].
  destruct (decide (k' = k)) as [->|Hne]; simpl; [done|].
  intros H. f_equal. by apply IH.
Qed.

Lemma NoDup_keys_set k v m :
  NoDup (JsMap.keys m) → NoDup (JsMap.keys (JsMap.set k v m)).
Proof.
  intros Hnd. destruct (JsMap.get k m) as [v0|] eqn:E.
  - by rewrite keys_set.
  - rewrite keys_set_new by done. apply NoDup_app. split_and!; [done| |apply NoDup_singleton].
    intros y Hy Hy'. apply list_elem_of_singleton in Hy'. subst.
    by apply get_None in E.
Qed.

Lemma get_delete_eq k m :
  NoDup (JsMap.keys m) → JsMap.get k (JsMap.delete k m) = None.
Proof.
  unfold JsMap.keys. induction m as [|[k' v'] m IH]; simpl; [done|].
  intros Hnd. apply NoDup_cons in Hnd as [Hk' Hnd].
  destruct (decide (k' = k)) as [->|Hne]; simpl.
  - by apply get_None.
  - rewrite decide_False by done. by apply IH.
Qed.

Lemma get_delete_ne k k' m :
  k ≠ k' → JsMap.get k' (JsMap.delete k m) = JsMap.get k' m.
Proof.
  intros Hne. induction m as [|[k0 v0] m IH]; simpl; [done|].
  destruct (decide (k0 = k)) as [->|Hne0]; simpl.
  - by rewrite decide_False.
  - destruct (decide (k0 = k')); [done|apply IH].
Qed.

Lemma keys_delete_sublist k m :
  JsMap.keys (JsMap.delete k m) `sublist_of` JsMap.keys m.
Proof.
  unfold JsMap.keys. induction m as [|[k' v'] m IH]; simpl; [done|].
  destruct (decide (k' = k)); simpl.
  - by apply sublist_cons.
  - by apply sublist_skip.
Qed.

End WithValues.

End JsMapFacts.

(** * The gateway: lemmas *)
Module GatewayFacts.
Import Gateway.

Implicit Types (st : State) (client queueName : string).

Lemma existsb_others_values (f : list string → bool) client
    (cs : list (string * list string)) :
  client ∉ JsMap.keys cs →
  existsb (λ e : string * list string, bool_decide (e.1 ≠ client) && f e.2) cs
  = existsb f (JsMap.values cs).
Proof.
  unfold JsMap.keys, JsMap.values.
  induction cs as [|[k v] cs IH]; simpl; [done|].
  intros Hk. apply not_elem_of_cons in Hk as [Hne Hk].
  rewrite IH by done. by rewrite bool_decide_true.
Qed.

Lemma existsb_values_set (f : list string → bool) client s'
    (cs : list (string * list string)) :
  NoDup (JsMap.keys cs) → is_Some (JsMap.get client cs) →
  existsb f (JsMap.values (JsMap.set client s' cs))
  = f s' || existsb (λ e : string * list string,
                       bool_decide (e.1 ≠ client) && f e.2) cs.
Proof.
  unfold JsMap.keys, JsMap.values.
  induction cs as [|[k v] cs IH]; cbn [JsMap.get JsMap.set].
  - by intros _ [? ?].
  - rewrite fmap_cons. intros Hnd Hget. apply NoDup_cons in Hnd as [Hk Hnd].
    cbn [fst] in *.
    destruct (decide (k = client)) as [->|Hne];
      rewrite fmap_cons; cbn [existsb fst snd].
    + rewrite bool_decide_false by naive_solver.
      by rewrite existsb_others_values.
    + rewrite bool_decide_true by done. rewrite IH by done.
      destruct (f v), (f s'); done.
Qed.

Lemma existsb_others_set (g : list string → bool) client s'
    (cs : list (string * list string)) :
  existsb (λ e : string * list string, bool_decide (e.1 ≠ client) && g e.2)
    (JsMap.set client s' cs)
  = existsb (λ e : string * list string, bool_decide (e.1 ≠ client) && g e.2)
      cs.
Proof.
  induction cs as [|[k v] cs IH]; simpl.
  - by rewrite bool_decide_false by naive_solver.
  - destruct (decide (k = client)) as [->|Hne]; simpl.
    + by rewrite bool_decide_false by naive_solver.
    + by rewrite IH.
Qed.

Lemma othersSubscribed_spec st client queueName :
  NoDup (JsMap.keys (clientSubscriptions st)) →
  othersSubscribed st client queueName = true ↔
  ∃ other queues, other ≠ client
    ∧ JsMap.get other (clientSubscriptions st) = Some queues
    ∧ queueName ∈ queues.
Proof.
  intros Hnd. unfold othersSubscribed. rewrite existsb_exists. split.
  - intros ([k v] & Hin & Hb). apply andb_true_iff in Hb as [Hk Hq].
    apply bool_decide_eq_true in Hk. apply JsSetFacts.has_true in Hq.
    exists k, v. split_and!; [done| |done].
    apply JsMapFacts.elem_get_Some; [done|]. by apply list_elem_of_In.
  - intros (k & v & Hne & Hget & Hq). exists (k, v). split.
    + apply list_elem_of_In. by apply JsMapFacts.get_Some_elem.
    + simpl. rewrite bool_decide_true by done.
      by apply JsSetFacts.has_true.
Qed.

Lemma unsubscribeFromQueue_not_subscribed st client queueName :
  subscribed st client queueName = false →
  unsubscribeFromQueue st client queueName = (st, []).
Proof.
  unfold subscribed, unsubscribeFromQueue.
  destruct (JsMap.get client (clientSubscriptions st)); simpl; [|done].
  by intros ->.
Qed.

Lemma unsubscribeFromQueue_subscribed st client queueName queues :
  NoDup (JsMap.keys (clientSubscriptions st)) →
  JsMap.get client (clientSubscriptions st) = Some queues →
  queueName ∈ queues →
  unsubscribeFromQueue st client queueName
  = (with_subscriptions st
       (JsMap.set client (JsSet.delete queueName queues)
          (clientSubscriptions st)),
     if othersSubscribed st client queueName then []
     else [ServiceUnsubscribe queueName]).
Proof.
  intros Hnd Hget Hq. unfold unsubscribeFromQueue. rewrite Hget.
  apply JsSetFacts.has_true in Hq. rewrite Hq. simpl.
  unfold hasSubscribers. simpl.
  rewrite existsb_values_set by (by rewrite ?Hget).
  rewrite JsSetFacts.has_delete_eq. simpl. fold (othersSubscribed st client queueName).
  by destruct (othersSubscribed st client queueName).
Qed.

Lemma unsubscribeFromQueue_keys st client queueName :
  JsMap.keys (clientSubscriptions (unsubscribeFromQueue st client queueName).1)
  = JsMap.keys (clientSubscriptions st).
Proof.
  unfold unsubscribeFromQueue.
  destruct (JsMap.get client (clientSubscriptions st)) as [queues|] eqn:E;
    [|done].
  destruct (negb (JsSet.has queueName queues)); [done|].
  assert (JsMap.keys
            (JsMap.set client (JsSet.delete queueName queues)
               (clientSubscriptions st))
          = JsMap.keys (clientSubscriptions st)) as Hk
    by (apply JsMapFacts.keys_set; by rewrite E).
  by destruct (negb (hasSubscribers _ _)).
Qed.

Lemma unsubscribeFromQueue_others st client queueName q :
  othersSubscribed (unsubscribeFromQueue st client queueName).1 client q
  = othersSubscribed st client q.
Proof.
  unfold unsubscribeFromQueue.
  destruct (JsMap.get client (clientSubscriptions st)) as [queues|] eqn:E;
    [|done].
  destruct (negb (JsSet.has queueName queues)); [done|].
  assert (∀ st', clientSubscriptions st'
                 = JsMap.set client (JsSet.delete queueName queues)
                     (clientSubscriptions st) →
                 othersSubscribed st' client q = othersSubscribed st client q)
    as Hs.
  { intros st' Hst'. unfold othersSubscribed. rewrite Hst'.
    apply existsb_others_set. }
  destruct (negb (hasSubscribers _ _)); by apply Hs.
Qed.

Lemma unsubscribeFromQueue_subscribed_after st client queueName q :
  subscribed (unsubscribeFromQueue st client queueName).1 client q
  = subscribed st client q && bool_decide (q ≠ queueName).
Proof.
  unfold unsubscribeFromQueue, subscribed.
  destruct (JsMap.get client (clientSubscriptions st)) as [queues|] eqn:E;
    simpl; [|by rewrite E].
  destruct (JsSet.has queueName queues) eqn:Hq; simpl.
  - assert (∀ st', clientSubscriptions st'
                   = JsMap.set client (JsSet.delete queueName queues)
                       (clientSubscriptions st) →
                   from_option (JsSet.has q) false
                     (JsMap.get client (clientSubscriptions st'))
                   = JsSet.has q queues && bool_decide (q ≠ queueName))
      as Hs.
    { intros st' ->. rewrite JsMapFacts.get_set_eq. simpl.
      destruct (decide (q = queueName)) as [->|Hne].
      - rewrite JsSetFacts.has_delete_eq, bool_decide_false by naive_solver.
        by rewrite andb_false_r.
      - rewrite JsSetFacts.has_delete_ne, bool_decide_true by done.
        by rewrite andb_true_r. }
    destruct (negb (hasSubscribers _ _)); by apply Hs.
  - rewrite E. simpl. destruct (decide (q = queueName)) as [->|Hne].
    + rewrite Hq. done.
    + rewrite bool_decide_true by done. by rewrite andb_true_r.
Qed.

Lemma unsubscribeCalls_app queueName (e1 e2 : list Effect) :
  unsubscribeCalls queueName (e1 ++ e2)
  = unsubscribeCalls queueName e1 + unsubscribeCalls queueName e2.
Proof. unfold unsubscribeCalls. by rewrite filter_app, length_app. Qed.

Lemma unsubscribeFromQueue_calls st client queueName q :
  NoDup (JsMap.keys (clientSubscriptions st)) →
  unsubscribeCalls q (unsubscribeFromQueue st client queueName).2
  = if bool_decide (q = queueName) && subscribed st client queueName
       && negb (othersSubscribed st client queueName)
    then 1 else 0.
Proof.
  intros Hnd. destruct (subscribed st client queueName) eqn:Hs.
  - unfold subscribed in Hs.
    destruct (JsMap.get client (clientSubscriptions st)) as [queues|] eqn:E;
      [|done].
    simpl in Hs. apply JsSetFacts.has_true in Hs.
    rewrite (unsubscribeFromQueue_subscribed _ _ _ queues) by done. simpl.
    destruct (othersSubscribed st client queueName); simpl.
    + by rewrite andb_false_r.
    + rewrite andb_true_r. unfold unsubscribeCalls.
      rewrite filter_cons. case_bool_decide as Hq.
      * subst. by rewrite decide_True.
      * rewrite decide_False by congruence. done.
  - rewrite unsubscribeFromQueue_not_subscribed by done.
    by rewrite andb_false_r.
Qed.

Lemma unsubscribeAll_calls client q (l : list string) : ∀ st,
  NoDup (JsMap.keys (clientSubscriptions st)) →
  unsubscribeCalls q (unsubscribeAll st client l).2
  = if bool_decide (q ∈ l) && subscribed st client q
       && negb (othersSubscribed st client q)
    then 1 else 0.
Proof.
  induction l as [|q0 l IH]; intros st Hnd; cbn [unsubscribeAll].
  - rewrite bool_decide_false by apply not_elem_of_nil. done.
  - destruct (unsubscribeFromQueue st client q0) as [st1 e1] eqn:E1.
    destruct (unsubscribeAll st1 client l) as [st2 e2] eqn:E2. cbn [snd].
    rewrite unsubscribeCalls_app.
    assert (st1 = (unsubscribeFromQueue st client q0).1) as Hst1
      by by rewrite E1.
    assert (e1 = (unsubscribeFromQueue st client q0).2) as He1
      by by rewrite E1.
    assert (e2 = (unsubscribeAll st1 client l).2) as He2 by by rewrite E2.
    rewrite He2, IH; last first.
    { rewrite Hst1, unsubscribeFromQueue_keys. done. }
    rewrite He1, unsubscribeFromQueue_calls by done.
    rewrite Hst1, unsubscribeFromQueue_others,
      unsubscribeFromQueue_subscribed_after.
    destruct (decide (q = q0)) as [->|Hne].
    + rewrite (bool_decide_true (q0 = q0)) by done.
      rewrite (bool_decide_false (q0 ≠ q0)) by naive_solver.
      rewrite (bool_decide_true (q0 ∈ q0 :: l)) by apply list_elem_of_here.
      rewrite andb_false_r, andb_false_r. simpl.
      destruct (subscribed st client q0 && _); done.
    + rewrite (bool_decide_false (q = q0)) by done.
      rewrite (bool_decide_true (q ≠ q0)) by done.
      rewrite andb_true_r. simpl.
      rewrite (bool_decide_ext (q ∈ q0 :: l) (q ∈ l)); [done|].
      rewrite elem_of_cons. tauto.
Qed.

Lemma handleDisconnect_calls st client q :
  NoDup (JsMap.keys (clientSubscriptions st)) →
  unsubscribeCalls q (handleDisconnect st client).2
  = if subscribed st client q && negb (othersSubscribed st client q)
    then 1 else 0.
Proof.
  intros Hnd. unfold handleDisconnect.
  destruct (JsMap.get client (clientSubscriptions st)) as [queues|] eqn:E.
  - destruct (unsubscribeAll st client queues) as [st' effects] eqn:E'.
    simpl. replace effects with (unsubscribeAll st client queues).2
      by by rewrite E'.
    rewrite unsubscribeAll_calls by done.
    unfold subscribed. rewrite E. cbn [from_option]. unfold JsSet.has.
    by destruct (bool_decide (q ∈ queues)).
  - unfold subscribed. rewrite E. done.
Qed.

(** ** The fan-out handler *)

Lemma deliver_ok sockets emitOk queueName message (l : list string) :
  (∀ c, c ∈ filter (λ c, c ∈ sockets) l → emitOk c = true) →
  deliver sockets emitOk queueName message l
  = (messageEvents queueName message (filter (λ c, c ∈ sockets) l), Returned).
Proof.
  unfold messageEvents. induction l as [|x l IH]; intros Hok; [done|].
  cbn [deliver]. case_bool_decide as Hx.
  - rewrite filter_cons_True in * by done.
    rewrite Hok by apply list_elem_of_here.
    rewrite IH; [done|]. intros c Hc. apply Hok. by apply list_elem_of_further.
  - rewrite filter_cons_False in * by done. by apply IH.
Qed.

Lemma deliver_throw sockets emitOk queueName message (l : list string) :
  ∀ pre c post,
    filter (λ c, c ∈ sockets) l = pre ++ c :: post →
    (∀ c', c' ∈ pre → emitOk c' = true) →
    emitOk c = false →
    deliver sockets emitOk queueName message l
    = (messageEvents queueName message pre, Threw).
Proof.
  unfold messageEvents.
  induction l as [|x l IH]; intros pre c post Hrs Hpre Hc.
  - rewrite filter_nil in Hrs. by destruct pre.
  - cbn [deliver]. case_bool_decide as Hx.
    + rewrite filter_cons_True in Hrs by done.
      destruct pre as [|p pre]; simplify_eq/=.
      * by rewrite Hc.
      * rewrite Hpre by apply list_elem_of_here.
        rewrite (IH pre c post); [done..| |done].
        intros c' Hc'. apply Hpre. by apply list_elem_of_further.
    + rewrite filter_cons_False in Hrs by done. by apply (IH pre c post).
Qed.

Lemma subscribedClients_spec st queueName client :
  NoDup (JsMap.keys (clientSubscriptions st)) →
  client ∈ subscribedClients st queueName
  ↔ subscribed st client queueName = true.
Proof.
  intros Hnd. unfold subscribedClients, subscribed.
  rewrite list_elem_of_fmap. split.
  - intros ([k v] & -> & Hin). apply list_elem_of_filter in Hin as [Hq Hin].
    rewrite (JsMapFacts.elem_get_Some k v) by done. done.
  - destruct (JsMap.get client (clientSubscriptions st)) as [v|] eqn:E;
      [|done].
    simpl. intros Hq. exists (client, v). split; [done|].
    apply list_elem_of_filter. split; [done|].
    by apply JsMapFacts.get_Some_elem.
Qed.

Lemma subscribedClients_NoDup st queueName :
  NoDup (JsMap.keys (clientSubscriptions st)) →
  NoDup (subscribedClients st queueName).
Proof.
  intros Hnd. unfold subscribedClients. eapply sublist_NoDup; [exact Hnd|].
  unfold JsMap.keys. apply fmap_sublist, sublist_filter.
Qed.

Lemma recipients_spec sockets st queueName client :
  NoDup (JsMap.keys (clientSubscriptions st)) →
  client ∈ recipients sockets st queueName
  ↔ subscribed st client queueName = true ∧ client ∈ sockets.
Proof.
  intros Hnd. unfold recipients.
  rewrite list_elem_of_filter, subscribedClients_spec by done. tauto.
Qed.

Lemma recipients_NoDup sockets st queueName :
  NoDup (JsMap.keys (clientSubscriptions st)) →
  NoDup (recipients sockets st queueName).
Proof. intros Hnd. by apply NoDup_filter, subscribedClients_NoDup. Qed.

Lemma deliveries_messageEvents client queueName message (l : list string) :
  NoDup l →
  deliveries client queueName message (messageEvents queueName message l)
  = if bool_decide (client ∈ l) then 1 else 0.
Proof.
  unfold deliveries, messageEvents.
  induction l as [|x l IH]; intros Hnd.
  - by rewrite bool_decide_false by apply not_elem_of_nil.
  - apply NoDup_cons in Hnd as [Hx Hnd]. rewrite fmap_cons, filter_cons.
    destruct (decide (x = client)) as [->|Hne].
    + rewrite decide_True by done. cbn [length]. rewrite IH by done.
      rewrite (bool_decide_false (client ∈ l)) by done.
      by rewrite bool_decide_true by apply list_elem_of_here.
    + rewrite decide_False by congruence. rewrite IH by done.
      apply (f_equal (λ b : bool, if b then 1 else 0)).
      apply bool_decide_ext. rewrite elem_of_cons. intuition congruence.
Qed.

(** ** Well-formedness is kept by every handler *)

Lemma wf_initial : wf initial.
Proof. split; [apply NoDup_nil_2|apply Forall_nil_2]. Qed.

Lemma Forall_set (P : string * list string → Prop) client queues
    (cs : list (string * list string)) :
  P (client, queues) → Forall P cs → Forall P (JsMap.set client queues cs).
Proof.
  intros HP. induction 1 as [|[k v] cs Hx Hcs IH]; cbn [JsMap.set].
  - by apply Forall_singleton.
  - destruct (decide (k = client)); apply Forall_cons; done.
Qed.

Lemma Forall_delete (P : string * list string → Prop) client
    (cs : list (string * list string)) :
  Forall P cs → Forall P (JsMap.delete client cs).
Proof.
  induction 1 as [|[k v] cs Hx Hcs IH]; cbn [JsMap.delete]; [done|].
  destruct (decide (k = client)); [done|]. by apply Forall_cons.
Qed.

Lemma wf_get st client queues :
  wf st → JsMap.get client (clientSubscriptions st) = Some queues →
  NoDup queues.
Proof.
  intros [_ Hall] Hget. apply JsMapFacts.get_Some_elem in Hget.
  rewrite Forall_forall in Hall. apply (Hall _ Hget).
Qed.

Lemma wf_handleConnection st client : wf st → wf (handleConnection st client).
Proof.
  intros [Hk Hall]. split; simpl.
  - by apply JsMapFacts.NoDup_keys_set.
  - apply Forall_set; [apply NoDup_nil_2|done].
Qed.

Lemma wf_unsubscribeFromQueue st client queueName :
  wf st → wf (unsubscribeFromQueue st client queueName).1.
Proof.
  intros Hwf. pose proof Hwf as [Hk Hall]. split.
  - by rewrite unsubscribeFromQueue_keys.
  - unfold unsubscribeFromQueue.
    destruct (JsMap.get client (clientSubscriptions st)) as [queues|] eqn:E;
      [|done].
    destruct (negb (JsSet.has queueName queues)); [done|].
    assert (Forall (λ e : string * list string, NoDup e.2)
              (JsMap.set client (JsSet.delete queueName queues)
                 (clientSubscriptions st))) as HF.
    { apply Forall_set; [|done]. simpl.
      apply JsSetFacts.NoDup_delete. by eapply wf_get. }
    by destruct (negb (hasSubscribers _ _)).
Qed.

Lemma wf_unsubscribeAll client (l : list string) : ∀ st,
  wf st → wf (unsubscribeAll st client l).1.
Proof.
  induction l as [|q l IH]; intros st Hwf; cbn [unsubscribeAll]; [done|].
  destruct (unsubscribeFromQueue st client q) as [st1 e1] eqn:E1.
  destruct (unsubscribeAll st1 client l) as [st2 e2] eqn:E2. cbn [fst].
  replace st2 with (unsubscribeAll st1 client l).1 by by rewrite E2.
  apply IH. replace st1 with (unsubscribeFromQueue st client q).1
    by by rewrite E1.
  by apply wf_unsubscribeFromQueue.
Qed.

Lemma wf_handleDisconnect st client :
  wf st → wf (handleDisconnect st client).1.
Proof.
  intros Hwf. unfold handleDisconnect.
  destruct (JsMap.get client (clientSubscriptions st)) as [queues|]; [|done].
  destruct (unsubscribeAll st client queues) as [st' effects] eqn:E'.
  assert (wf st') as [Hk Hall].
  { replace st' with (unsubscribeAll st client queues).1 by by rewrite E'.
    by apply wf_unsubscribeAll. }
  split; simpl.
  - eapply sublist_NoDup; [exact Hk|apply JsMapFacts.keys_delete_sublist].
  - by apply Forall_delete.
Qed.

Lemma wf_handleSubscribe st client queueName r :
  wf st → wf (handleSubscribe st client queueName r).1.1.
Proof.
  intros Hwf. pose proof Hwf as [Hk Hall]. unfold handleSubscribe.
  destruct (from_option _ _ _); [done|].
  assert (∀ s, clientSubscriptions s = clientSubscriptions st →
               wf (with_subscriptions s
                     (JsMap.set client
                        match JsMap.get client (clientSubscriptions st) with
                        | Some qs => JsSet.add queueName qs
                        | None => [queueName]
                        end (clientSubscriptions s)))) as Hadd.
  { intros s Hs. rewrite Hs. split; simpl.
    - by apply JsMapFacts.NoDup_keys_set.
    - apply Forall_set; [|done]. simpl.
      destruct (JsMap.get client (clientSubscriptions st)) as [qs|] eqn:E.
      + apply JsSetFacts.NoDup_add. by eapply wf_get.
      + apply NoDup_singleton. }
  case_bool_decide; [by apply Hadd|].
  destruct r; [by apply Hadd|done].
Qed.

(** ** The registry invariant on the paths where the queue service answers

    Where [queueService.subscribe] resolves, and once the promises of the
    [queueService.unsubscribe] calls have resolved, every handler keeps the
    invariant. *)

Lemma interested_subscribed st queueName :
  interested st queueName ↔ ∃ client, subscribed st client queueName = true.
Proof.
  unfold interested, subscribed. split.
  - intros (client & queues & Hget & Hq). exists client. rewrite Hget.
    by apply JsSetFacts.has_true.
  - intros (client & Hs).
    destruct (JsMap.get client (clientSubscriptions st)) as [queues|] eqn:E;
      [|done].
    exists client, queues. split; [done|]. by apply JsSetFacts.has_true.
Qed.

Lemma settleUnsubscribes_spec (effects : list Effect) : ∀ st,
  clientSubscriptions (settleUnsubscribes (λ _, Returned) st effects)
  = clientSubscriptions st
  ∧ ∀ q, q ∈ queueHandlers (settleUnsubscribes (λ _, Returned) st effects)
         ↔ q ∈ queueHandlers st ∧ ServiceUnsubscribe q ∉ effects.
Proof.
  unfold settleUnsubscribes.
  induction effects as [|e effects IH]; intros st; cbn [foldl].
  - split; [done|]. intros q. split; [|tauto].
    intros Hq. split; [done|apply not_elem_of_nil].
  - match goal with
    | |- context [foldl _ ?s effects] => destruct (IH s) as [Hcs Hq]
    end.
    split.
    + rewrite Hcs. by destruct e.
    + intros q. rewrite Hq, not_elem_of_cons.
      destruct e; cbn; try (split; [intros [? ?]|intros [? [? ?]]]; done).
      rewrite elem_of_difference, not_elem_of_singleton.
      split; [intros [[? ?] ?]|intros [? [? ?]]]; split_and!; congruence.
Qed.

Lemma subscribed_set st client queues client' q :
  subscribed (with_subscriptions st
                (JsMap.set client queues (clientSubscriptions st))) client' q
  = if decide (client = client') then JsSet.has q queues
    else subscribed st client' q.
Proof.
  unfold subscribed. cbn. case_decide as Hc.
  - subst. by rewrite JsMapFacts.get_set_eq.
  - by rewrite JsMapFacts.get_set_ne.
Qed.

Lemma unsubscribeFromQueue_subscribed_other st client queueName client' q :
  client ≠ client' →
  subscribed (unsubscribeFromQueue st client queueName).1 client' q
  = subscribed st client' q.
Proof.
  intros Hne. unfold unsubscribeFromQueue.
  destruct (JsMap.get client (clientSubscriptions st)) as [queues|]; [|done].
  destruct (negb (JsSet.has queueName queues)); [done|].
  pose proof (subscribed_set st client (JsSet.delete queueName queues)
                client' q) as Hs.
  rewrite decide_False in Hs by done.
  by destruct (negb (hasSubscribers _ _)).
Qed.

Lemma othersSubscribed_iff st client q :
  NoDup (JsMap.keys (clientSubscriptions st)) →
  othersSubscribed st client q = true
  ↔ ∃ other, other ≠ client ∧ subscribed st other q = true.
Proof.
  intros Hnd. rewrite othersSubscribed_spec by done. unfold subscribed. split.
  - intros (other & queues & Hne & Hget & Hq). exists other.
    rewrite Hget. split; [done|]. by apply JsSetFacts.has_true.
  - intros (other & Hne & Hs).
    destruct (JsMap.get other (clientSubscriptions st)) as [queues|] eqn:E;
      [|done].
    exists other, queues. split_and!; [done..|]. by apply JsSetFacts.has_true.
Qed.

Lemma unsubscribeCalls_elem q (effects : list Effect) :
  ServiceUnsubscribe q ∈ effects ↔ unsubscribeCalls q effects ≠ 0.
Proof.
  unfold unsubscribeCalls. split.
  - intros Hin Hlen. apply length_zero_iff_nil in Hlen.
    assert (ServiceUnsubscribe q
              ∈ filter (λ e, e = ServiceUnsubscribe q) effects) as Hf
      by by apply list_elem_of_filter.
    rewrite Hlen in Hf. by apply elem_of_nil in Hf.
  - intros Hlen.
    destruct (filter (λ e, e = ServiceUnsubscribe q) effects) as [|e l] eqn:E;
      [done|].
    assert (e ∈ filter (λ e, e = ServiceUnsubscribe q) effects) as Hf
      by (rewrite E; apply list_elem_of_here).
    apply list_elem_of_filter in Hf as [-> Hf]. done.
Qed.

Lemma consistent_handleConnection st client :
  JsMap.get client (clientSubscriptions st) = None →
  consistent st → consistent (handleConnection st client).
Proof.
  intros Hnew Hc q. unfold handleConnection.
  change (queueHandlers (with_subscriptions st ?cs)) with (queueHandlers st).
  rewrite (Hc q), !interested_subscribed.
  split; intros (c & Hs); exists c.
  - rewrite subscribed_set. case_decide; [|done].
    subst. unfold subscribed in Hs. by rewrite Hnew in Hs.
  - rewrite subscribed_set in Hs. by case_decide.
Qed.

Lemma consistent_handleSubscribe st client queueName :
  consistent st →
  consistent (handleSubscribe st client queueName Returned).1.1.
Proof.
  intros Hc. unfold handleSubscribe.
  destruct (from_option _ _ _) eqn:Eh; [done|].
  assert (∀ s q,
            clientSubscriptions s = clientSubscriptions st →
            interested
              (with_subscriptions s
                 (JsMap.set client
                    match JsMap.get client (clientSubscriptions st) with
                    | Some qs => JsSet.add queueName qs
                    | None => [queueName]
                    end (clientSubscriptions s))) q
            ↔ q = queueName ∨ interested st q) as Hadd.
  { intros s q Hs. rewrite !interested_subscribed. split.
    - intros (c & Hsub). rewrite subscribed_set in Hsub.
      case_decide as Hcl.
      + subst c. apply JsSetFacts.has_true in Hsub.
        destruct (JsMap.get client (clientSubscriptions st)) as [qs|] eqn:E.
        * apply JsSetFacts.elem_of_add in Hsub as [->|Hq]; [by left|].
          right. exists client. unfold subscribed. rewrite E.
          by apply JsSetFacts.has_true.
        * apply list_elem_of_singleton in Hsub. by left.
      + right. exists c. unfold subscribed in *. by rewrite <- Hs.
    - intros [->|(c & Hsub)].
      + exists client. rewrite subscribed_set, decide_True by done.
        apply JsSetFacts.has_true.
        destruct (JsMap.get client (clientSubscriptions st)) as [qs|].
        * apply JsSetFacts.elem_of_add. by left.
        * apply list_elem_of_here.
      + destruct (decide (client = c)) as [->|Hne].
        * exists c. rewrite subscribed_set, decide_True by done.
          apply JsSetFacts.has_true. unfold subscribed in Hsub.
          destruct (JsMap.get c (clientSubscriptions st)) as [qs|]; [|done].
          apply JsSetFacts.elem_of_add. right. by apply JsSetFacts.has_true.
        * exists c. rewrite subscribed_set, decide_False by done.
          unfold subscribed in *. by rewrite Hs. }
  case_bool_decide as Hin; cbn [fst].
  - intros q. rewrite (Hadd st q eq_refl). cbn. rewrite (Hc q).
    split; [tauto|]. intros [->|?]; [|done]. by apply Hc.
  - intros q. rewrite (Hadd _ q eq_refl). cbn.
    rewrite elem_of_union, elem_of_singleton, (Hc q). done.
Qed.

Lemma consistent_unsubscribeFromQueue st client queueName :
  wf st → consistent st →
  consistent
    (settleUnsubscribes (λ _, Returned)
       (unsubscribeFromQueue st client queueName).1
       (unsubscribeFromQueue st client queueName).2).
Proof.
  intros [Hk Hall] Hc q.
  destruct (settleUnsubscribes_spec
              (unsubscribeFromQueue st client queueName).2
              (unsubscribeFromQueue st client queueName).1) as [Hcs Hq].
  rewrite Hq.
  assert (interested
            (settleUnsubscribes (λ _, Returned)
               (unsubscribeFromQueue st client queueName).1
               (unsubscribeFromQueue st client queueName).2) q
          ↔ interested (unsubscribeFromQueue st client queueName).1 q) as ->.
  { unfold interested. by rewrite Hcs. }
  destruct (subscribed st client queueName) eqn:Hs.
  - unfold subscribed in Hs.
    destruct (JsMap.get client (clientSubscriptions st)) as [queues|] eqn:E;
      [|done].
    cbn in Hs. apply JsSetFacts.has_true in Hs.
    rewrite (unsubscribeFromQueue_subscribed _ _ _ queues) by done.
    cbn [fst snd]. rewrite (Hc q), !interested_subscribed.
    pose proof (othersSubscribed_iff st client queueName Hk) as Ho.
    split.
    + intros [(c & Hsub) Hnot].
      destruct (decide (q = queueName)) as [->|Hne].
      * destruct (othersSubscribed st client queueName) eqn:Eo.
        -- destruct (proj1 Ho eq_refl) as (other & Hno & Hso).
           exists other. by rewrite subscribed_set, decide_False.
        -- exfalso. apply Hnot. apply list_elem_of_here.
      * exists c. rewrite subscribed_set. case_decide; [|done]. subst c.
        rewrite JsSetFacts.has_delete_ne by done.
        unfold subscribed in Hsub. by rewrite E in Hsub.
    + intros (c & Hsub). rewrite subscribed_set in Hsub.
      case_decide as Hcl.
      * subst c. apply JsSetFacts.has_true, JsSetFacts.elem_of_delete in Hsub
          as [Hin Hne].
        split.
        -- exists client. unfold subscribed. rewrite E.
           by apply JsSetFacts.has_true.
        -- destruct (othersSubscribed st client queueName);
             [apply not_elem_of_nil|].
           rewrite list_elem_of_singleton. congruence.
      * split; [by exists c|].
        destruct (othersSubscribed st client queueName) eqn:Eo;
          [apply not_elem_of_nil|].
        rewrite list_elem_of_singleton. intros [= ->].
        assert (false = true) as Hf; [|done].
        apply Ho. by exists c.
  - rewrite unsubscribeFromQueue_not_subscribed by done. cbn [fst snd].
    rewrite (Hc q). split; [tauto|]. intros ?. split; [done|].
    apply not_elem_of_nil.
Qed.

Lemma unsubscribeAll_subscribed_other client client' q (l : list string) :
  client ≠ client' → ∀ st,
  subscribed (unsubscribeAll st client l).1 client' q
  = subscribed st client' q.
Proof.
  intros Hne. induction l as [|q0 l IH]; intros st; cbn [unsubscribeAll];
    [done|].
  destruct (unsubscribeFromQueue st client q0) as [st1 e1] eqn:E1.
  destruct (unsubscribeAll st1 client l) as [st2 e2] eqn:E2. cbn [fst].
  replace st2 with (unsubscribeAll st1 client l).1 by by rewrite E2.
  rewrite IH. replace st1 with (unsubscribeFromQueue st client q0).1
    by by rewrite E1.
  by apply unsubscribeFromQueue_subscribed_other.
Qed.

Lemma unsubscribeAll_handlers client (l : list string) : ∀ st,
  queueHandlers (unsubscribeAll st client l).1 = queueHandlers st.
Proof.
  induction l as [|q0 l IH]; intros st; cbn [unsubscribeAll]; [done|].
  destruct (unsubscribeFromQueue st client q0) as [st1 e1] eqn:E1.
  destruct (unsubscribeAll st1 client l) as [st2 e2] eqn:E2. cbn [fst].
  replace st2 with (unsubscribeAll st1 client l).1 by by rewrite E2.
  rewrite IH. replace st1 with (unsubscribeFromQueue st client q0).1
    by by rewrite E1.
  unfold unsubscribeFromQueue.
  destruct (JsMap.get client (clientSubscriptions st)) as [queues|]; [|done].
  destruct (negb (JsSet.has q0 queues)); [done|].
  by destruct (negb (hasSubscribers _ _)).
Qed.

Lemma handleDisconnect_subscribed st client client' q :
  wf st →
  subscribed (handleDisconnect st client).1 client' q
  = if decide (client = client') then false else subscribed st client' q.
Proof.
  intros Hwf. unfold handleDisconnect.
  destruct (JsMap.get client (clientSubscriptions st)) as [queues|] eqn:E.
  - pose proof (wf_unsubscribeAll client queues st Hwf) as [Hk' _].
    pose proof (λ H, unsubscribeAll_subscribed_other client client' q queues
                       H st) as Ho.
    destruct (unsubscribeAll st client queues) as [st' effects].
    cbn [fst] in *. unfold subscribed at 1. cbn.
    case_decide as Hc.
    + subst. by rewrite JsMapFacts.get_delete_eq.
    + rewrite JsMapFacts.get_delete_ne by done. by apply Ho.
  - cbn [fst]. case_decide as Hc; [|done].
    subst. unfold subscribed. by rewrite E.
Qed.

Lemma consistent_handleDisconnect st client :
  wf st → consistent st →
  consistent
    (settleUnsubscribes (λ _, Returned) (handleDisconnect st client).1
       (handleDisconnect st client).2).
Proof.
  intros Hwf Hc q. pose proof Hwf as [Hk _].
  destruct (settleUnsubscribes_spec (handleDisconnect st client).2
              (handleDisconnect st client).1) as [Hcs Hq].
  rewrite Hq.
  assert (interested
            (settleUnsubscribes (λ _, Returned) (handleDisconnect st client).1
               (handleDisconnect st client).2) q
          ↔ interested (handleDisconnect st client).1 q) as ->.
  { unfold interested. by rewrite Hcs. }
  assert (queueHandlers (handleDisconnect st client).1 = queueHandlers st)
    as ->.
  { unfold handleDisconnect.
    destruct (JsMap.get client (clientSubscriptions st)) as [queues|];
      [|done].
    pose proof (unsubscribeAll_handlers client queues st) as Hh.
    by destruct (unsubscribeAll st client queues). }
  rewrite unsubscribeCalls_elem, handleDisconnect_calls by done.
  rewrite (Hc q), !interested_subscribed.
  pose proof (othersSubscribed_iff st client q Hk) as Ho.
  split.
  - intros [(c & Hsub) Hnot].
    destruct (othersSubscribed st client q) eqn:Eo.
    + destruct (proj1 Ho eq_refl) as (other & Hno & Hso). exists other.
      rewrite handleDisconnect_subscribed by done.
      by rewrite decide_False.
    + exists c. rewrite handleDisconnect_subscribed by done.
      case_decide as Hcl; [|done]. subst c. exfalso. apply Hnot.
      by rewrite Hsub.
  - intros (c & Hsub). rewrite handleDisconnect_subscribed in Hsub by done.
    case_decide as Hcl; [done|]. split; [by exists c|].
    assert (othersSubscribed st client q = true) as ->
      by (apply Ho; by exists c).
    rewrite andb_false_r. tauto.
Qed.

End GatewayFacts.

(** * The gateway: properties of the specification *)

(** C1. The registry invariant (a queue name is a key of [queueHandlers] iff
    some interest-set contains it) is broken by [handleSubscribe] on the path
    where [queueService.subscribe] rejects: on a fresh gateway with one
    connected client the handler has already been stored when the call
    rejects, the rejection reaches the caller, and the key stays behind with
    no interested connection.  The next subscriber to that queue is then
    confirmed without any call of [queueService.subscribe]. *)
Theorem failed_subscribe_leaves_handler :
  let st0 := Gateway.handleConnection Gateway.initial "c1" in
  let r1 := Gateway.handleSubscribe st0 "c1" "orders" Threw in
  let st1 := r1.1.1 in
  let r2 :=
    Gateway.handleSubscribe (Gateway.handleConnection st1 "c2") "c2" "orders"
      Returned in
  Gateway.consistent st0
  ∧ r1.2 = Threw
  ∧ r1.1.2 = [Gateway.ServiceSubscribe "orders"]
  ∧ Gateway.clientSubscriptions st1 = [("c1", [])]
  ∧ "orders" ∈ Gateway.queueHandlers st1
  ∧ ¬ Gateway.interested st1 "orders"
  ∧ ¬ Gateway.consistent st1
  ∧ r2.2 = Returned
  ∧ r2.1.2 = [Gateway.EmitSubscribed "c2" "orders"
                "Successfully subscribed to queue"].
Proof.
  assert (∀ st q, Gateway.clientSubscriptions st = [("c1", [])] →
                  ¬ Gateway.interested st q) as Hnone.
  { intros st q Hcs (client & queues & Hget & Hq). rewrite Hcs in Hget.
    cbn [JsMap.get] in Hget. case_decide; [|done].
    injection Hget as <-. by apply elem_of_nil in Hq. }
  assert ("orders" ∈ Gateway.queueHandlers
            (Gateway.handleSubscribe
               (Gateway.handleConnection Gateway.initial "c1")
               "c1" "orders" Threw).1.1) as Hin.
  { apply (bool_decide_unpack _). vm_compute. reflexivity. }
  cbv zeta. split_and!.
  - intros q. split.
    + intros Hq. by apply not_elem_of_empty in Hq.
    + intros Hq. by apply Hnone in Hq.
  - reflexivity.
  - reflexivity.
  - reflexivity.
  - exact Hin.
  - by apply Hnone.
  - intros Hc. eapply (Hnone _ "orders"); [|apply Hc, Hin]. reflexivity.
  - vm_compute. reflexivity.
  - vm_compute. reflexivity.
Qed.

(** C2 (amended).  When the handler of queue [queueName] runs and no send
    throws, every connection whose interest-set contains [queueName] at that
    moment and whose socket is in the transport's socket table gets the
    message exactly once; every other connection gets nothing, and nothing
    but these [queue:message] events is produced.  The handler reads the
    state it runs in: after [unsubscribeFromQueue] for a connection that
    connection gets nothing. *)
Theorem fanout_exactly_once (sockets : gset string) (emitOk : string → bool)
    (st : Gateway.State) (queueName : string) (message : QueueMessage) :
  Gateway.wf st →
  (∀ c, emitOk c = true) →
  let out := Gateway.handler sockets emitOk st queueName message in
  out.2 = Returned
  ∧ (∀ c, Gateway.deliveries c queueName message out.1
          = if Gateway.subscribed st c queueName && bool_decide (c ∈ sockets)
            then 1 else 0)
  ∧ Forall (λ e, ∃ c, e = Gateway.EmitMessage c queueName message) out.1
  ∧ (∀ c,
       Gateway.deliveries c queueName message
         (Gateway.handler sockets emitOk
            (Gateway.unsubscribeFromQueue st c queueName).1 queueName
            message).1 = 0).
Proof.
  intros Hwf Hok.
  assert (∀ st', Gateway.wf st' →
            Gateway.handler sockets emitOk st' queueName message
            = (Gateway.messageEvents queueName message
                 (Gateway.recipients sockets st' queueName), Returned)) as Hh.
  { intros st' _. unfold Gateway.handler. by rewrite GatewayFacts.deliver_ok. }
  assert (∀ st' c, Gateway.wf st' →
            Gateway.deliveries c queueName message
              (Gateway.handler sockets emitOk st' queueName message).1
            = if Gateway.subscribed st' c queueName && bool_decide (c ∈ sockets)
              then 1 else 0) as Hcount.
  { intros st' c Hwf'. rewrite Hh by done. cbn [fst].
    destruct Hwf' as [Hk _].
    rewrite GatewayFacts.deliveries_messageEvents
      by by apply GatewayFacts.recipients_NoDup.
    pose proof (GatewayFacts.recipients_spec sockets st' queueName c Hk)
      as Hspec.
    destruct (decide (c ∈ Gateway.recipients sockets st' queueName))
      as [Hin|Hnin].
    - rewrite bool_decide_true by done. apply Hspec in Hin as [-> Hs].
      by rewrite bool_decide_true.
    - rewrite bool_decide_false by done.
      destruct (Gateway.subscribed st' c queueName); [|done].
      rewrite bool_decide_false; [done|]. intros Hs. apply Hnin, Hspec.
      done. }
  cbv zeta. split_and!.
  - by rewrite Hh.
  - intros c. by apply Hcount.
  - rewrite Hh by done. cbn [fst]. unfold Gateway.messageEvents.
    apply Forall_fmap, Forall_true. intros c. by exists c.
  - intros c. rewrite Hcount by by apply GatewayFacts.wf_unsubscribeFromQueue.
    rewrite GatewayFacts.unsubscribeFromQueue_subscribed_after.
    rewrite (bool_decide_false (queueName ≠ queueName)) by naive_solver.
    by rewrite andb_false_r.
Qed.

(** The theorem on a gateway with three connected clients, two of them
    subscribed to the queue. *)
Lemma fanout_exactly_once_witness :
  let st :=
    {| Gateway.clientSubscriptions :=
         [("client1", ["orders"]); ("client2", ["orders"; "audit"]);
          ("client3", ["audit"])];
       Gateway.queueHandlers := {["orders"; "audit"]} |} in
  let sockets : gset string := {["client1"; "client2"; "client3"]} in
  let message :=
    {| id := Some "msg-1"; body := "hello"; attributes := None |} in
  let out := Gateway.handler sockets (λ _, true) st "orders" message in
  Gateway.wf st
  ∧ out.2 = Returned
  ∧ Gateway.deliveries "client1" "orders" message out.1 = 1
  ∧ Gateway.deliveries "client2" "orders" message out.1 = 1
  ∧ Gateway.deliveries "client3" "orders" message out.1 = 0.
Proof.
  cbv zeta.
  match goal with |- Gateway.wf ?s ∧ _ => assert (Gateway.wf s) as Hwf end.
  { apply (bool_decide_unpack _). vm_compute. reflexivity. }
  split; [exact Hwf|].
  destruct (fanout_exactly_once {["client1"; "client2"; "client3"]}
              (λ _, true) _ "orders"
              {| id := Some "msg-1"; body := "hello"; attributes := None |}
              Hwf (λ _, eq_refl)) as (H1 & H2 & _ & _).
  split; [exact H1|].
  split; [rewrite H2; vm_compute; reflexivity|].
  split; [rewrite H2; vm_compute; reflexivity|].
  rewrite H2; vm_compute; reflexivity.
Defined.

(** C2 as stated fails: in the state of the gateway's own unit test
    "should deliver messages to all subscribed clients" the interest-set of
    [test-client-id] contains the queue, but the socket table has no socket
    for it, and the handler emits nothing to it. *)
Lemma fanout_skips_client_without_socket :
  let st :=
    {| Gateway.clientSubscriptions :=
         [("client1", ["test-queue"]); ("client2", ["test-queue"]);
          ("test-client-id", ["test-queue"])];
       Gateway.queueHandlers := {["test-queue"]} |} in
  let sockets : gset string := {["client1"; "client2"]} in
  let message :=
    {| id := Some "msg-1"; body := "test message"; attributes := None |} in
  let out := Gateway.handler sockets (λ _, true) st "test-queue" message in
  Gateway.wf st
  ∧ Gateway.subscribed st "test-client-id" "test-queue" = true
  ∧ out = ([Gateway.EmitMessage "client1" "test-queue" message;
            Gateway.EmitMessage "client2" "test-queue" message], Returned)
  ∧ Gateway.deliveries "test-client-id" "test-queue" message out.1 = 0.
Proof.
  cbv zeta. split_and!.
  - apply (bool_decide_unpack _). vm_compute. reflexivity.
  - vm_compute. reflexivity.
  - vm_compute. reflexivity.
  - vm_compute. reflexivity.
Qed.

(** C3 (amended).  The delivery loop has no [try]: it skips a client of the
    fan-out list that has no socket, so the recipients are the subscribed
    clients with a socket, in the order of the map.  If no send to a
    recipient throws, every recipient gets the message.  If a send throws,
    the loop ends there: the recipients before the failing one have got the
    message, the failing one and those after it have not, and the exception
    leaves the handler. *)
Theorem fanout_stops_at_first_throw (sockets : gset string)
    (emitOk : string → bool) (st : Gateway.State) (queueName : string)
    (message : QueueMessage) :
  let rs := Gateway.recipients sockets st queueName in
  ((∀ c, c ∈ rs → emitOk c = true) →
   Gateway.handler sockets emitOk st queueName message
   = (Gateway.messageEvents queueName message rs, Returned))
  ∧ (∀ pre c post,
       rs = pre ++ c :: post →
       (∀ c', c' ∈ pre → emitOk c' = true) →
       emitOk c = false →
       Gateway.handler sockets emitOk st queueName message
       = (Gateway.messageEvents queueName message pre, Threw)).
Proof.
  cbv zeta. split.
  - intros Hok. unfold Gateway.handler. by apply GatewayFacts.deliver_ok.
  - intros pre c post Hrs Hpre Hc. unfold Gateway.handler.
    by eapply GatewayFacts.deliver_throw.
Qed.

(** The theorem on a fan-out list of four clients, one without a socket:
    first with sends that all return, then with a send to [client2] that
    throws. *)
Lemma fanout_stops_at_first_throw_witness :
  let st :=
    {| Gateway.clientSubscriptions :=
         [("client1", ["orders"]); ("ghost", ["orders"]);
          ("client2", ["orders"]); ("client3", ["orders"])];
       Gateway.queueHandlers := {["orders"]} |} in
  let sockets : gset string := {["client1"; "client2"; "client3"]} in
  let message :=
    {| id := Some "msg-1"; body := "hello"; attributes := None |} in
  Gateway.recipients sockets st "orders" = ["client1"; "client2"; "client3"]
  ∧ Gateway.handler sockets (λ _, true) st "orders" message
    = (Gateway.messageEvents "orders" message
         ["client1"; "client2"; "client3"], Returned)
  ∧ Gateway.handler sockets (λ c, negb (String.eqb c "client2")) st "orders"
      message
    = (Gateway.messageEvents "orders" message ["client1"], Threw).
Proof.
  cbv zeta. split; [vm_compute; reflexivity|]. split.
  - match goal with
    | |- Gateway.handler ?so ?ok ?s ?q ?m = _ =>
        destruct (fanout_stops_at_first_throw so ok s q m) as [H1 _]
    end.
    exact (H1 (λ _ _, eq_refl)).
  - match goal with
    | |- Gateway.handler ?so ?ok ?s ?q ?m = _ =>
        destruct (fanout_stops_at_first_throw so ok s q m) as [_ H2]
    end.
    apply H2 with (c := "client2") (post := ["client3"]).
    + vm_compute. reflexivity.
    + intros c' Hc'. apply list_elem_of_singleton in Hc' as ->. reflexivity.
    + reflexivity.
Defined.

(** C3 as stated fails: two clients are subscribed and have sockets, the
    send to the first one throws, and the second one never gets the
    message. *)
Lemma fanout_throw_starves_later_clients :
  let st :=
    {| Gateway.clientSubscriptions :=
         [("client1", ["orders"]); ("client2", ["orders"])];
       Gateway.queueHandlers := {["orders"]} |} in
  let sockets : gset string := {["client1"; "client2"]} in
  let emitOk := λ c, negb (String.eqb c "client1") in
  let message :=
    {| id := Some "msg-1"; body := "hello"; attributes := None |} in
  let out := Gateway.handler sockets emitOk st "orders" message in
  Gateway.recipients sockets st "orders" = ["client1"; "client2"]
  ∧ emitOk "client1" = false
  ∧ emitOk "client2" = true
  ∧ out = ([], Threw)
  ∧ Gateway.deliveries "client2" "orders" message out.1 = 0.
Proof. cbv zeta. split_and!; vm_compute; reflexivity. Qed.

(** C4.  [unsubscribeFromQueue] for a queue in the connection's interest-set
    calls [queueService.unsubscribe] for that queue exactly once, and calls
    nothing else, when no other connection has the queue in its
    interest-set; it calls nothing at all when another connection has.
    [handleDisconnect] makes, for every queue, exactly the calls an explicit
    unsubscribe of that queue makes: one call for each queue of the
    interest-set that no other connection is interested in, none for the
    others. *)
Theorem last_subscriber_teardown (st : Gateway.State)
    (client queueName : string) :
  Gateway.wf st →
  Gateway.subscribed st client queueName = true →
  let unsub := (Gateway.unsubscribeFromQueue st client queueName).2 in
  let disc := (Gateway.handleDisconnect st client).2 in
  (Gateway.othersSubscribed st client queueName = false →
     unsub = [Gateway.ServiceUnsubscribe queueName]
     ∧ Gateway.unsubscribeCalls queueName unsub = 1
     ∧ Gateway.unsubscribeCalls queueName disc = 1)
  ∧ (Gateway.othersSubscribed st client queueName = true →
     unsub = [] ∧ Gateway.unsubscribeCalls queueName disc = 0)
  ∧ (∀ q, Gateway.unsubscribeCalls q disc
          = Gateway.unsubscribeCalls q
              (Gateway.unsubscribeFromQueue st client q).2)
  ∧ (∀ q, Gateway.unsubscribeCalls q disc
          = if Gateway.subscribed st client q
               && negb (Gateway.othersSubscribed st client q)
            then 1 else 0).
Proof.
  intros [Hk Hall] Hs. cbv zeta.
  assert (∃ queues,
            JsMap.get client (Gateway.clientSubscriptions st) = Some queues
            ∧ queueName ∈ queues) as (queues & Hget & Hq).
  { unfold Gateway.subscribed in Hs.
    destruct (JsMap.get client (Gateway.clientSubscriptions st)) as [qs|];
      [|done].
    exists qs. split; [done|]. by apply JsSetFacts.has_true. }
  rewrite (GatewayFacts.unsubscribeFromQueue_subscribed _ _ _ queues) by done.
  cbn [snd]. split_and!.
  - intros Ho. rewrite Ho. split_and!; [done| |].
    { unfold Gateway.unsubscribeCalls. by rewrite filter_cons, decide_True. }
    rewrite GatewayFacts.handleDisconnect_calls by done. by rewrite Hs, Ho.
  - intros Ho. rewrite Ho. split; [done|].
    rewrite GatewayFacts.handleDisconnect_calls by done. by rewrite Hs, Ho.
  - intros q. rewrite GatewayFacts.handleDisconnect_calls by done.
    rewrite GatewayFacts.unsubscribeFromQueue_calls by done.
    by rewrite bool_decide_true.
  - intros q. by apply GatewayFacts.handleDisconnect_calls.
Qed.

(** The theorem on two clients sharing [q2]: [client1] is the last one
    interested in [q1] only. *)
Lemma last_subscriber_teardown_witness :
  let st :=
    {| Gateway.clientSubscriptions :=
         [("client1", ["q1"; "q2"]); ("client2", ["q2"])];
       Gateway.queueHandlers := {["q1"; "q2"]} |} in
  Gateway.wf st
  ∧ Gateway.subscribed st "client1" "q1" = true
  ∧ (Gateway.unsubscribeFromQueue st "client1" "q1").2
    = [Gateway.ServiceUnsubscribe "q1"]
  ∧ Gateway.unsubscribeCalls "q1" (Gateway.handleDisconnect st "client1").2 = 1
  ∧ Gateway.unsubscribeCalls "q2" (Gateway.handleDisconnect st "client1").2 = 0.
Proof.
  cbv zeta.
  match goal with |- Gateway.wf ?s ∧ _ => assert (Gateway.wf s) as Hwf end.
  { apply (bool_decide_unpack _). vm_compute. reflexivity. }
  split; [exact Hwf|]. split; [vm_compute; reflexivity|].
  destruct (last_subscriber_teardown _ "client1" "q1" Hwf eq_refl)
    as (H1 & _ & _ & H4).
  destruct (H1 eq_refl) as (Hu & _ & Hd).
  split; [exact Hu|]. split; [exact Hd|].
  rewrite H4. vm_compute. reflexivity.
Defined.

(** C5.  A subscribe request of a connection whose interest-set already
    contains the queue emits the "already subscribed" confirmation and
    nothing else, returns, leaves the whole state as it is, and does not call
    [queueService.subscribe], whatever that call would have answered. *)
Theorem duplicate_subscribe (st : Gateway.State) (client queueName : string)
    (subscribeResult : Outcome) :
  Gateway.subscribed st client queueName = true →
  Gateway.handleSubscribe st client queueName subscribeResult
  = (st,
     [Gateway.EmitSubscribed client queueName
        "Already subscribed to this queue"],
     Returned)
  ∧ ∀ q, Gateway.subscribeCalls q
           (Gateway.handleSubscribe st client queueName subscribeResult).1.2
         = 0.
Proof.
  intros Hs. unfold Gateway.subscribed in Hs.
  assert (Gateway.handleSubscribe st client queueName subscribeResult
          = (st,
             [Gateway.EmitSubscribed client queueName
                "Already subscribed to this queue"],
             Returned)) as ->.
  { unfold Gateway.handleSubscribe. by rewrite Hs. }
  split; [done|]. intros q. reflexivity.
Qed.

(** The theorem on the state a first successful subscribe leaves. *)
Lemma duplicate_subscribe_witness :
  let st := (Gateway.handleSubscribe
               (Gateway.handleConnection Gateway.initial "client1")
               "client1" "orders" Returned).1.1 in
  Gateway.subscribed st "client1" "orders" = true
  ∧ Gateway.handleSubscribe st "client1" "orders" Returned
    = (st,
       [Gateway.EmitSubscribed "client1" "orders"
          "Already subscribed to this queue"],
       Returned).
Proof.
  cbv zeta. split; [vm_compute; reflexivity|].
  apply (duplicate_subscribe _ "client1" "orders" Returned).
  vm_compute. reflexivity.
Defined.

(** * The polling adapter: lemmas *)
Module SqsFacts.
Import Sqs.

Implicit Types (st : State) (name : string) (p : Closure).

(** ** Handlers run only for live queues *)






Lemma createQueue_fields st name backend :
  let st' := (createQueue st name backend).1.1 in
  pollingIntervals st' = pollingIntervals st
  ∧ subscribedQueues st' = subscribedQueues st
  ∧ timers st' = timers st
  ∧ nextTimer st' = nextTimer st
  ∧ cycles st' = cycles st
  ∧ nextCycle st' = nextCycle st.
Proof. unfold createQueue. by repeat case_match. Qed.

Lemma ensureQueueExists_fields st name backend :
  let st' := (ensureQueueExists st name backend).1.1 in
  pollingIntervals st' = pollingIntervals st
  ∧ subscribedQueues st' = subscribedQueues st
  ∧ timers st' = timers st
  ∧ nextTimer st' = nextTimer st
  ∧ cycles st' = cycles st
  ∧ nextCycle st' = nextCycle st.
Proof.
  unfold ensureQueueExists.
  pose proof (createQueue_fields st name backend) as Hc.
  destruct (createQueue st name backend) as [[st' acts] r].
  by repeat case_match.
Qed.


Lemma pollMessages_fields st p :
  let st' := (pollMessages st p).1 in
  queueUrls st' = queueUrls st
  ∧ pollingIntervals st' = pollingIntervals st
  ∧ subscribedQueues st' = subscribedQueues st
  ∧ timers st' = timers st
  ∧ nextTimer st' = nextTimer st.
Proof. unfold pollMessages. by destruct (isSubscribed st (queueName p)). Qed.




Lemma unsubscribe_result st name :
  (unsubscribe st name).1.2 = [] ∧ (unsubscribe st name).2 = Resolved.
Proof. unfold unsubscribe. by destruct (pollingIntervals _ !! name). Qed.


Lemma clearAll_fields (l : list nat) st :
  let st' := foldr (λ interval s, clearInterval s interval) st l in
  queueUrls st' = queueUrls st
  ∧ pollingIntervals st' = pollingIntervals st
  ∧ subscribedQueues st' = subscribedQueues st
  ∧ nextTimer st' = nextTimer st
  ∧ cycles st' = cycles st
  ∧ nextCycle st' = nextCycle st
  ∧ ∀ t, timers st' !! t
         = if bool_decide (t ∈ l) then None else timers st !! t.
Proof.
  induction l as [|x l IH]; cbn [foldr].
  - by split_and!.
  - cbv zeta in IH. destruct IH as (? & ? & ? & ? & ? & ? & Ht).
    split_and!; [done..|]. intros t. cbn [clearInterval with_timers timers].
    destruct (decide (t = x)) as [->|Hne].
    + rewrite lookup_delete_eq.
      by rewrite bool_decide_true by apply list_elem_of_here.
    + rewrite lookup_delete_ne by done. rewrite Ht.
      apply (f_equal (λ b : bool, if b then None else timers st !! t)).
      apply bool_decide_ext. rewrite elem_of_cons. intuition congruence.
Qed.




(** ** Interval timers *)












(** ** A batch processed on its own *)

Lemma settleAll_None fuel st hr dr : settleAll fuel st hr dr None = [].
Proof. by destruct fuel. Qed.

Lemma settle_processMessages st p hr dr :
  isSubscribed st (queueName p) = true →
  ∀ (messages : list Message) (fuel : nat),
    (2 * length messages ≤ fuel)%nat →
    (processMessages st p messages).1
      ++ settleAll fuel st hr dr (processMessages st p messages).2
    = concat (perMessage p hr dr <$> messages).
Proof.
  intros Hlive. induction messages as [|m rest IH]; intros fuel Hfuel.
  - cbn [processMessages fst snd]. by rewrite settleAll_None.
  - cbn [length] in Hfuel. cbn [processMessages]. rewrite Hlive.
    cbn [fst snd].
    rewrite fmap_cons. cbn [concat]. unfold perMessage at 1.
    destruct fuel as [|n]; [lia|]. cbn [settleAll resume].
    destruct (hr (toQueueMessage m)).
    + destruct (usableReceiptHandle m) as [h|] eqn:Eh.
      * destruct n as [|n']; [lia|]. cbn [settleAll resume].
        rewrite Eh. change (default "" (Some h)) with h.
        destruct (dr h).
        -- destruct (processMessages st p rest) as [a c'] eqn:E.
           cbn [app]. do 2 f_equal.
           apply (IH n'). lia.
        -- destruct (processMessages st p rest) as [a c'] eqn:E.
           cbn [app]. do 3 f_equal.
           apply (IH n'). lia.
      * destruct (processMessages st p rest) as [a c'] eqn:E.
        cbn [app]. f_equal.
        apply (IH n). lia.
    + destruct (processMessages st p rest) as [a c'] eqn:E.
      cbn [app]. do 2 f_equal.
      apply (IH n). lia.
Qed.

Lemma processBatch_spec st p hr dr (messages : list Message) (fuel : nat) :
  isSubscribed st (queueName p) = true →
  (2 * length messages ≤ fuel)%nat →
  processBatch fuel st p hr dr messages
  = concat (perMessage p hr dr <$> messages).
Proof.
  intros Hlive Hfuel. unfold processBatch. cbn [resume]. rewrite Hlive.
  pose proof (settle_processMessages st p hr dr Hlive messages fuel Hfuel)
    as H.
  by destruct (processMessages st p messages).
Qed.

Lemma deletes_perMessage p hr dr m :
  deletes (perMessage p hr dr m)
  = match hr (toQueueMessage m), usableReceiptHandle m with
    | Returned, Some _ => 1
    | _, _ => 0
    end.
Proof.
  unfold perMessage, deletes.
  destruct (hr (toQueueMessage m)); [|done].
  destruct (usableReceiptHandle m) as [h|]; [|done].
  by destruct (dr h).
Qed.

End SqsFacts.

(** * The event-driven adapter: lemmas *)
Module RabbitMqFacts.
Import RabbitMq.

Implicit Types (st : State) (queueName : string).

Lemma rmq_tracked_initial : tracked initial.
Proof.
  unfold tracked, initial, registeredConsumers. cbn. split_and!.
  - by intros ? ? ? H.
  - by intros ? ? ?.
  - by intros ? ? H.
Qed.

Lemma ensureChannel_Some st o st1 a1 ch :
  ensureChannel st o = (st1, a1, Some ch) →
  channel st1 = Some ch ∧ connection st1 = true
  ∧ consumers st1 = consumers st.
Proof.
  unfold ensureChannel.
  destruct (negb (connection st) || negb (bool_decide (is_Some (channel st))))
    eqn:Ec.
  - unfold connect. destruct (connectResult o); [|by intros [=]].
    destruct (createChannelResult o); [|by intros [=]].
    by intros [= <- _ <-].
  - intros [= <- _ Hch]. apply orb_false_iff in Ec as [Hc _].
    apply negb_false_iff in Hc. done.
Qed.

Lemma tracked_ensureChannel st o :
  tracked st → tracked (ensureChannel st o).1.1.
Proof.
  intros Htr. pose proof Htr as (Ht & Hb & Hc). unfold ensureChannel.
  destruct (negb (connection st) || negb (bool_decide (is_Some (channel st))))
    eqn:Ec; [|done].
  assert (∀ q tag, consumers st !! q = Some tag → False) as Hempty.
  { intros q tag Hq. destruct (Hc _ _ Hq) as (Hconn & ch & Hch & _).
    rewrite Hconn, Hch in Ec.
    rewrite bool_decide_true in Ec by by eexists. done. }
  unfold connect. destruct (connectResult o); [|done].
  destruct (createChannelResult o); cbn [fst].
  - split_and!; unfold registeredConsumers; cbn.
    + by intros ? ? ? H.
    + intros tag ch [= <-] [? H]. done.
    + intros q tag Hq. by apply Hempty in Hq.
  - split_and!; unfold registeredConsumers; cbn.
    + apply Ht.
    + apply Hb.
    + intros q tag Hq. by apply Hempty in Hq.
Qed.

Lemma rmq_tracked_unsubscribe st queueName r :
  tracked st → tracked (unsubscribe st queueName r).1.1.
Proof.
  intros Htr. pose proof Htr as (Ht & Hb & Hc). unfold unsubscribe.
  destruct (consumers st !! queueName) as [tag0|] eqn:Ec; [|done].
  destruct (channel st) as [ch|] eqn:Ech; [|done].
  destruct r; [|done]. cbn [fst].
  unfold registeredConsumers in Ht. rewrite Ech in Ht.
  split_and!; unfold registeredConsumers; cbn.
  - intros tag q h Hreg. apply lookup_delete_Some in Hreg as [Hne Hreg].
    pose proof (Ht _ _ _ Hreg) as Hq.
    rewrite lookup_delete_ne; [done|]. intros <-. congruence.
  - intros tag ch' [= <-] [x Hx]. cbn in *.
    apply lookup_delete_Some in Hx as [_ Hx]. by eapply Hb.
  - intros q tag Hq. apply lookup_delete_Some in Hq as [_ Hq].
    destruct (Hc _ _ Hq) as (Hconn & ch' & [= <-] & Hlt).
    split; [done|]. by eexists.
Qed.

(** What the cancel of an existing consumer inside [subscribe] leaves. *)
Lemma subscribe_cancel st queueName o :
  tracked st → is_Some (channel st) →
  let r := if bool_decide (is_Some (consumers st !! queueName))
           then unsubscribe st queueName (cancelResult o)
           else (st, [], Resolved) in
  tracked r.1.1
  ∧ connection r.1.1 = connection st
  ∧ (r.2 = Resolved →
     consumers r.1.1 !! queueName = None
     ∧ ∃ ch, channel st = Some ch
         ∧ channel r.1.1
           = Some {| registered :=
                       match consumers st !! queueName with
                       | Some old => delete old (registered ch)
                       | None => registered ch
                       end;
                     nextTag := nextTag ch |}
         ∧ r.1.2 = match consumers st !! queueName with
                   | Some old => [Cancel old]
                   | None => []
                   end).
Proof.
  intros Htr [ch Hch]. cbv zeta. case_bool_decide as Hc.
  - split; [by apply rmq_tracked_unsubscribe|].
    unfold unsubscribe. destruct Hc as [old Hold]. rewrite Hold, Hch.
    destruct (cancelResult o); cbn; [|done].
    split; [done|]. intros _. split; [apply lookup_delete_eq|].
    by exists ch.
  - cbn. split_and!; [done|done|]. intros _.
    apply eq_None_not_Some in Hc. rewrite Hc. split; [done|].
    exists ch. split_and!; [done| |done]. rewrite Hch. by destruct ch.
Qed.

Lemma rmq_subscribe_resolved st queueName handler o :
  tracked st →
  (subscribe st queueName handler o).2 = Resolved →
  let st' := (subscribe st queueName handler o).1.1 in
  tracked st'
  ∧ ∃ new,
      consumers st' !! queueName = Some new
      ∧ registeredConsumers st' !! new = Some (queueName, handler)
      ∧ ∀ old, consumers st !! queueName = Some old →
               new ≠ old
               ∧ registeredConsumers st' !! old = None
               ∧ ∃ pre, (subscribe st queueName handler o).1.2
                        = pre ++ [AssertQueue queueName; Cancel old;
                                  Consume queueName].
Proof.
  intros Htr. unfold subscribe.
  pose proof (tracked_ensureChannel st o Htr) as Htr1.
  destruct (ensureChannel st o) as [[st1 a1] ch] eqn:Ee. cbn [fst] in Htr1.
  destruct ch as [ch|]; [|done].
  apply ensureChannel_Some in Ee as (Hch1 & Hconn1 & Hcons1).
  destruct (assertQueueResult o); [|done].
  pose proof (subscribe_cancel st1 queueName o Htr1 ltac:(by eexists))
    as Hcancel. cbv zeta in Hcancel.
  destruct (if bool_decide (is_Some (consumers st1 !! queueName))
            then unsubscribe st1 queueName (cancelResult o)
            else (st1, [], Resolved)) as [[st2 a2] r2].
  cbn [fst snd] in Hcancel. destruct Hcancel as (Htr2 & Hconn2 & Hres).
  destruct r2; [|done].
  destruct (Hres eq_refl) as (Hnone & ch' & Hch' & Hch2 & Ha2).
  rewrite Hch1 in Hch'. injection Hch' as <-.
  destruct (consumeResult o); [|done]. rewrite Hch2. cbn [fst snd].
  intros _. pose proof Htr1 as (Ht1 & Hb1 & Hc1).
  pose proof Htr2 as (Ht2 & Hb2 & Hc2).
  unfold registeredConsumers in Ht2. rewrite Hch2 in Ht2. cbn in Ht2.
  assert (tracked
            {| connection := connection st2;
               channel :=
                 Some {| registered :=
                           <[nextTag ch := (queueName, handler)]>
                             match consumers st1 !! queueName with
                             | Some old => delete old (registered ch)
                             | None => registered ch
                             end;
                         nextTag := S (nextTag ch) |};
               consumers := <[queueName := nextTag ch]> (consumers st2) |})
    as Htr'.
  { split_and!; unfold registeredConsumers; cbn.
    - intros tag q h Hreg.
      apply lookup_insert_Some in Hreg as [[<- [= <- <-]]|[Hne Hreg]].
      + apply lookup_insert_eq.
      + pose proof (Ht2 _ _ _ Hreg) as Hq.
        rewrite lookup_insert_ne; [done|]. intros <-. congruence.
    - intros tag ch0 [= <-] [x Hx]. cbn in *.
      apply lookup_insert_Some in Hx as [[<- _]|[_ Hx]]; [lia|].
      assert (tag < nextTag ch); [|lia].
      apply (Hb2 tag _ Hch2). cbn. by eexists.
    - intros q tag Hq. split; [by rewrite Hconn2|].
      eexists. split; [done|]. cbn.
      apply lookup_insert_Some in Hq as [[_ <-]|[_ Hq]]; [lia|].
      destruct (Hc2 _ _ Hq) as (_ & ch0 & Hch0 & Hlt).
      rewrite Hch2 in Hch0. injection Hch0 as <-. cbn in Hlt. lia. }
  split; [exact Htr'|]. exists (nextTag ch). split_and!.
  - cbn. apply lookup_insert_eq.
  - unfold registeredConsumers. cbn. apply lookup_insert_eq.
  - intros old Hold. rewrite <- Hcons1 in Hold.
    destruct (Hc1 _ _ Hold) as (_ & ch0 & Hch0 & Hlt).
    rewrite Hch1 in Hch0. injection Hch0 as <-.
    split_and!; [lia| |].
    + unfold registeredConsumers. cbn. rewrite Hold.
      rewrite lookup_insert_ne by lia. apply lookup_delete_eq.
    + rewrite Ha2, Hold. by exists a1.
Qed.

Lemma rmq_tracked_subscribe st queueName handler o :
  tracked st → tracked (subscribe st queueName handler o).1.1.
Proof.
  intros Htr.
  destruct ((subscribe st queueName handler o).2) eqn:Er.
  - by apply rmq_subscribe_resolved.
  - revert Er. unfold subscribe.
    pose proof (tracked_ensureChannel st o Htr) as Htr1.
    destruct (ensureChannel st o) as [[st1 a1] ch] eqn:Ee.
    cbn [fst] in Htr1. destruct ch as [ch|]; [|done].
    apply ensureChannel_Some in Ee as (Hch1 & _ & _).
    destruct (assertQueueResult o); [|done].
    pose proof (subscribe_cancel st1 queueName o Htr1 ltac:(by eexists))
      as Hcancel. cbv zeta in Hcancel.
    destruct (if bool_decide (is_Some (consumers st1 !! queueName))
              then unsubscribe st1 queueName (cancelResult o)
              else (st1, [], Resolved)) as [[st2 a2] r2].
    cbn [fst snd] in Hcancel. destruct Hcancel as (Htr2 & _ & _).
    destruct r2; [|done].
    destruct (consumeResult o); [|done].
    by destruct (channel st2).
Qed.

Lemma tracked_call st c : tracked st → tracked (call st c).1.
Proof.
  intros Htr. destruct c; cbn [call].
  - by apply rmq_tracked_subscribe.
  - by apply rmq_tracked_unsubscribe.
Qed.

Lemma rmq_tracked_run (calls : list Call) : ∀ st,
  tracked st → tracked (run st calls).1.
Proof.
  induction calls as [|c calls IH]; intros st Htr; cbn [run]; [done|].
  destruct (call st c) as [st1 a1] eqn:E1.
  destruct (run st1 calls) as [st2 a2] eqn:E2. cbn [fst].
  replace st2 with (run st1 calls).1 by by rewrite E2.
  apply IH. replace st1 with (call st c).1 by by rewrite E1.
  by apply tracked_call.
Qed.


End RabbitMqFacts.

(** * The adapters: properties of the specification *)

(** C6 (amended).  While the queue stays subscribed, a received batch is
    processed message by message: the handler is called once for each
    message; if it throws, the error is logged, no delete is sent for that
    message and the loop goes on with the next one; if it returns, one delete
    is sent when the message carries a non-empty receipt handle and none when
    it does not.  In the RabbitMQ consume callback a handler that throws is
    followed by exactly one [nack(msg, false, true)] and no [ack]; a handler
    that returns is followed by exactly one [ack]. *)
Theorem handler_outcome_decides_acknowledgement {Number : Type}
    (numberToString : Number → string)
    (st : Sqs.State) (p : Sqs.Closure)
    (handlerResult : QueueMessage → Outcome) (deleteResult : string → Outcome)
    (messages : list Sqs.Message) (fuel : nat)
    (queueName : string) (handler : nat)
    (msg : RabbitMq.ConsumeMessage Number) (ackResult : Outcome) :
  Sqs.isSubscribed st (Sqs.queueName p) = true →
  (2 * length messages ≤ fuel)%nat →
  Sqs.processBatch fuel st p handlerResult deleteResult messages
  = concat (Sqs.perMessage p handlerResult deleteResult <$> messages)
  ∧ (∀ m, Sqs.deletes (Sqs.perMessage p handlerResult deleteResult m)
          = match handlerResult (Sqs.toQueueMessage m),
                  Sqs.usableReceiptHandle m with
            | Returned, Some _ => 1
            | _, _ => 0
            end)
  ∧ RabbitMq.onMessage numberToString queueName handler (Some msg) Threw
      ackResult
    = [RabbitMq.InvokeHandler handler queueName
         (RabbitMq.toQueueMessage numberToString msg);
       RabbitMq.LogError RabbitMq.handlerErrorText;
       RabbitMq.Nack (RabbitMq.deliveryTag msg) false true]
  ∧ RabbitMq.count RabbitMq.isNackRequeue
      (RabbitMq.onMessage numberToString queueName handler (Some msg)
         Threw ackResult) = 1
  ∧ RabbitMq.count RabbitMq.isNack
      (RabbitMq.onMessage numberToString queueName handler (Some msg)
         Threw ackResult) = 1
  ∧ RabbitMq.count RabbitMq.isAck
      (RabbitMq.onMessage numberToString queueName handler (Some msg)
         Threw ackResult) = 0
  ∧ RabbitMq.count RabbitMq.isAck
      (RabbitMq.onMessage numberToString queueName handler (Some msg)
         Returned ackResult) = 1
  ∧ RabbitMq.onMessage numberToString queueName handler (Some msg) Returned
      Returned
    = [RabbitMq.InvokeHandler handler queueName
         (RabbitMq.toQueueMessage numberToString msg);
       RabbitMq.Ack (RabbitMq.deliveryTag msg)].
Proof.
  intros Hlive Hfuel. split_and!.
  - by apply SqsFacts.processBatch_spec.
  - intros m. apply SqsFacts.deletes_perMessage.
  - reflexivity.
  - reflexivity.
  - reflexivity.
  - reflexivity.
  - by destruct ackResult.
  - reflexivity.
Qed.

(** The theorem on a batch of two messages of which the handler rejects the
    first. *)
Lemma handler_outcome_decides_acknowledgement_witness :
  let backend :=
    {| Sqs.getQueueUrlAnswer :=
         Sqs.GetQueueUrlOutput (Some "http://localhost:4566/000000000000/orders");
       Sqs.createQueueAnswer := Sqs.CreateQueueFailed |} in
  let st := (Sqs.subscribe Sqs.initial "orders" 1 backend).1.1 in
  let p :=
    {| Sqs.queueName := "orders";
       Sqs.queueUrl := "http://localhost:4566/000000000000/orders";
       Sqs.handler := 1 |} in
  let good :=
    {| Sqs.MessageId := Some "msg-1"; Sqs.ReceiptHandle := Some "receipt-1";
       Sqs.Body := Some "one"; Sqs.MessageAttributes := None |} in
  let bad :=
    {| Sqs.MessageId := Some "msg-2"; Sqs.ReceiptHandle := Some "receipt-2";
       Sqs.Body := Some "two"; Sqs.MessageAttributes := None |} in
  let handlerResult (m : QueueMessage) :=
    if decide (body m = "two") then Threw else Returned in
  Sqs.isSubscribed st "orders" = true
  ∧ Sqs.processBatch 4 st p handlerResult (λ _, Returned) [bad; good]
    = [Sqs.InvokeHandler 1 "orders" (Sqs.toQueueMessage bad);
       Sqs.LogError Sqs.handlerErrorText;
       Sqs.InvokeHandler 1 "orders" (Sqs.toQueueMessage good);
       Sqs.SendDeleteMessage "http://localhost:4566/000000000000/orders"
         "receipt-1"].
Proof.
  cbv zeta. split; [vm_compute; reflexivity|].
  match goal with
  | |- Sqs.processBatch ?f ?s ?p ?hr ?dr ?ms = _ =>
      destruct (handler_outcome_decides_acknowledgement
                  (λ n : nat, "0") s p hr dr ms f "orders" 1
                  {| RabbitMq.content := "x"; RabbitMq.headers := None;
                     RabbitMq.messageId := None; RabbitMq.deliveryTag := 1 |}
                  Returned) as (H & _)
  end.
  - vm_compute. reflexivity.
  - cbn. lia.
  - rewrite H. vm_compute. reflexivity.
Defined.

(** C6 as stated fails for the polling adapter: a message without a receipt
    handle is handed to a handler that returns, and no delete is sent. *)
Lemma no_delete_without_receipt_handle :
  let backend :=
    {| Sqs.getQueueUrlAnswer :=
         Sqs.GetQueueUrlOutput (Some "http://localhost:4566/000000000000/orders");
       Sqs.createQueueAnswer := Sqs.CreateQueueFailed |} in
  let st := (Sqs.subscribe Sqs.initial "orders" 1 backend).1.1 in
  let p :=
    {| Sqs.queueName := "orders";
       Sqs.queueUrl := "http://localhost:4566/000000000000/orders";
       Sqs.handler := 1 |} in
  let message :=
    {| Sqs.MessageId := Some "msg-1"; Sqs.ReceiptHandle := None;
       Sqs.Body := Some "hello"; Sqs.MessageAttributes := None |} in
  let trace :=
    Sqs.processBatch 2 st p (λ _, Returned) (λ _, Returned) [message] in
  Sqs.isSubscribed st "orders" = true
  ∧ trace = [Sqs.InvokeHandler 1 "orders"
               {| id := Some "msg-1"; body := "hello"; attributes := None |}]
  ∧ Sqs.deletes trace = 0.
Proof. cbv zeta. split_and!; vm_compute; reflexivity. Qed.






(** C9.  A gateway unsubscribe for a queue that is not in the connection's
    interest-set leaves the state as it is, calls nothing on the queue
    service and emits the success confirmation.  The polling adapter's
    [unsubscribe] always resolves and never sends a command to the backend,
    and changes nothing when the queue has no interval and is not live.  The
    event-driven adapter's [unsubscribe] of a queue without a recorded
    consumer resolves, changes nothing and does nothing on the channel. *)
Theorem unsubscribe_idempotent (gw : Gateway.State) (client queueName : string)
    (sqs : Sqs.State) (rmq : RabbitMq.State) (cancelOutcome : Outcome) :
  (Gateway.subscribed gw client queueName = false →
   Gateway.handleUnsubscribe gw client queueName
   = (gw, [Gateway.EmitUnsubscribed client queueName
             "Successfully unsubscribed from queue"]))
  ∧ (Sqs.unsubscribe sqs queueName).1.2 = []
  ∧ (Sqs.unsubscribe sqs queueName).2 = Sqs.Resolved
  ∧ (Sqs.pollingIntervals sqs !! queueName = None →
     queueName ∉ Sqs.subscribedQueues sqs →
     (Sqs.unsubscribe sqs queueName).1.1 = sqs)
  ∧ (RabbitMq.consumers rmq !! queueName = None →
     RabbitMq.unsubscribe rmq queueName cancelOutcome
     = (rmq, [], RabbitMq.Resolved)).
Proof.
  split_and!.
  - intros Hs. unfold Gateway.handleUnsubscribe.
    by rewrite GatewayFacts.unsubscribeFromQueue_not_subscribed.
  - apply SqsFacts.unsubscribe_result.
  - apply SqsFacts.unsubscribe_result.
  - intros Hnone Hq. unfold Sqs.unsubscribe. cbn. rewrite Hnone. cbn.
    unfold Sqs.with_subscribedQueues.
    replace (Sqs.subscribedQueues sqs ∖ {[queueName]})
      with (Sqs.subscribedQueues sqs) by set_solver.
    by destruct sqs.
  - intros Hnone. unfold RabbitMq.unsubscribe. by rewrite Hnone.
Qed.

(** The theorem on a gateway with one client without subscriptions and on
    fresh adapters. *)
Lemma unsubscribe_idempotent_witness :
  let gw := Gateway.handleConnection Gateway.initial "client1" in
  Gateway.subscribed gw "client1" "orders" = false
  ∧ Gateway.handleUnsubscribe gw "client1" "orders"
    = (gw, [Gateway.EmitUnsubscribed "client1" "orders"
              "Successfully unsubscribed from queue"])
  ∧ (Sqs.unsubscribe Sqs.initial "orders").1.1 = Sqs.initial
  ∧ RabbitMq.unsubscribe RabbitMq.initial "orders" Threw
    = (RabbitMq.initial, [], RabbitMq.Resolved).
Proof.
  cbv zeta.
  destruct (unsubscribe_idempotent
              (Gateway.handleConnection Gateway.initial "client1")
              "client1" "orders" Sqs.initial RabbitMq.initial Threw)
    as (Hg & _ & _ & Hs & Hr).
  split; [vm_compute; reflexivity|]. split; [apply Hg; vm_compute; reflexivity|].
  split.
  - apply Hs; [reflexivity|]. apply not_elem_of_empty.
  - apply Hr. reflexivity.
Defined.

(** C10.  The message the polling adapter hands to a handler has the
    backend body, or the empty string when the backend message has none; its
    attributes hold exactly the backend attributes that have a string value,
    and are absent rather than empty.  The message the event-driven adapter
    hands over has the decoded content as body; its attributes hold, for
    every header, the string itself, the string form of a number, ["true"]
    or ["false"] for a boolean, and nothing for a value of another type, and
    are absent rather than empty. *)
Theorem delivered_message_shape {Number : Type}
    (numberToString : Number → string)
    (message : Sqs.Message) (msg : RabbitMq.ConsumeMessage Number) :
  let fromSqs := Sqs.toQueueMessage message in
  let fromRmq := RabbitMq.toQueueMessage numberToString msg in
  body fromSqs = default "" (Sqs.Body message)
  ∧ (Sqs.Body message = None → body fromSqs = "")
  ∧ attributes fromSqs ≠ Some ∅
  ∧ (∀ key,
       default ∅ (attributes fromSqs) !! key
       = default ∅ (Sqs.MessageAttributes message) !! key
           ≫= Sqs.StringValue)
  ∧ body fromRmq = RabbitMq.content msg
  ∧ attributes fromRmq ≠ Some ∅
  ∧ (∀ key,
       default ∅ (attributes fromRmq) !! key
       = match default ∅ (RabbitMq.headers msg) !! key with
         | Some (RabbitMq.HString s) => Some s
         | Some (RabbitMq.HNumber n) => Some (numberToString n)
         | Some (RabbitMq.HBoolean true) => Some "true"
         | Some (RabbitMq.HBoolean false) => Some "false"
         | Some RabbitMq.HOther => None
         | None => None
         end).
Proof.
  assert (∀ attrs : gmap string string,
            Sqs.nonEmpty attrs ≠ Some ∅
            ∧ default ∅ (Sqs.nonEmpty attrs) = attrs) as Hne.
  { intros attrs. unfold Sqs.nonEmpty. case_decide as Hsz.
    - split; [|done]. intros [= ->]. rewrite map_size_empty in Hsz. lia.
    - split; [done|]. cbn. symmetry. apply map_size_empty_iff. lia. }
  cbv zeta. split_and!.
  - reflexivity.
  - cbn. by intros ->.
  - apply Hne.
  - intros key. cbn [attributes Sqs.toQueueMessage].
    destruct (Hne (Sqs.flatAttributes (Sqs.MessageAttributes message)))
      as [_ ->].
    unfold Sqs.flatAttributes.
    destruct (Sqs.MessageAttributes message) as [entries|]; cbn.
    + by rewrite lookup_omap.
    + by rewrite !lookup_empty.
  - reflexivity.
  - apply Hne.
  - intros key. cbn [attributes RabbitMq.toQueueMessage].
    change (RabbitMq.nonEmpty ?a) with (Sqs.nonEmpty a).
    destruct (Hne (RabbitMq.flatAttributes numberToString
                     (RabbitMq.headers msg))) as [_ ->].
    unfold RabbitMq.flatAttributes.
    destruct (RabbitMq.headers msg) as [entries|]; cbn.
    + rewrite lookup_omap.
      destruct (entries !! key) as [[s|n|[]|]|]; reflexivity.
    + by rewrite !lookup_empty.
Qed.

(** The theorem on a backend message without body whose only attribute has
    no string value, and on a delivery with a number, a boolean and another
    header. *)
Lemma delivered_message_shape_witness :
  let message :=
    {| Sqs.MessageId := Some "msg-1"; Sqs.ReceiptHandle := Some "receipt-1";
       Sqs.Body := None;
       Sqs.MessageAttributes :=
         Some {[ "k" := {| Sqs.DataType := Some "Number";
                           Sqs.StringValue := None |} ]} |} in
  let msg :=
    {| RabbitMq.content := "hello";
       RabbitMq.headers :=
         Some {[ "count" := RabbitMq.HNumber 3;
                 "retry" := RabbitMq.HBoolean true;
                 "trace" := RabbitMq.HOther ]};
       RabbitMq.messageId := None; RabbitMq.deliveryTag := 7 |} in
  let decimal (n : nat) := if decide (n = 3) then "3" else "?" in
  Sqs.toQueueMessage message
  = {| id := Some "msg-1"; body := ""; attributes := None |}
  ∧ default ∅ (attributes (RabbitMq.toQueueMessage decimal msg)) !! "count"
    = Some "3"
  ∧ default ∅ (attributes (RabbitMq.toQueueMessage decimal msg)) !! "retry"
    = Some "true"
  ∧ default ∅ (attributes (RabbitMq.toQueueMessage decimal msg)) !! "trace"
    = None.
Proof.
  cbv zeta. split; [vm_compute; reflexivity|].
  match goal with
  | |- default ∅ (attributes (RabbitMq.toQueueMessage ?f ?m)) !! _ = _ ∧ _ =>
      destruct (delivered_message_shape f
                  {| Sqs.MessageId := None; Sqs.ReceiptHandle := None;
                     Sqs.Body := None; Sqs.MessageAttributes := None |} m)
        as (_ & _ & _ & _ & _ & _ & H)
  end.
  split; [rewrite H; vm_compute; reflexivity|].
  split; [rewrite H; vm_compute; reflexivity|].
  rewrite H; vm_compute; reflexivity.
Defined.

(** * Further properties of the gateway *)
Module GatewayMore.
Import Gateway.

Implicit Types (st : State) (client queueName : string).

Lemma wf_settleUnsubscribes results st (effects : list Effect) :
  wf st → wf (settleUnsubscribes results st effects).
Proof.
  unfold settleUnsubscribes. revert st.
  induction effects as [|e effects IH]; intros st Hwf; cbn [foldl]; [done|].
  apply IH. destruct e as [| | | | |q|]; try done.
  unfold unsubscribeSettled. by destruct (results q).
Qed.

Lemma settleUnsubscribes_app results st (e1 e2 : list Effect) :
  settleUnsubscribes results st (e1 ++ e2)
  = settleUnsubscribes results (settleUnsubscribes results st e1) e2.
Proof. unfold settleUnsubscribes. by rewrite foldl_app. Qed.

Lemma handle_keeps st r :
  wf st → consistent st → GatewayRun.fresh st r →
  wf (GatewayRun.handle st r).1 ∧ consistent (GatewayRun.handle st r).1.
Proof.
  intros Hwf Hc Hfresh. destruct r as [c|c|c q|c q|c q m]; cbn [GatewayRun.handle].
  - split; [by apply GatewayFacts.wf_handleConnection|].
    by apply GatewayFacts.consistent_handleConnection.
  - pose proof (GatewayFacts.wf_handleDisconnect st c Hwf) as Hwf'.
    pose proof (GatewayFacts.consistent_handleDisconnect st c Hwf Hc) as Hc'.
    destruct (handleDisconnect st c) as [st' effects]. cbn [fst snd] in *.
    split; [by apply wf_settleUnsubscribes|done].
  - split; [by apply GatewayFacts.wf_handleSubscribe|].
    by apply GatewayFacts.consistent_handleSubscribe.
  - unfold handleUnsubscribe.
    pose proof (GatewayFacts.wf_unsubscribeFromQueue st c q Hwf) as Hwf'.
    pose proof (GatewayFacts.consistent_unsubscribeFromQueue st c q Hwf Hc)
      as Hc'.
    destruct (unsubscribeFromQueue st c q) as [st' effects].
    cbn [fst snd] in *. rewrite settleUnsubscribes_app.
    change (settleUnsubscribes _ ?s [EmitUnsubscribed _ _ _]) with s.
    split; [by apply wf_settleUnsubscribes|done].
  - done.
Qed.

Lemma run_keeps (requests : list GatewayRun.Request) : ∀ st,
  wf st → consistent st → GatewayRun.admissible st requests →
  wf (GatewayRun.run st requests).1
  ∧ consistent (GatewayRun.run st requests).1.
Proof.
  induction requests as [|r requests IH]; intros st Hwf Hc Hadm;
    cbn [GatewayRun.run]; [done|].
  destruct Hadm as [Hfresh Hadm].
  destruct (handle_keeps st r Hwf Hc Hfresh) as [Hwf1 Hc1].
  destruct (GatewayRun.handle st r) as [st1 e1]. cbn [fst] in *.
  specialize (IH st1 Hwf1 Hc1 Hadm).
  by destruct (GatewayRun.run st1 requests).
Qed.

Lemma consistent_initial : consistent initial.
Proof.
  intros q. split.
  - intros Hq. by apply not_elem_of_empty in Hq.
  - by intros (c & qs & Hget & _).
Qed.

Lemma subscribeCalls_single q q' :
  subscribeCalls q' [ServiceSubscribe q] = if decide (q = q') then 1 else 0.
Proof.
  unfold subscribeCalls. rewrite filter_cons. case_decide as Hq.
  - simplify_eq. by rewrite decide_True.
  - by rewrite decide_False by congruence.
Qed.

(** The same count as for the handler's trace, without the sockets: what
    one run of the handler emits to one client. *)
Lemma handler_deliveries sockets emitOk st queueName message c :
  wf st → (∀ c, emitOk c = true) →
  deliveries c queueName message
    (handler sockets emitOk st queueName message).1
  = if subscribed st c queueName && bool_decide (c ∈ sockets) then 1 else 0.
Proof.
  intros [Hk _] Hok. unfold handler.
  rewrite GatewayFacts.deliver_ok by done. cbn [fst].
  fold (recipients sockets st queueName).
  rewrite GatewayFacts.deliveries_messageEvents
    by by apply GatewayFacts.recipients_NoDup.
  pose proof (GatewayFacts.recipients_spec sockets st queueName c Hk) as Hspec.
  destruct (decide (c ∈ recipients sockets st queueName)) as [Hin|Hnin].
  - rewrite bool_decide_true by done. apply Hspec in Hin as [-> Hs].
    by rewrite bool_decide_true.
  - rewrite bool_decide_false by done.
    destruct (subscribed st c queueName); [|done].
    rewrite bool_decide_false; [done|]. intros Hs. by apply Hnin, Hspec.
Qed.

Lemma handleSubscribe_subscribed st client queueName r c q :
  subscribed (handleSubscribe st client queueName r).1.1 c q
  = subscribed st c q
    || (bool_decide (c = client ∧ q = queueName)
        && bool_decide ((handleSubscribe st client queueName r).2 = Returned)).
Proof.
  unfold handleSubscribe.
  destruct (from_option (JsSet.has queueName) false
              (JsMap.get client (clientSubscriptions st))) eqn:Eh.
  { cbn [fst snd]. rewrite (bool_decide_true (Returned = Returned)) by done.
    rewrite andb_true_r. case_bool_decide as Hcq; [|by rewrite orb_false_r].
    destruct Hcq as [-> ->]. unfold subscribed. by rewrite Eh. }
  assert (∀ s, clientSubscriptions s = clientSubscriptions st →
            subscribed
              (with_subscriptions s
                 (JsMap.set client
                    match JsMap.get client (clientSubscriptions st) with
                    | Some qs => JsSet.add queueName qs
                    | None => [queueName]
                    end (clientSubscriptions s))) c q
            = subscribed st c q || bool_decide (c = client ∧ q = queueName))
    as Hadd.
  { intros s Hs. rewrite GatewayFacts.subscribed_set. case_decide as Hc.
    - subst c. unfold subscribed.
      destruct (JsMap.get client (clientSubscriptions st)) as [qs|]; cbn.
      + apply eq_true_iff_eq.
        rewrite JsSetFacts.has_true, JsSetFacts.elem_of_add,
          orb_true_iff, JsSetFacts.has_true, bool_decide_eq_true.
        tauto.
      + apply eq_true_iff_eq.
        rewrite JsSetFacts.has_true, list_elem_of_singleton,
          bool_decide_eq_true.
        tauto.
    - rewrite (bool_decide_false (c = client ∧ q = queueName))
        by (intros [? ?]; congruence).
      rewrite orb_false_r. unfold subscribed. by rewrite Hs. }
  destruct (bool_decide (queueName ∈ queueHandlers st)); [|destruct r];
    cbn [fst snd].
  - rewrite (bool_decide_true (Returned = Returned)) by done.
    rewrite andb_true_r. by apply Hadd.
  - rewrite (bool_decide_true (Returned = Returned)) by done.
    rewrite andb_true_r. by apply Hadd.
  - rewrite (bool_decide_false (Threw = Returned)) by done.
    by rewrite andb_false_r, orb_false_r.
Qed.

Lemma handleUnsubscribe_subscribed st client queueName c q :
  subscribed (handleUnsubscribe st client queueName).1 c q
  = subscribed st c q && negb (bool_decide (c = client ∧ q = queueName)).
Proof.
  unfold handleUnsubscribe.
  pose proof (GatewayFacts.unsubscribeFromQueue_subscribed_after
                st client queueName q) as Hsame.
  pose proof (λ H, GatewayFacts.unsubscribeFromQueue_subscribed_other
                     st client queueName c q H) as Hother.
  destruct (unsubscribeFromQueue st client queueName) as [st' effects].
  cbn [fst] in *. destruct (decide (c = client)) as [->|Hne].
  - rewrite Hsame. f_equal. destruct (decide (q = queueName)) as [->|Hq].
    + rewrite bool_decide_false by (intros H; by apply H).
      by rewrite bool_decide_true.
    + rewrite bool_decide_true by done.
      by rewrite bool_decide_false by (intros [_ ?]; done).
  - rewrite Hother by done.
    rewrite bool_decide_false by (intros [? _]; done).
    by rewrite andb_true_r.
Qed.

Lemma handleUnsubscribe_keys st client queueName :
  JsMap.keys (clientSubscriptions (handleUnsubscribe st client queueName).1)
  = JsMap.keys (clientSubscriptions st).
Proof.
  unfold handleUnsubscribe.
  pose proof (GatewayFacts.unsubscribeFromQueue_keys st client queueName).
  by destruct (unsubscribeFromQueue st client queueName).
Qed.

Lemma handleDisconnect_get st client :
  wf st →
  JsMap.get client (clientSubscriptions (handleDisconnect st client).1) = None.
Proof.
  intros Hwf. unfold handleDisconnect.
  destruct (JsMap.get client (clientSubscriptions st)) as [queues|] eqn:E;
    [|done].
  pose proof (GatewayFacts.wf_unsubscribeAll client queues st Hwf) as [Hk _].
  destruct (unsubscribeAll st client queues) as [st' effects].
  cbn [fst] in *. by apply JsMapFacts.get_delete_eq.
Qed.

Lemma handleDisconnect_handlers st client :
  queueHandlers (handleDisconnect st client).1 = queueHandlers st.
Proof.
  unfold handleDisconnect.
  destruct (JsMap.get client (clientSubscriptions st)) as [queues|]; [|done].
  pose proof (GatewayFacts.unsubscribeAll_handlers client queues st) as Hh.
  by destruct (unsubscribeAll st client queues).
Qed.

(** The delivery loop emits to the clients of its list only, whether or not
    an [emit] throws. *)
Lemma deliver_only_targets sockets emitOk queueName message c
    (l : list string) :
  c ∉ l → deliveries c queueName message
            (deliver sockets emitOk queueName message l).1 = 0.
Proof.
  unfold deliveries. induction l as [|x l IH]; intros Hc; [done|].
  apply not_elem_of_cons in Hc as [Hne Hc]. cbn [deliver].
  destruct (bool_decide (x ∈ sockets)); [|by apply IH].
  destruct (emitOk x); [|done]. specialize (IH Hc).
  destruct (deliver sockets emitOk queueName message l) as [es r].
  cbn [fst] in *. rewrite filter_cons, decide_False by congruence. done.
Qed.





End GatewayMore.

(** * The gateway: further properties *)

(** X1.  Served one request after the other by a queue service that
    resolves every call, with connection ids that are new when they connect,
    the gateway keeps its registry invariant: [queueHandlers] has a key
    exactly for the queues some connection is interested in, and the maps
    stay free of duplicates. *)
Theorem registry_kept_over_requests (requests : list GatewayRun.Request)
    (st : Gateway.State) :
  Gateway.wf st →
  Gateway.consistent st →
  GatewayRun.admissible st requests →
  Gateway.wf (GatewayRun.run st requests).1
  ∧ Gateway.consistent (GatewayRun.run st requests).1.
Proof. apply GatewayMore.run_keeps. Qed.

(** The theorem on two connections sharing a queue, from the fresh
    gateway. *)
Lemma registry_kept_over_requests_witness :
  let requests :=
    [GatewayRun.Connect "a"; GatewayRun.Connect "b";
     GatewayRun.SubscribeRequest "a" "orders";
     GatewayRun.SubscribeRequest "b" "orders";
     GatewayRun.UnsubscribeRequest "a" "orders";
     GatewayRun.Disconnect "b"] in
  GatewayRun.admissible Gateway.initial requests
  ∧ Gateway.wf (GatewayRun.run Gateway.initial requests).1
  ∧ Gateway.consistent (GatewayRun.run Gateway.initial requests).1.
Proof.
  cbv zeta.
  match goal with |- ?A ∧ _ => assert A as Hadm end.
  { cbn. repeat split. }
  split; [exact Hadm|].
  exact (registry_kept_over_requests _ Gateway.initial
           GatewayFacts.wf_initial GatewayMore.consistent_initial Hadm).
Defined.

(** X2.  A subscribe request calls [queueService.subscribe] at most once,
    for the requested queue only, and only when the connection is not yet
    subscribed and the queue has no handler.  When the queue has a handler
    the request is confirmed whatever the queue service would answer, and
    the handlers are left as they are. *)
Theorem backend_subscribe_only_for_new_queue (st : Gateway.State)
    (client queueName : string) (subscribeResult : Outcome) :
  let out := Gateway.handleSubscribe st client queueName subscribeResult in
  (∀ q, Gateway.subscribeCalls q out.1.2
        = if bool_decide (q = queueName)
             && negb (Gateway.subscribed st client queueName)
             && negb (bool_decide (queueName ∈ Gateway.queueHandlers st))
          then 1 else 0)
  ∧ (queueName ∈ Gateway.queueHandlers st →
     out.2 = Returned
     ∧ Gateway.queueHandlers out.1.1 = Gateway.queueHandlers st).
Proof.
  cbv zeta. unfold Gateway.handleSubscribe, Gateway.subscribed.
  destruct (from_option _ _ _).
  { split; [|done]. intros q. by rewrite andb_false_r. }
  case_bool_decide as Hin.
  { split; [|done]. intros q. by rewrite andb_false_r. }
  split; [|done]. intros q. rewrite !andb_true_r.
  assert (∀ rest,
            Forall (λ e, ∀ q', e ≠ Gateway.ServiceSubscribe q') rest →
            Gateway.subscribeCalls q (Gateway.ServiceSubscribe queueName :: rest)
            = if bool_decide (q = queueName) then 1 else 0) as Hcount.
  { intros rest Hrest. unfold Gateway.subscribeCalls. rewrite filter_cons.
    assert (filter (λ e, e = Gateway.ServiceSubscribe q) rest = []) as ->.
    { induction Hrest as [|e rest He _ IH]; [done|].
      by rewrite filter_cons, decide_False. }
    case_decide as Hq; simplify_eq.
    - by rewrite bool_decide_true.
    - by rewrite bool_decide_false by congruence. }
  destruct subscribeResult; cbn [fst snd]; apply Hcount.
  - by repeat constructor.
  - constructor.
Qed.

(** The second connection subscribing to a queue: no call of the queue
    service, and a rejecting queue service goes unnoticed. *)
Lemma backend_subscribe_only_for_new_queue_witness :
  let st :=
    {| Gateway.clientSubscriptions := [("a", ["orders"]); ("b", [])];
       Gateway.queueHandlers := {["orders"]} |} in
  Gateway.subscribeCalls "orders"
    (Gateway.handleSubscribe st "b" "orders" Threw).1.2 = 0
  ∧ Gateway.subscribeCalls "invoices"
      (Gateway.handleSubscribe st "b" "invoices" Returned).1.2 = 1
  ∧ (Gateway.handleSubscribe st "b" "orders" Threw).2 = Returned.
Proof.
  cbv zeta. split; [|split].
  - rewrite (proj1 (backend_subscribe_only_for_new_queue _ "b" "orders"
                      Threw)).
    vm_compute. reflexivity.
  - rewrite (proj1 (backend_subscribe_only_for_new_queue _ "b" "invoices"
                      Returned)).
    vm_compute. reflexivity.
  - apply (proj2 (backend_subscribe_only_for_new_queue _ "b" "orders"
                    Threw)).
    apply (bool_decide_unpack _). vm_compute. reflexivity.
Defined.



(** X4.  Subscribing and fan-out compose: after a subscribe request that
    returned, the next message of any queue reaches every connected socket
    that was subscribed to that queue before exactly once, the new
    subscriber exactly once for the queue it asked for, and nobody else. *)
Theorem subscriber_receives_next_message (sockets : gset string)
    (emitOk : string → bool) (st : Gateway.State)
    (client queueName : string) (subscribeResult : Outcome)
    (message : QueueMessage) :
  Gateway.wf st →
  (∀ c, emitOk c = true) →
  (Gateway.handleSubscribe st client queueName subscribeResult).2 = Returned →
  let st' :=
    (Gateway.handleSubscribe st client queueName subscribeResult).1.1 in
  ∀ c q,
    Gateway.deliveries c q message
      (Gateway.handler sockets emitOk st' q message).1
    = if (Gateway.subscribed st c q
          || bool_decide (c = client ∧ q = queueName))
         && bool_decide (c ∈ sockets)
      then 1 else 0.
Proof.
  intros Hwf Hok Hret st' c q. subst st'.
  rewrite GatewayMore.handler_deliveries
    by (try done; by apply GatewayFacts.wf_handleSubscribe).
  rewrite GatewayMore.handleSubscribe_subscribed, Hret.
  by rewrite (bool_decide_true (Returned = Returned)), andb_true_r.
Qed.

(** The theorem on a gateway where ["a"] already listens to ["orders"] and
    ["b"] joins. *)
Lemma subscriber_receives_next_message_witness :
  let st :=
    {| Gateway.clientSubscriptions := [("a", ["orders"]); ("b", [])];
       Gateway.queueHandlers := {["orders"]} |} in
  let m := {| id := Some "m1"; body := "hello"; attributes := None |} in
  let st' := (Gateway.handleSubscribe st "b" "orders" Threw).1.1 in
  Gateway.wf st
  ∧ (Gateway.handleSubscribe st "b" "orders" Threw).2 = Returned
  ∧ Gateway.deliveries "b" "orders" m
      (Gateway.handler {["a"; "b"]} (λ _, true) st' "orders" m).1 = 1
  ∧ Gateway.deliveries "a" "orders" m
      (Gateway.handler {["a"; "b"]} (λ _, true) st' "orders" m).1 = 1.
Proof.
  cbv zeta.
  match goal with |- Gateway.wf ?s ∧ _ => assert (Gateway.wf s) as Hwf end.
  { apply (bool_decide_unpack _). vm_compute. reflexivity. }
  split; [exact Hwf|].
  match goal with |- ?A ∧ _ => assert A as Hret end.
  { vm_compute. reflexivity. }
  split; [exact Hret|].
  pose proof (subscriber_receives_next_message {["a"; "b"]} (λ _, true) _
                "b" "orders" Threw
                {| id := Some "m1"; body := "hello"; attributes := None |}
                Hwf (λ _, eq_refl) Hret) as Hcount.
  cbv zeta in Hcount. split.
  - rewrite Hcount. vm_compute. reflexivity.
  - rewrite Hcount. vm_compute. reflexivity.
Defined.

(** X5.  A disconnect forgets the connection: its entry is gone, it is
    subscribed to nothing, no later message of any queue is emitted to it
    even when an [emit] throws, and every other connection's subscriptions
    are exactly what they were.  The handlers are not touched before the
    queue service has answered, and a disconnect of an unknown connection
    does nothing at all. *)
Theorem disconnect_forgets_client (sockets : gset string)
    (emitOk : string → bool) (st : Gateway.State) (client : string) :
  Gateway.wf st →
  let st' := (Gateway.handleDisconnect st client).1 in
  JsMap.get client (Gateway.clientSubscriptions st') = None
  ∧ (∀ c q, Gateway.subscribed st' c q
            = if decide (client = c) then false
              else Gateway.subscribed st c q)
  ∧ (∀ q m, Gateway.deliveries client q m
              (Gateway.handler sockets emitOk st' q m).1 = 0)
  ∧ Gateway.queueHandlers st' = Gateway.queueHandlers st
  ∧ (JsMap.get client (Gateway.clientSubscriptions st) = None →
     Gateway.handleDisconnect st client = (st, [])).
Proof.
  intros Hwf st'. subst st'. split_and!.
  - by apply GatewayMore.handleDisconnect_get.
  - intros c q. by apply GatewayFacts.handleDisconnect_subscribed.
  - intros q m. apply GatewayMore.deliver_only_targets.
    pose proof (GatewayFacts.wf_handleDisconnect st client Hwf) as [Hk _].
    rewrite GatewayFacts.subscribedClients_spec by done.
    rewrite GatewayFacts.handleDisconnect_subscribed by done.
    by rewrite decide_True.
  - apply GatewayMore.handleDisconnect_handlers.
  - intros Hnone. unfold Gateway.handleDisconnect. by rewrite Hnone.
Qed.

(** The theorem on two connections sharing ["q2"], the socket of the other
    one throwing. *)
Lemma disconnect_forgets_client_witness :
  let st :=
    {| Gateway.clientSubscriptions :=
         [("client1", ["q1"; "q2"]); ("client2", ["q2"])];
       Gateway.queueHandlers := {["q1"; "q2"]} |} in
  let m := {| id := None; body := "x"; attributes := None |} in
  let st' := (Gateway.handleDisconnect st "client1").1 in
  Gateway.wf st
  ∧ JsMap.get "client1" (Gateway.clientSubscriptions st') = None
  ∧ Gateway.subscribed st' "client2" "q2" = true
  ∧ Gateway.deliveries "client1" "q2" m
      (Gateway.handler {["client1"; "client2"]} (λ _, false) st' "q2" m).1
    = 0.
Proof.
  cbv zeta.
  match goal with |- Gateway.wf ?s ∧ _ => assert (Gateway.wf s) as Hwf end.
  { apply (bool_decide_unpack _). vm_compute. reflexivity. }
  split; [exact Hwf|].
  destruct (disconnect_forgets_client {["client1"; "client2"]} (λ _, false)
              _ "client1" Hwf) as (Hget & Hsub & Hdel & _).
  split; [exact Hget|]. split; [|apply Hdel].
  rewrite Hsub. vm_compute. reflexivity.
Defined.



(** X7.  A subscribe or unsubscribe request changes the subscription of
    the requesting connection to the requested queue and nothing else:
    after a subscribe the pair is subscribed when the request returned,
    after an unsubscribe it is not, every other pair of connection and
    queue is as before, and an unsubscribe keeps every connection
    connected, in the same order. *)
Theorem request_changes_one_subscription (st : Gateway.State)
    (client queueName : string) (subscribeResult : Outcome)
    (c q : string) :
  let sub := Gateway.handleSubscribe st client queueName subscribeResult in
  let unsub := Gateway.handleUnsubscribe st client queueName in
  Gateway.subscribed sub.1.1 c q
  = Gateway.subscribed st c q
    || (bool_decide (c = client ∧ q = queueName)
        && bool_decide (sub.2 = Returned))
  ∧ Gateway.subscribed unsub.1 c q
    = Gateway.subscribed st c q
      && negb (bool_decide (c = client ∧ q = queueName))
  ∧ JsMap.keys (Gateway.clientSubscriptions unsub.1)
    = JsMap.keys (Gateway.clientSubscriptions st).
Proof.
  cbv zeta. split_and!.
  - apply GatewayMore.handleSubscribe_subscribed.
  - apply GatewayMore.handleUnsubscribe_subscribed.
  - apply GatewayMore.handleUnsubscribe_keys.
Qed.

(** An unsubscribe of ["a"] from ["orders"] seen from ["b"] and from
    ["a"]'s other queue. *)
Lemma request_changes_one_subscription_witness :
  let st :=
    {| Gateway.clientSubscriptions :=
         [("a", ["orders"; "invoices"]); ("b", ["orders"])];
       Gateway.queueHandlers := {["orders"; "invoices"]} |} in
  let st' := (Gateway.handleUnsubscribe st "a" "orders").1 in
  Gateway.subscribed st' "a" "orders" = false
  ∧ Gateway.subscribed st' "a" "invoices" = true
  ∧ Gateway.subscribed st' "b" "orders" = true.
Proof.
  cbv zeta. split; [|split].
  - rewrite (proj1 (proj2 (request_changes_one_subscription _ "a" "orders"
                             Returned "a" "orders"))).
    vm_compute. reflexivity.
  - rewrite (proj1 (proj2 (request_changes_one_subscription _ "a" "orders"
                             Returned "a" "invoices"))).
    vm_compute. reflexivity.
  - rewrite (proj1 (proj2 (request_changes_one_subscription _ "a" "orders"
                             Returned "b" "orders"))).
    vm_compute. reflexivity.
Defined.

(** * Further properties of the polling adapter *)
Module SqsMore.
Import Sqs.

Implicit Types (st : State) (name : string) (backend : Backend).

Lemma ensureQueueExists_hit st name backend url :
  queueUrls st !! name = Some url →
  ensureQueueExists st name backend = (st, [], inl url).
Proof. intros Hhit. unfold ensureQueueExists. by rewrite Hhit. Qed.

Lemma ensureQueueExists_resolved st name backend url :
  (ensureQueueExists st name backend).2 = inl url →
  queueUrls (ensureQueueExists st name backend).1.1 !! name = Some url.
Proof.
  unfold ensureQueueExists, createQueue.
  repeat case_match; cbn [fst snd]; intros Hr; simplify_eq; try done;
    cbn [queueUrls with_queueUrls]; by rewrite lookup_insert_eq.
Qed.

Lemma ensureQueueExists_urls st name backend n u :
  queueUrls st !! n = Some u →
  queueUrls (ensureQueueExists st name backend).1.1 !! n = Some u.
Proof.
  intros Hn. unfold ensureQueueExists, createQueue.
  repeat case_match; cbn [fst snd]; simplify_eq; try done;
    cbn [queueUrls with_queueUrls];
    (rewrite lookup_insert_ne; [done|congruence]).
Qed.

Lemma ensureQueueExists_failed st name backend t :
  (ensureQueueExists st name backend).2 = inr t →
  (ensureQueueExists st name backend).1.1 = st
  ∧ (t = SdkError
     ∨ t = OwnError (QueueNotFoundError name)
     ∨ t = OwnError (QueueCreationError name)
     ∨ (name = "" ∧ t = OwnError (QueueCreationError "undefined"))).
Proof.
  unfold ensureQueueExists, createQueue.
  repeat case_match; cbn [fst snd]; intros Hr; simplify_eq; split; try done;
    tauto.
Qed.

Lemma ensureQueueExists_create st name backend n :
  SendCreateQueue n ∈ (ensureQueueExists st name backend).1.2 →
  n = name ∧ name ≠ "" ∧ queueUrls st !! name = None
  ∧ getQueueUrlAnswer backend = QueueDoesNotExist.
Proof.
  unfold ensureQueueExists, createQueue.
  repeat case_match; cbn [fst snd]; intros Hin; simplify_eq;
    repeat (apply elem_of_cons in Hin as [Hin|Hin]; simplify_eq);
    try (by apply elem_of_nil in Hin); done.
Qed.

Lemma ensureQueueExists_lookup st name backend :
  Forall (λ a, a = SendGetQueueUrl name ∨ a = SendCreateQueue name)
    (ensureQueueExists st name backend).1.2.
Proof.
  unfold ensureQueueExists, createQueue.
  repeat case_match; cbn [fst snd]; simplify_eq;
    repeat (constructor; [tauto|]); constructor.
Qed.

Lemma stopExisting_queueUrls st name :
  queueUrls (stopExisting st name) = queueUrls st
  ∧ cycles (stopExisting st name) = cycles st
  ∧ nextCycle (stopExisting st name) = nextCycle st.
Proof. unfold stopExisting. by case_match. Qed.

(** What a [subscribe] whose lookup gave [url] does. *)
Lemma subscribe_after_lookup st name h backend st0 acts0 url :
  ensureQueueExists st name backend = (st0, acts0, inl url) →
  let p := {| queueName := name; queueUrl := url; handler := h |} in
  let out := subscribe st name h backend in
  out.2 = Resolved
  ∧ out.1.2 = acts0 ++ [SendReceiveMessage url]
  ∧ queueUrls out.1.1 = queueUrls st0
  ∧ name ∈ subscribedQueues out.1.1
  ∧ cycles out.1.1 = <[nextCycle st := AwaitReceive p]> (cycles st)
  ∧ nextCycle out.1.1 = S (nextCycle st)
  ∧ timers out.1.1 !! nextTimer st = Some p.
Proof.
  intros Hlookup. cbv zeta. unfold subscribe. rewrite Hlookup.
  destruct (SqsFacts.ensureQueueExists_fields st name backend)
    as (_ & _ & _ & Hnt & Hcy & Hnc).
  rewrite Hlookup in Hnt, Hcy, Hnc. cbn [fst snd] in Hnt, Hcy, Hnc.
  destruct (stopExisting_queueUrls st0 name) as (Hu1 & Hc1 & Hn1).
  unfold pollMessages, isSubscribed.
  cbn [subscribedQueues with_subscribedQueues queueName].
  rewrite bool_decide_true by set_solver.
  cbn [fst snd queueUrls pollingIntervals subscribedQueues timers nextTimer
       cycles nextCycle with_cycles with_timers with_pollingIntervals
       with_subscribedQueues queueUrl].
  rewrite Hu1, Hc1, Hn1, Hcy, Hnc. split_and!; try done; [set_solver|].
  assert (nextTimer (stopExisting st0 name) = nextTimer st) as ->.
  { rewrite <- Hnt. unfold stopExisting. by case_match. }
  by rewrite lookup_insert_eq.
Qed.

Lemma step_queueUrls st e n u :
  queueUrls st !! n = Some u → queueUrls (step st e).1 !! n = Some u.
Proof.
  intros Hn. destruct e as [name h backend|name| |t|i s]; cbn [step].
  - destruct (ensureQueueExists st name backend) as [[st0 acts0] r] eqn:E.
    pose proof (ensureQueueExists_urls st name backend n u Hn) as Hn0.
    rewrite E in Hn0. cbn [fst] in Hn0. destruct r as [url|t].
    + destruct (subscribe_after_lookup st name h backend st0 acts0 url E)
        as (_ & _ & -> & _). done.
    + unfold subscribe. by rewrite E.
  - unfold unsubscribe. by case_match.
  - cbn [fst]. unfold onModuleDestroy. cbn [queueUrls with_subscribedQueues
      with_pollingIntervals].
    destruct (SqsFacts.clearAll_fields
                (map_to_list (pollingIntervals st)).*2 st) as (-> & _). done.
  - destruct (timers st !! t) as [p|]; [|done].
    destruct (SqsFacts.pollMessages_fields st p) as (-> & _). done.
  - destruct (cycles st !! i) as [c|]; [|done].
    by destruct (resume st c s).
Qed.

Lemma run_queueUrls (events : list Event) : ∀ st n u,
  queueUrls st !! n = Some u → queueUrls (run st events).1 !! n = Some u.
Proof.
  induction events as [|e events IH]; intros st n u Hn; cbn [run]; [done|].
  pose proof (step_queueUrls st e n u Hn) as H1.
  destruct (step st e) as [st1 a1]. cbn [fst] in H1.
  specialize (IH st1 n u H1). by destruct (run st1 events).
Qed.

(** ** After [onModuleDestroy] *)






(** ** [publish] *)

Lemma flatAttributes_encode (attrs : option (gmap string string)) :
  flatAttributes (SqsPublish.encodeAttributes attrs) = default ∅ attrs.
Proof.
  destruct attrs as [entries|]; [|done]. cbn. apply map_eq. intros key.
  rewrite lookup_omap, lookup_fmap. by destruct (entries !! key).
Qed.

Lemma sqs_nonEmpty_seen (attrs : option (gmap string string)) :
  nonEmpty (default ∅ attrs) = seenAttributes attrs.
Proof.
  unfold nonEmpty, seenAttributes. destruct attrs as [entries|]; cbn.
  - destruct (decide (entries = ∅)) as [->|Hne].
    + by rewrite decide_False by (rewrite map_size_empty; lia).
    + rewrite decide_True; [done|].
      apply map_size_non_empty_iff in Hne. lia.
  - by rewrite decide_False by (rewrite map_size_empty; lia).
Qed.

End SqsMore.

(** * The polling adapter: further properties *)

(** X8.  The queue URL lookup is cached: once [ensureQueueExists] has
    returned a URL for a queue, the URL is in [queueUrls] and every later
    lookup of that queue returns it without a command to the backend and
    without touching the state, whatever the backend would answer.  A lookup
    that throws leaves the state as it was, a cached queue costs no command,
    and a queue is created only after the backend has answered that it does
    not exist. *)
Theorem queue_url_lookup_is_cached (st : Sqs.State) (name : string)
    (backend : Sqs.Backend) :
  let out := Sqs.ensureQueueExists st name backend in
  (∀ url, out.2 = inl url →
     Sqs.queueUrls out.1.1 !! name = Some url
     ∧ ∀ backend',
         Sqs.ensureQueueExists out.1.1 name backend' = (out.1.1, [], inl url))
  ∧ (∀ t, out.2 = inr t → out.1.1 = st)
  ∧ (is_Some (Sqs.queueUrls st !! name) → out.1.2 = [] ∧ out.1.1 = st)
  ∧ (∀ n, Sqs.SendCreateQueue n ∈ out.1.2 →
       n = name ∧ Sqs.queueUrls st !! name = None
       ∧ Sqs.getQueueUrlAnswer backend = Sqs.QueueDoesNotExist).
Proof.
  cbv zeta. split_and!.
  - intros url Hr.
    pose proof (SqsMore.ensureQueueExists_resolved st name backend url Hr)
      as Hcached.
    split; [done|]. intros backend'.
    by apply SqsMore.ensureQueueExists_hit.
  - intros t Hr.
    by destruct (SqsMore.ensureQueueExists_failed st name backend t Hr).
  - intros [url Hhit].
    by rewrite (SqsMore.ensureQueueExists_hit st name backend url Hhit).
  - intros n Hin.
    destruct (SqsMore.ensureQueueExists_create st name backend n Hin)
      as (-> & _ & Hmiss & Hanswer).
    done.
Qed.

(** A queue the backend has to create: the second lookup is answered from
    the cache although the backend is down. *)
Lemma queue_url_lookup_is_cached_witness :
  let backend :=
    {| Sqs.getQueueUrlAnswer := Sqs.QueueDoesNotExist;
       Sqs.createQueueAnswer := Sqs.CreateQueueOutput (Some "http://sqs/a") |} in
  let down :=
    {| Sqs.getQueueUrlAnswer := Sqs.GetQueueUrlFailed;
       Sqs.createQueueAnswer := Sqs.CreateQueueFailed |} in
  let out := Sqs.ensureQueueExists Sqs.initial "orders" backend in
  out.2 = inl "http://sqs/a"
  ∧ Sqs.ensureQueueExists out.1.1 "orders" down
    = (out.1.1, [], inl "http://sqs/a").
Proof.
  cbv zeta.
  match goal with |- ?A ∧ _ => assert A as Hurl end.
  { vm_compute. reflexivity. }
  split; [exact Hurl|].
  exact (proj2 (proj1 (queue_url_lookup_is_cached Sqs.initial "orders" _)
                  "http://sqs/a" Hurl) _).
Defined.

(** X9.  An entry of the URL cache is never evicted or changed: whatever
    the event loop runs afterwards (subscribes and unsubscribes of any queue,
    interval callbacks, poll cycles resuming, [onModuleDestroy]), a cached
    queue name keeps its URL. *)
Theorem queue_url_is_never_forgotten (events : list Sqs.Event)
    (st : Sqs.State) (name url : string) :
  Sqs.queueUrls st !! name = Some url →
  Sqs.queueUrls (Sqs.run st events).1 !! name = Some url.
Proof. apply SqsMore.run_queueUrls. Qed.

(** A queue subscribed once, then unsubscribed, re-subscribed against a
    backend that would now give another URL, and the module destroyed. *)
Lemma queue_url_is_never_forgotten_witness :
  let first :=
    {| Sqs.getQueueUrlAnswer := Sqs.GetQueueUrlOutput (Some "http://sqs/a");
       Sqs.createQueueAnswer := Sqs.CreateQueueFailed |} in
  let second :=
    {| Sqs.getQueueUrlAnswer := Sqs.GetQueueUrlOutput (Some "http://sqs/b");
       Sqs.createQueueAnswer := Sqs.CreateQueueFailed |} in
  let st := (Sqs.subscribe Sqs.initial "orders" 0 first).1.1 in
  Sqs.queueUrls st !! "orders" = Some "http://sqs/a"
  ∧ Sqs.queueUrls
      (Sqs.run st [Sqs.Unsubscribe "orders"; Sqs.Subscribe "orders" 1 second;
                   Sqs.ModuleDestroy]).1 !! "orders"
    = Some "http://sqs/a".
Proof.
  cbv zeta.
  match goal with |- ?A ∧ _ => assert A as Hcached end.
  { vm_compute. reflexivity. }
  split; [exact Hcached|].
  exact (queue_url_is_never_forgotten _ _ "orders" "http://sqs/a" Hcached).
Defined.

(** X10.  A [subscribe] that rejects has changed nothing: the adapter is
    in the state it was in, so a queue that was being polled still is.  It
    has sent nothing but the lookup commands for that queue, and its error
    is a [QueueNotFoundError], [QueueCreationError] or [QueueSubscribeError]
    naming the queue (["undefined"] for the empty name), never a
    [QueuePublishError]. *)
Theorem rejected_subscribe_changes_nothing (st : Sqs.State) (name : string)
    (h : nat) (backend : Sqs.Backend) (error : Sqs.QueueError) :
  (Sqs.subscribe st name h backend).2 = Sqs.Rejected error →
  (Sqs.subscribe st name h backend).1.1 = st
  ∧ Forall (λ a, a = Sqs.SendGetQueueUrl name ∨ a = Sqs.SendCreateQueue name)
      (Sqs.subscribe st name h backend).1.2
  ∧ (error = Sqs.QueueNotFoundError name
     ∨ error = Sqs.QueueCreationError name
     ∨ error = Sqs.QueueSubscribeError name
     ∨ (name = "" ∧ error = Sqs.QueueCreationError "undefined")).
Proof.
  pose proof (SqsMore.ensureQueueExists_lookup st name backend) as Hacts.
  pose proof (SqsMore.ensureQueueExists_failed st name backend) as Hfailed.
  pose proof (SqsMore.subscribe_after_lookup st name h backend) as Hok.
  destruct (Sqs.ensureQueueExists st name backend) as [[st0 acts0] [url|t]]
    eqn:E.
  - destruct (Hok st0 acts0 url eq_refl) as (Hres & _). rewrite Hres. done.
  - unfold Sqs.subscribe. rewrite E. cbn [fst snd] in *.
    intros [= <-]. destruct (Hfailed t eq_refl) as [-> Ht].
    split; [done|]. split; [done|].
    destruct Ht as [->|[->|[->|[-> ->]]]]; cbn; tauto.
Qed.

(** A live subscription, and a second [subscribe] for a queue the backend
    cannot look up. *)
Lemma rejected_subscribe_changes_nothing_witness :
  let ok :=
    {| Sqs.getQueueUrlAnswer := Sqs.GetQueueUrlOutput (Some "http://sqs/a");
       Sqs.createQueueAnswer := Sqs.CreateQueueFailed |} in
  let down :=
    {| Sqs.getQueueUrlAnswer := Sqs.GetQueueUrlFailed;
       Sqs.createQueueAnswer := Sqs.CreateQueueFailed |} in
  let st := (Sqs.subscribe Sqs.initial "orders" 0 ok).1.1 in
  (Sqs.subscribe st "invoices" 1 down).2
  = Sqs.Rejected (Sqs.QueueSubscribeError "invoices")
  ∧ (Sqs.subscribe st "invoices" 1 down).1.1 = st.
Proof.
  cbv zeta.
  match goal with |- ?A ∧ _ => assert A as Hrej end.
  { vm_compute. reflexivity. }
  split; [exact Hrej|].
  exact (proj1 (rejected_subscribe_changes_nothing _ "invoices" 1 _ _ Hrej)).
Defined.

(** X11.  A [subscribe] that resolves has looked the queue URL up and
    cached it, made the queue live, and started polling at once: after the
    lookup commands it has sent exactly one receive, for that URL, and the
    poll cycle waiting for it runs the new handler.  The interval it has set
    runs the same closure. *)
Theorem resolved_subscribe_polls_at_once (st : Sqs.State) (name : string)
    (h : nat) (backend : Sqs.Backend) :
  (Sqs.subscribe st name h backend).2 = Sqs.Resolved →
  let out := Sqs.subscribe st name h backend in
  let lookup := Sqs.ensureQueueExists st name backend in
  ∃ url,
    let p := {| Sqs.queueName := name; Sqs.queueUrl := url;
                Sqs.handler := h |} in
    lookup.2 = inl url
    ∧ Sqs.queueUrls out.1.1 !! name = Some url
    ∧ name ∈ Sqs.subscribedQueues out.1.1
    ∧ out.1.2 = lookup.1.2 ++ [Sqs.SendReceiveMessage url]
    ∧ length (filter (λ a, SqsPublish.isReceive a = true) out.1.2) = 1
    ∧ Sqs.cycles out.1.1 !! Sqs.nextCycle st = Some (Sqs.AwaitReceive p)
    ∧ Sqs.timers out.1.1 !! Sqs.nextTimer st = Some p.
Proof.
  intros Hres. cbv zeta.
  pose proof (SqsMore.ensureQueueExists_lookup st name backend) as Hacts.
  pose proof (SqsMore.ensureQueueExists_resolved st name backend) as Hcached.
  pose proof (SqsMore.subscribe_after_lookup st name h backend) as Hok.
  destruct (Sqs.ensureQueueExists st name backend) as [[st0 acts0] [url|t]]
    eqn:E.
  - exists url. cbn [fst snd] in *.
    destruct (Hok st0 acts0 url eq_refl) as (_ & Ha & Hu & Hs & Hc & _ & Ht).
    rewrite Ha, Hu, Hc, lookup_insert_eq. split_and!; try done.
    + by apply Hcached.
    + rewrite filter_app, length_app.
      assert (filter (λ a, SqsPublish.isReceive a = true) acts0 = []) as ->.
      { clear -Hacts. induction Hacts as [|a acts [->| ->] _ IH]; [done| |];
          by rewrite filter_cons, decide_False. }
      done.
  - unfold Sqs.subscribe in Hres. by rewrite E in Hres.
Qed.

(** A first subscription on a fresh adapter whose backend has to create the
    queue. *)
Lemma resolved_subscribe_polls_at_once_witness :
  let backend :=
    {| Sqs.getQueueUrlAnswer := Sqs.QueueDoesNotExist;
       Sqs.createQueueAnswer := Sqs.CreateQueueOutput (Some "http://sqs/a") |} in
  let out := Sqs.subscribe Sqs.initial "orders" 7 backend in
  out.2 = Sqs.Resolved
  ∧ ∃ url,
      out.1.2 = (Sqs.ensureQueueExists Sqs.initial "orders" backend).1.2
                  ++ [Sqs.SendReceiveMessage url]
      ∧ Sqs.cycles out.1.1 !! 0
        = Some (Sqs.AwaitReceive {| Sqs.queueName := "orders";
                                    Sqs.queueUrl := url; Sqs.handler := 7 |}).
Proof.
  cbv zeta.
  match goal with |- ?A ∧ _ => assert A as Hres end.
  { vm_compute. reflexivity. }
  split; [exact Hres|].
  destruct (resolved_subscribe_polls_at_once _ "orders" 7 _ Hres)
    as (url & _ & _ & _ & Hacts & _ & Hcycle & _).
  exists url. split; [exact Hacts|exact Hcycle].
Defined.

(** X12.  What is published is what a subscriber is handed: the body and
    the attributes the [SendMessageCommand] of a [publish] carries,
    translated by the poll loop, give the message that was published: the
    same body, the same attributes, absent when they were absent or empty. *)
Theorem sqs_published_message_round_trip (st : Sqs.State)
    (queueName : string) (message : QueueMessage) (backend : Sqs.Backend)
    (answer : SqsPublish.SendMessageAnswer)
    (queueUrl messageBody : string)
    (messageAttributes : option (gmap string Sqs.MessageAttributeValue))
    (messageId receiptHandle : option string) :
  SqsPublish.SendSendMessage queueUrl messageBody messageAttributes
    ∈ (SqsPublish.publish st queueName message backend answer).1.2 →
  Sqs.toQueueMessage
    {| Sqs.MessageId := messageId; Sqs.ReceiptHandle := receiptHandle;
       Sqs.Body := Some messageBody;
       Sqs.MessageAttributes := messageAttributes |}
  = {| id := messageId; body := body message;
       attributes := seenAttributes (attributes message) |}.
Proof.
  intros Hin.
  assert (messageBody = body message
          ∧ messageAttributes
            = SqsPublish.encodeAttributes (attributes message)) as [-> ->].
  { revert Hin. unfold SqsPublish.publish.
    destruct (Sqs.ensureQueueExists st queueName backend)
      as [[st' acts] [url|t]]; [destruct answer|]; cbn [fst snd];
      rewrite ?elem_of_app, ?list_elem_of_fmap, ?list_elem_of_singleton;
      intros Hin; destruct_or?; simplify_eq; try done;
      by destruct Hin as (a & Ha & _). }
  unfold Sqs.toQueueMessage.
  cbn [Sqs.MessageId Sqs.Body Sqs.MessageAttributes default].
  by rewrite SqsMore.flatAttributes_encode, SqsMore.sqs_nonEmpty_seen.
Qed.

(** A message with one attribute, published to a cached queue. *)
Lemma sqs_published_message_round_trip_witness :
  let st := Sqs.with_queueUrls Sqs.initial {["orders" := "http://sqs/a"]} in
  let backend :=
    {| Sqs.getQueueUrlAnswer := Sqs.GetQueueUrlFailed;
       Sqs.createQueueAnswer := Sqs.CreateQueueFailed |} in
  let m := {| id := None; body := "hello";
              attributes := Some {["kind" := "greeting"]} |} in
  let sent :=
    SqsPublish.SendSendMessage "http://sqs/a" "hello"
      (SqsPublish.encodeAttributes (Some {["kind" := "greeting"]})) in
  sent ∈ (SqsPublish.publish st "orders" m backend
            SqsPublish.SendMessageOutput).1.2
  ∧ Sqs.toQueueMessage
      {| Sqs.MessageId := Some "1"; Sqs.ReceiptHandle := Some "r";
         Sqs.Body := Some "hello";
         Sqs.MessageAttributes :=
           SqsPublish.encodeAttributes (Some {["kind" := "greeting"]}) |}
    = {| id := Some "1"; body := "hello";
         attributes := seenAttributes (Some {["kind" := "greeting"]}) |}.
Proof.
  cbv zeta.
  match goal with |- ?A ∧ _ => assert A as Hin end.
  { apply list_elem_of_singleton. reflexivity. }
  split; [exact Hin|].
  exact (sqs_published_message_round_trip _ "orders" _ _ _ _ _ _
           (Some "1") (Some "r") Hin).
Defined.

(** X13.  [publish] sends one message when the queue URL lookup succeeds
    and none when it fails; it resolves exactly when the lookup succeeded
    and the send returned.  Its error is a [QueueNotFoundError],
    [QueueCreationError] or [QueuePublishError], never a
    [QueueSubscribeError].  It changes nothing of the adapter but the URL
    cache: no subscription starts or stops. *)
Theorem sqs_publish_outcome (st : Sqs.State) (queueName : string)
    (message : QueueMessage) (backend : Sqs.Backend)
    (answer : SqsPublish.SendMessageAnswer) :
  let out := SqsPublish.publish st queueName message backend answer in
  let lookup := Sqs.ensureQueueExists st queueName backend in
  out.1.1 = lookup.1.1
  ∧ SqsPublish.sends out.1.2 = (if lookup.2 is inl _ then 1 else 0)
  ∧ (out.2 = Sqs.Resolved
     ↔ (∃ url, lookup.2 = inl url) ∧ answer = SqsPublish.SendMessageOutput)
  ∧ (∀ error, out.2 = Sqs.Rejected error →
       error = Sqs.QueueNotFoundError queueName
       ∨ error = Sqs.QueueCreationError queueName
       ∨ error = Sqs.QueuePublishError queueName
       ∨ (queueName = ""
          ∧ error = Sqs.QueueCreationError "undefined"))
  ∧ Sqs.subscribedQueues out.1.1 = Sqs.subscribedQueues st
  ∧ Sqs.pollingIntervals out.1.1 = Sqs.pollingIntervals st
  ∧ Sqs.timers out.1.1 = Sqs.timers st
  ∧ Sqs.cycles out.1.1 = Sqs.cycles st.
Proof.
  cbv zeta.
  pose proof (SqsMore.ensureQueueExists_lookup st queueName backend) as Hacts.
  pose proof (SqsMore.ensureQueueExists_failed st queueName backend)
    as Hfailed.
  destruct (SqsFacts.ensureQueueExists_fields st queueName backend)
    as (Hpi & Hsq & Hti & _ & Hcy & _).
  unfold SqsPublish.publish.
  destruct (Sqs.ensureQueueExists st queueName backend)
    as [[st' acts] [url|t]]; cbn [fst snd] in *.
  - assert (SqsPublish.sends
              ((SqsPublish.Lookup <$> acts)
                 ++ [SqsPublish.SendSendMessage url (body message)
                       (SqsPublish.encodeAttributes (attributes message))])
            = 1) as Hone.
    { unfold SqsPublish.sends. rewrite filter_app, length_app.
      assert (filter (λ a, SqsPublish.isSend a = true)
                (SqsPublish.Lookup <$> acts) = []) as ->.
      { clear. induction acts as [|a acts IH]; [done|].
        by rewrite fmap_cons, filter_cons, decide_False. }
      done. }
    destruct answer as [|error]; cbn [fst snd]; split_and!; try done.
    + split; [intros _; split; [by exists url|done]|done].
    + split; [done|]. by intros [_ ?].
    + intros e [= <-]. unfold SqsPublish.sendError.
      destruct (SqsPublish.isQueueNotFoundError error); tauto.
  - destruct (Hfailed t eq_refl) as [_ Ht]. split_and!; try done.
    + unfold SqsPublish.sends.
      assert (filter (λ a, SqsPublish.isSend a = true)
                (SqsPublish.Lookup <$> acts) = []) as ->; [|done].
      clear. induction acts as [|a acts IH]; [done|].
      by rewrite fmap_cons, filter_cons, decide_False.
    + split; [done|]. by intros [[? ?] _].
    + intros e [= <-].
      destruct Ht as [->|[->|[->|[-> ->]]]]; cbn; tauto.
Qed.

(** A publish to a cached queue whose send throws a queue-not-found
    error. *)
Lemma sqs_publish_outcome_witness :
  let st := Sqs.with_queueUrls Sqs.initial {["orders" := "http://sqs/a"]} in
  let backend :=
    {| Sqs.getQueueUrlAnswer := Sqs.GetQueueUrlFailed;
       Sqs.createQueueAnswer := Sqs.CreateQueueFailed |} in
  let m := {| id := None; body := "hello"; attributes := None |} in
  let gone :=
    SqsPublish.SendMessageThrew
      (Some {| SqsPublish.Code := None;
               SqsPublish.name := Some "QueueDoesNotExist";
               SqsPublish.nestedCode := None |}) in
  (SqsPublish.publish st "orders" m backend gone).2
  = Sqs.Rejected (Sqs.QueueNotFoundError "orders")
  ∧ SqsPublish.sends (SqsPublish.publish st "orders" m backend gone).1.2 = 1.
Proof.
  cbv zeta. split; [vm_compute; reflexivity|].
  rewrite (proj1 (proj2 (sqs_publish_outcome _ "orders" _ _ _))).
  vm_compute. reflexivity.
Defined.



(** * Further properties of the event-driven adapter *)
Module RabbitMqMore.
Import RabbitMq.

Lemma ensureChannel_ready st o ch :
  connection st = true → channel st = Some ch →
  ensureChannel st o = (st, [], Some ch).
Proof.
  intros Hc Hch. unfold ensureChannel. rewrite Hc, Hch.
  rewrite bool_decide_true by done. cbn. by rewrite Hch.
Qed.

Lemma ensureChannel_consumers st o :
  consumers (ensureChannel st o).1.1 = consumers st.
Proof.
  unfold ensureChannel, connect. by repeat case_match; simplify_eq.
Qed.

Lemma flatAttributes_delivered {Number} (numberToString : Number → string)
    (hs : gmap string string) :
  flatAttributes numberToString (RabbitMqLifecycle.deliveredHeaders hs) = hs.
Proof.
  cbn. apply map_eq. intros key. rewrite lookup_omap, lookup_fmap.
  by destruct (hs !! key).
Qed.

Lemma rmq_nonEmpty_seen (attrs : option (gmap string string)) :
  nonEmpty (default ∅ attrs) = seenAttributes attrs.
Proof.
  unfold nonEmpty, seenAttributes. destruct attrs as [entries|]; cbn.
  - destruct (decide (entries = ∅)) as [->|Hne].
    + by rewrite decide_False by (rewrite map_size_empty; lia).
    + rewrite decide_True; [done|].
      apply map_size_non_empty_iff in Hne. lia.
  - by rewrite decide_False by (rewrite map_size_empty; lia).
Qed.

Lemma cancelAll_cancels cancelOutcome tag (recorded : list (string * nat)) :
  ∀ ch,
    RabbitMqLifecycle.cancels tag
      (RabbitMqLifecycle.cancelAll cancelOutcome ch recorded).2
    = length (filter (λ e : string * nat, e.2 = tag) recorded).
Proof.
  unfold RabbitMqLifecycle.cancels.
  induction recorded as [|[q t] recorded IH]; intros ch; [done|].
  cbn [RabbitMqLifecycle.cancelAll].
  destruct (cancelOutcome t);
    match goal with
    | |- context [RabbitMqLifecycle.cancelAll _ ?c recorded] =>
        specialize (IH c);
        destruct (RabbitMqLifecycle.cancelAll cancelOutcome c recorded)
          as [ch2 a2]
    end; cbn [fst snd] in *;
    rewrite filter_app, length_app, IH, (filter_cons _ (q, t)); cbn [snd];
    destruct (decide (t = tag)) as [->|Hne];
    rewrite !filter_cons; cbn [RabbitMqLifecycle.isCancelOf];
    rewrite ?bool_decide_true, ?bool_decide_false by done; done.
Qed.

Lemma cancelAll_actions cancelOutcome (recorded : list (string * nat)) :
  ∀ ch,
    Forall (λ a, ∃ b, a = RabbitMqLifecycle.Channel b)
      (RabbitMqLifecycle.cancelAll cancelOutcome ch recorded).2.
Proof.
  induction recorded as [|[q t] recorded IH]; intros ch; [constructor|].
  cbn [RabbitMqLifecycle.cancelAll].
  destruct (cancelOutcome t);
    match goal with
    | |- context [RabbitMqLifecycle.cancelAll _ ?c recorded] =>
        specialize (IH c);
        destruct (RabbitMqLifecycle.cancelAll cancelOutcome c recorded)
          as [ch2 a2]
    end; cbn [fst snd] in *; apply Forall_app; split; try done;
    repeat constructor; eauto.
Qed.

End RabbitMqMore.

(** * The event-driven adapter: further properties *)

(** X15.  [RabbitMqProvider.publish] resolves exactly when a channel is
    available, the queue could be asserted and [sendToQueue] returned
    [true].  It hands a message to the channel exactly when the channel is
    available and the assertion succeeded, after asserting the queue, and
    then it is the published body, persistent, with the attributes as
    headers.  It never changes the recorded consumers. *)
Theorem rabbit_publish_outcome (st : RabbitMq.State) (queueName : string)
    (message : QueueMessage) (o : RabbitMq.Oracle)
    (sent : RabbitMqLifecycle.SendResult) :
  let out := RabbitMqLifecycle.publish st queueName message o sent in
  let send :=
    RabbitMqLifecycle.SendToQueue queueName (body message) true
      (default ∅ (attributes message)) in
  (out.2 = RabbitMq.Resolved
   ↔ is_Some (RabbitMq.ensureChannel st o).2
     ∧ RabbitMq.assertQueueResult o = Returned
     ∧ sent = RabbitMqLifecycle.Sent)
  ∧ (send ∈ out.1.2
     ↔ is_Some (RabbitMq.ensureChannel st o).2
       ∧ RabbitMq.assertQueueResult o = Returned)
  ∧ (∀ q content persistent headers,
       RabbitMqLifecycle.SendToQueue q content persistent headers ∈ out.1.2 →
       RabbitMqLifecycle.SendToQueue q content persistent headers = send
       ∧ RabbitMqLifecycle.Channel (RabbitMq.AssertQueue queueName)
           ∈ out.1.2)
  ∧ RabbitMq.consumers out.1.1 = RabbitMq.consumers st.
Proof.
  cbv zeta. pose proof (RabbitMqMore.ensureChannel_consumers st o) as Hcons.
  unfold RabbitMqLifecycle.publish.
  destruct (RabbitMq.ensureChannel st o) as [[st1 a1] [ch|]];
    [destruct (RabbitMq.assertQueueResult o); [destruct sent|]|];
    cbn [fst snd] in *; split_and!; try done.
  all: try (split; [done|]; by intros (H1 & H2 & H3)).
  all: try (split; [|done]; intros _; by split_and!).
  all: try (split; [|done]; intros _; by eauto).
  all: try (split; [by intros _; eauto|]; intros _; set_solver).
  all: try (split; [|by intros [[? ?] _]]; set_solver).
  all: try (split; [|by intros [_ ?]]; set_solver).
  all: try (intros q content persistent headers; set_solver).
Qed.

(** A publish on a connected provider whose [sendToQueue] returns
    [false]. *)
Lemma rabbit_publish_outcome_witness :
  let st :=
    {| RabbitMq.connection := true;
       RabbitMq.channel :=
         Some {| RabbitMq.registered := ∅; RabbitMq.nextTag := 0 |};
       RabbitMq.consumers := ∅ |} in
  let o :=
    {| RabbitMq.connectResult := Returned;
       RabbitMq.createChannelResult := Returned;
       RabbitMq.assertQueueResult := Returned;
       RabbitMq.cancelResult := Returned;
       RabbitMq.consumeResult := Returned |} in
  let m := {| id := None; body := "hello"; attributes := None |} in
  let out :=
    RabbitMqLifecycle.publish st "orders" m o RabbitMqLifecycle.NotSent in
  out.2 = RabbitMq.Rejected
  ∧ RabbitMqLifecycle.SendToQueue "orders" "hello" true ∅ ∈ out.1.2.
Proof.
  cbv zeta. split; [vm_compute; reflexivity|].
  apply (proj1 (proj2 (rabbit_publish_outcome _ "orders"
                         {| id := None; body := "hello"; attributes := None |}
                         _ RabbitMqLifecycle.NotSent))).
  split; [|reflexivity]. vm_compute. by eexists.
Defined.

(** X16.  What is published to RabbitMQ is what a subscriber is handed: a
    delivery that carries the content and the headers [publish] gave to
    [sendToQueue] is translated by the consume callback into the message
    that was published: the same body, the same attributes, absent when
    they were absent or empty. *)
Theorem rabbit_published_message_round_trip {Number : Type}
    (numberToString : Number → string) (st : RabbitMq.State)
    (queueName : string) (message : QueueMessage) (o : RabbitMq.Oracle)
    (sent : RabbitMqLifecycle.SendResult) (q content : string)
    (persistent : bool) (headers : gmap string string)
    (messageId : option string) (deliveryTag : nat) :
  RabbitMqLifecycle.SendToQueue q content persistent headers
    ∈ (RabbitMqLifecycle.publish st queueName message o sent).1.2 →
  q = queueName
  ∧ persistent = true
  ∧ RabbitMq.toQueueMessage numberToString
      {| RabbitMq.content := content;
         RabbitMq.headers := RabbitMqLifecycle.deliveredHeaders headers;
         RabbitMq.messageId := messageId;
         RabbitMq.deliveryTag := deliveryTag |}
    = {| id := messageId; body := body message;
         attributes := seenAttributes (attributes message) |}.
Proof.
  intros Hin.
  assert (q = queueName ∧ content = body message ∧ persistent = true
          ∧ headers = default ∅ (attributes message)) as (-> & -> & -> & ->).
  { revert Hin. unfold RabbitMqLifecycle.publish.
    destruct (RabbitMq.ensureChannel st o) as [[st1 a1] [ch|]];
      [destruct (RabbitMq.assertQueueResult o); [destruct sent|]|];
      cbn [fst snd]; rewrite ?elem_of_app, ?list_elem_of_fmap;
      intros [(a & Ha & _)|Hin]; simplify_eq;
      repeat (apply elem_of_cons in Hin as [Hin|Hin]; simplify_eq);
      try (by apply elem_of_nil in Hin); done. }
  split; [done|]. split; [done|]. unfold RabbitMq.toQueueMessage.
  cbn [RabbitMq.messageId RabbitMq.content RabbitMq.headers].
  by rewrite RabbitMqMore.flatAttributes_delivered,
    RabbitMqMore.rmq_nonEmpty_seen.
Qed.

(** A message with one attribute, published on a connected provider. *)
Lemma rabbit_published_message_round_trip_witness :
  let st :=
    {| RabbitMq.connection := true;
       RabbitMq.channel :=
         Some {| RabbitMq.registered := ∅; RabbitMq.nextTag := 0 |};
       RabbitMq.consumers := ∅ |} in
  let o :=
    {| RabbitMq.connectResult := Returned;
       RabbitMq.createChannelResult := Returned;
       RabbitMq.assertQueueResult := Returned;
       RabbitMq.cancelResult := Returned;
       RabbitMq.consumeResult := Returned |} in
  let m := {| id := None; body := "hello";
              attributes := Some {["kind" := "greeting"]} |} in
  RabbitMqLifecycle.SendToQueue "orders" "hello" true
    {["kind" := "greeting"]}
    ∈ (RabbitMqLifecycle.publish st "orders" m o RabbitMqLifecycle.Sent).1.2
  ∧ RabbitMq.toQueueMessage (λ n : nat, "0")
      {| RabbitMq.content := "hello";
         RabbitMq.headers :=
           RabbitMqLifecycle.deliveredHeaders {["kind" := "greeting"]};
         RabbitMq.messageId := Some "m1";
         RabbitMq.deliveryTag := 4 |}
    = {| id := Some "m1"; body := "hello";
         attributes := seenAttributes (Some {["kind" := "greeting"]}) |}.
Proof.
  cbv zeta.
  match goal with |- ?A ∧ _ => assert A as Hin end.
  { apply list_elem_of_further, list_elem_of_here. }
  split; [exact Hin|].
  exact (proj2 (proj2
           (rabbit_published_message_round_trip (λ n : nat, "0") _ "orders"
              _ _ _ _ _ _ _ (Some "m1") 4 Hin))).
Defined.

(** X17.  Replacing the consumer of a queue can fail in two ways.  When
    the queue cannot be asserted or the old consumer cannot be cancelled,
    the provider is left as it was and the old consumer stays.  When the
    old consumer was cancelled and [consume] then fails, the call rejects
    and the queue is left with no consumer at all, while the other queues
    keep theirs. *)
Theorem failed_replace_of_consumer (st : RabbitMq.State)
    (queueName : string) (handler : nat) (o : RabbitMq.Oracle) (old : nat) :
  RabbitMq.tracked st →
  RabbitMq.consumers st !! queueName = Some old →
  (RabbitMq.subscribe st queueName handler o).2 = RabbitMq.Rejected →
  let st' := (RabbitMq.subscribe st queueName handler o).1.1 in
  (RabbitMq.assertQueueResult o = Threw ∨ RabbitMq.cancelResult o = Threw →
   st' = st)
  ∧ (RabbitMq.assertQueueResult o = Returned →
     RabbitMq.cancelResult o = Returned →
     RabbitMq.consumeResult o = Threw
     ∧ RabbitMq.consumers st' !! queueName = None
     ∧ RabbitMq.registeredConsumers st' !! old = None
     ∧ ∀ q, q ≠ queueName →
            RabbitMq.consumers st' !! q = RabbitMq.consumers st !! q).
Proof.
  intros (_ & _ & Hrec) Hold. destruct (Hrec _ _ Hold) as (Hconn & ch & Hch & _).
  unfold RabbitMq.subscribe.
  rewrite (RabbitMqMore.ensureChannel_ready st o ch Hconn Hch).
  rewrite bool_decide_true by by rewrite Hold.
  unfold RabbitMq.unsubscribe. rewrite Hold, Hch.
  destruct (RabbitMq.assertQueueResult o), (RabbitMq.cancelResult o),
    (RabbitMq.consumeResult o); cbn [fst snd RabbitMq.channel];
    intros Hrej; cbv zeta; try done;
    (split; [try done; by intros [?|?]|]); try done.
  intros _ _. cbn [RabbitMq.consumers RabbitMq.registeredConsumers
    RabbitMq.channel RabbitMq.registered].
  rewrite !lookup_delete_eq. split_and!; try done.
  intros q Hq. by rewrite lookup_delete_ne.
Qed.

(** A consumer for ["orders"], and a second [subscribe] whose [consume]
    fails after the cancel went through. *)
Lemma failed_replace_of_consumer_witness :
  let ok :=
    {| RabbitMq.connectResult := Returned;
       RabbitMq.createChannelResult := Returned;
       RabbitMq.assertQueueResult := Returned;
       RabbitMq.cancelResult := Returned;
       RabbitMq.consumeResult := Returned |} in
  let bad :=
    {| RabbitMq.connectResult := Returned;
       RabbitMq.createChannelResult := Returned;
       RabbitMq.assertQueueResult := Returned;
       RabbitMq.cancelResult := Returned;
       RabbitMq.consumeResult := Threw |} in
  let st :=
    (RabbitMq.run RabbitMq.initial [RabbitMq.CallSubscribe "orders" 0 ok]).1 in
  RabbitMq.consumers st !! "orders" = Some 0
  ∧ (RabbitMq.subscribe st "orders" 1 bad).2 = RabbitMq.Rejected
  ∧ RabbitMq.consumers (RabbitMq.subscribe st "orders" 1 bad).1.1 !! "orders"
    = None.
Proof.
  cbv zeta.
  match goal with |- ?A ∧ _ => assert A as Hold end.
  { vm_compute. reflexivity. }
  split; [exact Hold|].
  match goal with |- ?A ∧ _ => assert A as Hrej end.
  { vm_compute. reflexivity. }
  split; [exact Hrej|].
  destruct (failed_replace_of_consumer _ "orders" 1 _ 0
              (RabbitMqFacts.rmq_tracked_run _ _
                 RabbitMqFacts.rmq_tracked_initial) Hold Hrej) as [_ Hdrop].
  exact (proj1 (proj2 (Hdrop eq_refl eq_refl))).
Defined.

(** X18.  [disconnect] forgets every recorded consumer whatever fails on
    the way.  With a channel it calls [channel.cancel] once for each
    recorded consumer, going on after a cancel that throws; it calls
    [connection.close] exactly when there is a connection and closing the
    channel did not throw.  It resets neither the connection nor the
    channel field, so on a provider that was connected a later
    [ensureChannel] hands out the old channel without connecting again. *)
Theorem disconnect_forgets_consumers (st : RabbitMq.State)
    (cancelOutcome : nat → Outcome) (closeChannel closeConnection : Outcome) :
  let out :=
    RabbitMqLifecycle.disconnect st cancelOutcome closeChannel
      closeConnection in
  RabbitMq.consumers out.1 = ∅
  ∧ RabbitMq.connection out.1 = RabbitMq.connection st
  ∧ (is_Some (RabbitMq.channel out.1) ↔ is_Some (RabbitMq.channel st))
  ∧ (∀ consumerTag,
       RabbitMqLifecycle.cancels consumerTag out.2
       = if RabbitMq.channel st is Some _
         then length (filter (λ e : string * nat, e.2 = consumerTag)
                        (map_to_list (RabbitMq.consumers st)))
         else 0)
  ∧ (RabbitMqLifecycle.CloseConnection ∈ out.2
     ↔ RabbitMq.connection st = true
       ∧ (RabbitMq.channel st = None ∨ closeChannel = Returned))
  ∧ (RabbitMq.connection st = true → is_Some (RabbitMq.channel st) →
     ∀ o, RabbitMq.ensureChannel out.1 o
          = (out.1, [], RabbitMq.channel out.1)).
Proof.
  cbv zeta. unfold RabbitMqLifecycle.disconnect.
  destruct (RabbitMq.channel st) as [ch|] eqn:Hch.
  - pose proof (λ tag, RabbitMqMore.cancelAll_cancels cancelOutcome tag
                         (map_to_list (RabbitMq.consumers st)) ch) as Hcount.
    pose proof (RabbitMqMore.cancelAll_actions cancelOutcome
                  (map_to_list (RabbitMq.consumers st)) ch) as Hacts.
    destruct (RabbitMqLifecycle.cancelAll cancelOutcome ch
                (map_to_list (RabbitMq.consumers st))) as [ch1 a1].
    cbn [fst snd] in *.
    assert (RabbitMqLifecycle.CloseConnection ∉ a1) as Hno.
    { intros Hin. rewrite Forall_forall in Hacts.
      by destruct (Hacts _ Hin) as [b Hb]. }
    assert (∀ tag tail,
              Forall (λ a, RabbitMqLifecycle.isCancelOf tag a = false) tail →
              RabbitMqLifecycle.cancels tag (a1 ++ tail)
              = RabbitMqLifecycle.cancels tag a1) as Htail.
    { intros tag tail Htail. unfold RabbitMqLifecycle.cancels.
      rewrite filter_app, length_app.
      assert (filter (λ a, RabbitMqLifecycle.isCancelOf tag a = true) tail
              = []) as ->; [|by rewrite Nat.add_0_r].
      induction Htail as [|a tail Ha _ IH]; [done|].
      rewrite filter_cons, decide_False; [done|]. by rewrite Ha. }
    destruct closeChannel, (RabbitMq.connection st) eqn:Hconn,
      closeConnection; cbn [fst snd RabbitMq.consumers RabbitMq.connection
                            RabbitMq.channel];
      (split_and!;
       [ done | done | split; by eauto
       | intros tag; rewrite Htail by (repeat constructor); apply Hcount
       | rewrite elem_of_app; split;
         [ intros [?|Hin]; [done|];
           repeat (apply elem_of_cons in Hin as [Hin|Hin]; simplify_eq);
           try (by apply elem_of_nil in Hin); by eauto
         | intros [? [?|?]]; simplify_eq; right; set_solver ]
       | intros Hc _ o; simplify_eq;
         by apply RabbitMqMore.ensureChannel_ready ]).
  - destruct (RabbitMq.connection st) eqn:Hconn, closeConnection;
      cbn [fst snd RabbitMq.consumers RabbitMq.connection RabbitMq.channel];
      (split_and!;
       [ done | done | done | done
       | split;
         [ intros Hin;
           repeat (apply elem_of_cons in Hin as [Hin|Hin]; simplify_eq);
           try (by apply elem_of_nil in Hin); by eauto
         | intros [? ?]; simplify_eq; set_solver ]
       | by intros _ [? ?] ]).
Qed.

(** A provider with one consumer whose [channel.close] throws. *)
Lemma disconnect_forgets_consumers_witness :
  let ok :=
    {| RabbitMq.connectResult := Returned;
       RabbitMq.createChannelResult := Returned;
       RabbitMq.assertQueueResult := Returned;
       RabbitMq.cancelResult := Returned;
       RabbitMq.consumeResult := Returned |} in
  let st :=
    (RabbitMq.run RabbitMq.initial [RabbitMq.CallSubscribe "orders" 0 ok]).1 in
  let out := RabbitMqLifecycle.disconnect st (λ _, Threw) Threw Returned in
  RabbitMq.consumers out.1 = ∅
  ∧ RabbitMqLifecycle.cancels 0 out.2 = 1
  ∧ (RabbitMqLifecycle.CloseConnection ∉ out.2)
  ∧ RabbitMq.ensureChannel out.1 ok = (out.1, [], RabbitMq.channel out.1).
Proof.
  cbv zeta.
  match goal with
  | |- context [RabbitMqLifecycle.disconnect ?s ?c ?a ?b] =>
      destruct (disconnect_forgets_consumers s c a b)
        as (Hcons & _ & _ & Hcancels & Hclose & Hstale)
  end.
  split; [exact Hcons|]. split; [|split].
  - rewrite Hcancels. vm_compute. reflexivity.
  - intros Hin. apply Hclose in Hin as [_ [Hnone|Hret]]; [|done].
    vm_compute in Hnone. done.
  - apply Hstale; [vm_compute; reflexivity|]. vm_compute. by eexists.
Defined.

(** * Facts about the exception filter *)
Module FilterFacts.
Import Filter.

(** Induction over a validation error and, inside it, over its children. *)
Lemma ValidationError_nested_ind (P : ValidationError → Prop) :
  (∀ hasProperty c children,
     Forall P children → P (ValidationErrorObject hasProperty c children)) →
  ∀ e, P e.
Proof.
  intros Hnode. fix IH 1. intros [hasProperty c children]. apply Hnode.
  induction children as [|x rest IHrest]; constructor; [apply IH|exact IHrest].
Qed.

Lemma formatValidationError_node hasProperty c children :
  formatValidationError (ValidationErrorObject hasProperty c children)
  = constraintMessages c ++ formatValidationErrors children.
Proof. reflexivity. Qed.

Lemma constraintCount_node hasProperty c children :
  constraintCount (ValidationErrorObject hasProperty c children)
  = length (constraintMessages c) + constraintCounts children.
Proof. reflexivity. Qed.

Lemma formatValidationErrors_app (a b : list ValidationError) :
  formatValidationErrors (a ++ b)
  = formatValidationErrors a ++ formatValidationErrors b.
Proof.
  induction a as [|x a IH]; [done|].
  cbn [app formatValidationErrors]. by rewrite IH, app_assoc.
Qed.

Lemma formatValidationError_length e :
  length (formatValidationError e) = constraintCount e.
Proof.
  induction e as [hasProperty c children IH] using ValidationError_nested_ind.
  rewrite formatValidationError_node, constraintCount_node, length_app.
  f_equal. induction IH as [|x rest Hx _ IHrest]; [done|].
  cbn [formatValidationErrors constraintCounts].
  by rewrite length_app, Hx, IHrest.
Qed.

Lemma formatValidationErrors_length (errors : list ValidationError) :
  length (formatValidationErrors errors) = constraintCounts errors.
Proof.
  induction errors as [|e errors IH]; [done|].
  cbn [formatValidationErrors constraintCounts].
  by rewrite length_app, formatValidationError_length, IH.
Qed.

Lemma nonEmptyDetails_Some errorDetails l :
  nonEmptyDetails errorDetails = Some l → l = errorDetails ∧ l ≠ [].
Proof. destruct errorDetails; [done|]. by intros [= <-]. Qed.

End FilterFacts.

(** * The exception filter, the error classes and the module: properties *)

(** X19.  The [queue:error] event never carries an empty [details] list:
    [details] is either absent or has at least one entry, and it is present
    only on a warning with the message ["Validation failed"] and no queue
    name.  An event for a [WsException] never names a queue and is logged as
    a warning; its message is empty only when the exception carries the
    empty string. *)
Theorem error_event_details_never_empty (exception : Filter.Exception) :
  let level := (Filter.catch exception).1 in
  let event := (Filter.catch exception).2 in
  Filter.details event ≠ Some []
  ∧ (is_Some (Filter.details event) →
     Filter.error event = "Validation failed"
     ∧ Filter.queueName event = None
     ∧ level = Filter.Warn)
  ∧ (∀ err, exception = Filter.WsException err →
       Filter.queueName event = None
       ∧ level = Filter.Warn
       ∧ (Filter.error event = "" → err = Filter.ErrorString ""))
  ∧ (∀ e, exception = Filter.QueueException e →
       Filter.details event = None
       ∧ Filter.error event = Errors.message e
       ∧ Filter.queueName event = Errors.queueName e).
Proof.
  cbv zeta. destruct exception as [err|e]; cbn [Filter.catch].
  - destruct err as [[|first rest]|s|[|s|l]|]; cbn [fst snd];
      try destruct (Filter.isValidationError first);
      try destruct (decide (s = "")) as [->|Hs];
      cbn [fst snd Filter.details Filter.error Filter.queueName];
      (split_and!;
       [ intros Hd; by apply FilterFacts.nonEmptyDetails_Some in Hd as [? ?]
       | intros [l' Hd]; try done;
         apply FilterFacts.nonEmptyDetails_Some in Hd as [-> Hne]; done
       | intros err' [= <-]; split_and!; try done; by intros ->
       | done ]).
  - cbn [fst snd Filter.details Filter.error Filter.queueName].
    split_and!; [done|by intros [? ?]|done|by intros e' [= <-]].
Qed.

(** An object error whose [message] is an empty array. *)
Lemma error_event_details_never_empty_witness :
  let exception :=
    Filter.WsException (Filter.ErrorObject (Filter.MessageArray [])) in
  Filter.details (Filter.catch exception).2 ≠ Some []
  ∧ Filter.queueName (Filter.catch exception).2 = None.
Proof.
  cbv zeta. split.
  - exact (proj1 (error_event_details_never_empty _)).
  - exact (proj1 (proj1 (proj2 (proj2 (error_event_details_never_empty _)))
                    _ eq_refl)).
Defined.

(** X20.  [formatValidationErrors] flattens a forest of validation errors
    in pre-order: the messages of a list are the messages of its parts one
    after the other, the messages of one error are its own constraint
    messages followed by those of its children, and nothing is lost or
    added: there are as many messages as constraints in the forest.  For a
    [WsException] carrying such a list whose first element passes
    [isValidationError], the event's details are exactly these messages
    when there are any. *)
Theorem validation_messages_are_flattened
    (a b : list Filter.ValidationError) (hasProperty : bool)
    (c : Filter.ConstraintsProperty) (children : list Filter.ValidationError) :
  Filter.formatValidationErrors (a ++ b)
  = Filter.formatValidationErrors a ++ Filter.formatValidationErrors b
  ∧ Filter.formatValidationErrors
      (Filter.ValidationErrorObject hasProperty c children :: b)
    = Filter.constraintMessages c
        ++ Filter.formatValidationErrors children
        ++ Filter.formatValidationErrors b
  ∧ length (Filter.formatValidationErrors a) = Filter.constraintCounts a
  ∧ (∀ first rest,
       a = first :: rest → Filter.isValidationError first = true →
       0 < Filter.constraintCounts a →
       (Filter.catch (Filter.WsException (Filter.ErrorArray a))).2
       = {| Filter.error := "Validation failed";
            Filter.details := Some (Filter.formatValidationErrors a);
            Filter.queueName := None |}).
Proof.
  split_and!.
  - apply FilterFacts.formatValidationErrors_app.
  - cbn [Filter.formatValidationErrors].
    by rewrite FilterFacts.formatValidationError_node, app_assoc.
  - apply FilterFacts.formatValidationErrors_length.
  - intros first rest -> Hfirst Hcount. cbn [Filter.catch]. rewrite Hfirst.
    cbn [snd]. f_equal.
    rewrite <- FilterFacts.formatValidationErrors_length in Hcount.
    destruct (Filter.formatValidationErrors (first :: rest)); [|done].
    cbn in Hcount. lia.
Qed.

(** A validation error without constraints of its own whose child has
    two. *)
Lemma validation_messages_are_flattened_witness :
  let child :=
    Filter.ValidationErrorObject true
      (Filter.ConstraintsObject
         [("isString", "queueName must be a string");
          ("isNotEmpty", "queueName should not be empty")]) [] in
  let errors :=
    [Filter.ValidationErrorObject true Filter.ConstraintsUndefined [child]] in
  Filter.isValidationError
    (Filter.ValidationErrorObject true Filter.ConstraintsUndefined [child])
  = true
  ∧ (0 < Filter.constraintCounts errors)
  ∧ (Filter.catch (Filter.WsException (Filter.ErrorArray errors))).2
    = {| Filter.error := "Validation failed";
         Filter.details := Some (Filter.formatValidationErrors errors);
         Filter.queueName := None |}.
Proof.
  cbv zeta.
  match goal with |- ?A ∧ _ => assert A as Hfirst end.
  { reflexivity. }
  split; [exact Hfirst|].
  match goal with |- ?A ∧ _ => assert A as Hcount end.
  { vm_compute. lia. }
  split; [exact Hcount|].
  exact (proj2 (proj2 (proj2
           (validation_messages_are_flattened _ [] true
              Filter.ConstraintsMissing [])))
           _ _ eq_refl Hfirst Hcount).
Defined.

(** X21.  An error of the polling adapter reaches the client with its
    queue and a message that names it: the event for a queue error built
    from an adapter error has the error's queue name, no details, and a
    message that contains the queue name in double quotes.  Only a
    [QueueNotFoundError] is logged as a warning.  A cause with an empty
    message reads like no cause. *)
Theorem queue_error_reaches_client (e : Sqs.QueueError)
    (cause : option string) :
  let q :=
    match e with
    | Sqs.QueueNotFoundError q | Sqs.QueueCreationError q
    | Sqs.QueuePublishError q | Sqs.QueueSubscribeError q => q
    end in
  let out := Filter.catch (Filter.QueueException (Errors.ofSqs e cause)) in
  Filter.queueName out.2 = Some q
  ∧ Filter.details out.2 = None
  ∧ (∃ before after,
       Filter.error out.2
       = String.append before (String.append (Errors.quoted q) after))
  ∧ (out.1 = Filter.Warn ↔ e = Sqs.QueueNotFoundError q)
  ∧ (cause = Some "" →
     out = Filter.catch (Filter.QueueException (Errors.ofSqs e None))).
Proof.
  cbv zeta. destruct e as [q|q|q|q];
    cbn [Errors.ofSqs Filter.catch fst snd Filter.queueName Filter.details
         Filter.error Errors.class Errors.queueName Errors.message
         Errors.newQueueNotFoundError Errors.newQueueCreationError
         Errors.newQueuePublishError Errors.newQueueSubscribeError];
    (split_and!;
     [ done | done | eexists _, _; reflexivity | by split
     | by intros -> ]).
Qed.

(** The error of a [subscribe] whose lookup failed with an SDK error that
    has no message. *)
Lemma queue_error_reaches_client_witness :
  let e := Sqs.QueueSubscribeError "orders" in
  let out :=
    Filter.catch (Filter.QueueException (Errors.ofSqs e (Some ""))) in
  Filter.queueName out.2 = Some "orders"
  ∧ out = Filter.catch (Filter.QueueException (Errors.ofSqs e None)).
Proof.
  cbv zeta.
  destruct (queue_error_reaches_client (Sqs.QueueSubscribeError "orders")
              (Some "")) as (Hq & _ & _ & _ & Hcause).
  split; [exact Hq|exact (Hcause eq_refl)].
Defined.

(** X22.  [QueueModule.forRoot] throws exactly when the configuration of
    the selected provider is missing, with that provider's message; the
    other provider's configuration is never looked at.  When it returns,
    the module registers the selected adapter class and not the other one,
    [QUEUE_PROVIDER] is an alias of that class and of no other, and only
    [QueueService] is exported. *)
Theorem forRoot_uses_selected_provider
    (options : QueueModule.QueueModuleOptions) :
  let chosen :=
    match QueueModule.provider options with
    | QueueModule.sqs => QueueModule.SqsProvider
    | QueueModule.rabbitmq => QueueModule.RabbitMqProvider
    end in
  let other :=
    match QueueModule.provider options with
    | QueueModule.sqs => QueueModule.RabbitMqProvider
    | QueueModule.rabbitmq => QueueModule.SqsProvider
    end in
  ((∃ text, QueueModule.forRoot options = inr text)
   ↔ match QueueModule.provider options with
     | QueueModule.sqs => QueueModule.sqsOption options = None
     | QueueModule.rabbitmq => QueueModule.rabbitmqOption options = None
     end)
  ∧ (∀ m, QueueModule.forRoot options = inl m →
       QueueModule.exports m = [QueueModule.QueueService]
       ∧ QueueModule.UseClass chosen ∈ QueueModule.providers m
       ∧ (QueueModule.UseClass other ∉ QueueModule.providers m)
       ∧ ∀ c, (QueueModule.UseExisting "QUEUE_PROVIDER" c
                 ∈ QueueModule.providers m) ↔ c = chosen)
  ∧ (∀ sqsConfig rabbitmqConfig,
       QueueModule.forRoot
         match QueueModule.provider options with
         | QueueModule.sqs =>
             {| QueueModule.provider := QueueModule.sqs;
                QueueModule.sqsOption := QueueModule.sqsOption options;
                QueueModule.rabbitmqOption := rabbitmqConfig |}
         | QueueModule.rabbitmq =>
             {| QueueModule.provider := QueueModule.rabbitmq;
                QueueModule.sqsOption := sqsConfig;
                QueueModule.rabbitmqOption :=
                  QueueModule.rabbitmqOption options |}
         end
       = QueueModule.forRoot options).
Proof.
  cbv zeta. destruct options as [[] [s|] [r|]];
    cbn [QueueModule.forRoot QueueModule.selected QueueModule.provider
         QueueModule.sqsOption QueueModule.rabbitmqOption fmap option_fmap
         option_map]; split_and!; try done.
  all: try (split; [by intros [? ?]|by eauto]).
  all: intros m [= <-]; cbn [QueueModule.exports QueueModule.providers];
    split_and!; [done|set_solver|set_solver|];
    intros c; split; [set_solver|intros ->; set_solver].
Qed.

(** The SQS provider selected with only a RabbitMQ configuration given. *)
Lemma forRoot_uses_selected_provider_witness :
  let options :=
    {| QueueModule.provider := QueueModule.sqs;
       QueueModule.sqsOption := None;
       QueueModule.rabbitmqOption :=
         Some {| QueueModule.url := "amqp://localhost" |} |} in
  QueueModule.sqsOption options = None
  ∧ ∃ text, QueueModule.forRoot options = inr text.
Proof.
  cbv zeta.
  match goal with |- ?A ∧ _ => assert A as Hnone end.
  { reflexivity. }
  split; [exact Hnone|].
  exact (proj2 (proj1 (forRoot_uses_selected_provider
                         {| QueueModule.provider := QueueModule.sqs;
                            QueueModule.sqsOption := None;
                            QueueModule.rabbitmqOption :=
                              Some {| QueueModule.url := "amqp://localhost" |}
                         |})) Hnone).
Defined.

(** * The gateway's handler under the adapters *)
Module DeliveryFacts.



End DeliveryFacts.

(** * The gateway on top of the adapters *)


